(** * A CART decision-tree classifier: shallow embedding and properties

    This development embeds the class [DecisionTreeClassifier] of the
    decision-tree notebook: the split search [best_node_split], the
    recursive builder [build_tree], [fit], [predict] and the text renderer
    [_print_tree_aux].

    Numbers.  The notebook computes on numpy [float64] values.  The
    embedding is written once over an interface [Number] of the arithmetic
    and comparison operations the code uses, with two instances:
    - [binary64]: the kernel's IEEE 754 binary64 floats, which is what the
      code runs on;
    - [exact]: the rationals, the arithmetic the algorithm is designed in.
    Integer quantities (class counts, sizes, depths, layout columns) are
    Python or numpy integers and are modelled by [nat] and [Z].

    Library operations.  [np.argsort] is modelled by a stable insertion
    sort with numpy's order on floats, NaN last; numpy leaves the order
    of equal keys open, and the search examines only the cuts between two
    keys that differ.  [np.sum] adds as numpy does: from left to right
    below 8 numbers, in 8 interleaved partial sums from 8 numbers on.
    Python's [str] of a float is a parameter of the renderer.

    Exceptions are values of [result]; the fields of [self] are passed
    explicitly as a record, and [fit] returns the updated record. *)

From Stdlib Require Import String Ascii DecimalString ZArith List Bool Arith Lia.
From Stdlib Require Import Permutation Sorted.
From Stdlib Require Import QArith Lqa.
From Stdlib Require Import Floats Uint63.
Import ListNotations.
Close Scope Q_scope.

Set Implicit Arguments.
#[local] Set Warnings "-register-all,-inexact-float".

(* ------------------------------------------------------------------ *)
(** ** Numbers *)

(** The operations of [float64] that the classifier uses. *)
Class Number (T : Type) : Type := {
  of_Z : Z -> T;            (* conversion of an integer operand *)
  add : T -> T -> T;
  sub : T -> T -> T;
  mul : T -> T -> T;
  div : T -> T -> T;        (* true division [/] *)
  ltb : T -> T -> bool;     (* [<] *)
  leb : T -> T -> bool;     (* [<=] *)
  eqb : T -> T -> bool      (* [==] *)
}.

(** IEEE 754 binary64.  An integer operand is converted as numpy converts
    an [int64]. *)
Definition float_of_Z (z : Z) : float :=
  match z with
  | Z0 => PrimFloat.of_uint63 0%uint63
  | Zpos _ => PrimFloat.of_uint63 (Uint63.of_Z z)
  | Zneg _ => PrimFloat.opp (PrimFloat.of_uint63 (Uint63.of_Z (Z.opp z)))
  end.

#[export] Instance binary64 : Number float := {
  of_Z := float_of_Z;
  add := PrimFloat.add;
  sub := PrimFloat.sub;
  mul := PrimFloat.mul;
  div := PrimFloat.div;
  ltb := PrimFloat.ltb;
  leb := PrimFloat.leb;
  eqb := PrimFloat.eqb
}.

(** Exact rational arithmetic. *)
#[export] Instance exact : Number Q := {
  of_Z := inject_Z;
  add := Qplus;
  sub := Qminus;
  mul := Qmult;
  div := Qdiv;
  ltb := fun a b => negb (Qle_bool b a);
  leb := Qle_bool;
  eqb := Qeq_bool
}.

(* ------------------------------------------------------------------ *)
(** ** Exceptions *)

Inductive exn : Type :=
| ValueError       (* [np.max] of an empty array *)
| IndexError       (* an index, or a boolean mask, that does not fit *)
| TypeError        (* an operation on [None] *)
| AttributeError.  (* an attribute of [None] *)

Inductive result (A : Type) : Type :=
| Ok (a : A)
| Raise (e : exn).

Arguments Raise {A} e.

Definition bind {A B : Type} (r : result A) (k : A -> result B) : result B :=
  match r with
  | Ok a => k a
  | Raise e => Raise e
  end.

Declare Scope py_scope.
Delimit Scope py_scope with py.
Notation "x <- e ;; k" := (bind e (fun x => k))
  (at level 61, e at next level, right associativity) : py_scope.
Notation "' pat <- e ;; k" := (bind e (fun x => match x with pat => k end))
  (at level 61, pat pattern, e at next level, right associativity) : py_scope.
Open Scope py_scope.

(** A [for] loop over [l] that threads the loop's variables and stops at
    the first exception. *)
Fixpoint for_each {A S : Type} (l : list A) (body : S -> A -> result S) (s : S)
  : result S :=
  match l with
  | [] => Ok s
  | a :: l' => s' <- body s a ;; for_each l' body s'
  end.

(** A list comprehension whose element expression may raise. *)
Fixpoint map_result {A B : Type} (f : A -> result B) (l : list A) : result (list B) :=
  match l with
  | [] => Ok []
  | a :: l' => b <- f a ;; bs <- map_result f l' ;; Ok (b :: bs)
  end.

(* ------------------------------------------------------------------ *)
(** ** Arrays *)

(** [a[i]] for a non-negative index. *)
Definition getitem {A : Type} (a : list A) (i : nat) : result A :=
  match nth_error a i with
  | Some x => Ok x
  | None => Raise IndexError
  end.

(** [a[idx]] for an integer index array [idx]. *)
Definition take {A : Type} (a : list A) (idx : list nat) : result (list A) :=
  map_result (getitem a) idx.

(** [a[mask]] for a boolean array [mask], which must be as long as [a];
    numpy does not check a mask of size 0, which selects nothing. *)
Fixpoint select {A : Type} (mask : list bool) (a : list A) : list A :=
  match mask, a with
  | b :: mask', x :: a' => if b then x :: select mask' a' else select mask' a'
  | _, _ => []
  end.

Definition getmask {A : Type} (a : list A) (mask : list bool) : result (list A) :=
  if Nat.eqb (length mask) (length a) || Nat.eqb (length mask) 0
  then Ok (select mask a)
  else Raise IndexError.

(** [a[i] += d] on an integer array. *)
Fixpoint bump (a : list Z) (i : nat) (d : Z) : result (list Z) :=
  match a, i with
  | [], _ => Raise IndexError
  | x :: a', O => Ok ((x + d)%Z :: a')
  | x :: a', S i' => a'' <- bump a' i' d ;; Ok (x :: a'')
  end.

(** [np.sum(y == c)]. *)
Definition count_class (y : list nat) (c : nat) : Z :=
  Z.of_nat (count_occ Nat.eq_dec y c).

(** [np.array([np.sum(y==c) for c in range(n_classes)])]. *)
Definition class_counts (n_classes : nat) (y : list nat) : list Z :=
  map (count_class y) (seq 0 n_classes).

(** [np.argmax]: the first index that holds the maximum (of a non-empty
    array: [fit] sets [n_classes] to [max(y) + 1]). *)
Fixpoint argmax_from (best_i : nat) (best : Z) (i : nat) (a : list Z) : nat :=
  match a with
  | [] => best_i
  | x :: a' =>
      if (best <? x)%Z then argmax_from i x (S i) a'
      else argmax_from best_i best (S i) a'
  end.

Definition argmax (a : list Z) : nat :=
  match a with
  | [] => 0
  | x :: a' => argmax_from 0 x 1 a'
  end.

(** [np.max(y)] of an integer vector. *)
Definition np_max (y : list nat) : result nat :=
  match y with
  | [] => Raise ValueError
  | c :: y' => Ok (fold_left Nat.max y' c)
  end.

(** A matrix is the list of its rows; a 2-D array has rows of one length,
    [X.shape[1]]. *)
Definition shape0 {A : Type} (X : list (list A)) : nat := length X.

Definition shape1 {A : Type} (X : list (list A)) : nat :=
  match X with
  | [] => 0
  | row :: _ => length row
  end.

Section Classifier.

Context {T : Type} {num : Number T}.

Definition zero : T := of_Z 0.
Definition one : T := of_Z 1.
Definition two : T := of_Z 2.

(** [X[:, feature]], for a feature below the width of [X] (beyond it
    numpy raises an index error; the properties of [best_node_split] that
    do not go through [fit] assume the width). *)
Definition column (X : list (list T)) (feature : nat) : list T :=
  map (fun row => nth feature row zero) X.

(** numpy orders floats with NaN last: [a] sorts before [b] when [a < b],
    or when [b] is NaN and [a] is not. *)
Definition sorts_before (a b : T) : bool :=
  ltb a b || (negb (eqb b b) && eqb a a).

(** [np.argsort]: insertion of one index into a sorted index list, after
    the entries whose key sorts before the new one.  Equal keys stay in
    index order; numpy leaves their order open, and the search looks only
    at cuts between two keys that differ. *)
Fixpoint insert_index (keys : list T) (i : nat) (sorted : list nat) : list nat :=
  match sorted with
  | [] => [i]
  | j :: sorted' =>
      if sorts_before (nth j keys zero) (nth i keys zero)
      then j :: insert_index keys i sorted'
      else i :: j :: sorted'
  end.

Definition argsort (keys : list T) : list nat :=
  fold_right (insert_index keys) [] (seq 0 (length keys)).

(** [np.sum] of a float array.  numpy adds fewer than 8 numbers from left
    to right, starting from 0; it adds up to 128 numbers in 8 interleaved
    partial sums, which it then adds in pairs, and the numbers left over
    after the last full block of 8 one by one; it splits a longer array
    in two at a multiple of 8 and adds the sums of the halves.  (The sums
    of the classifier are sums of squares, so the sign of a zero sum does
    not come into play.) *)
Fixpoint add_lanes (r a : list T) : list T :=
  match r, a with
  | x :: r', z :: a' => add x z :: add_lanes r' a'
  | _, _ => r
  end.

(** [blocks] passes of [r[k] += a[i + k]]: the partial sums and what is
    left of the array. *)
Fixpoint lanes (blocks : nat) (r a : list T) : list T * list T :=
  match blocks with
  | O => (r, a)
  | S blocks' => lanes blocks' (add_lanes r (firstn 8 a)) (skipn 8 a)
  end.

Definition sum_block (a : list T) : T :=
  let '(r, rest) := lanes (length a / 8 - 1) (firstn 8 a) (skipn 8 a) in
  match r with
  | [r0; r1; r2; r3; r4; r5; r6; r7] =>
      fold_left add rest
        (add (add (add r0 r1) (add r2 r3)) (add (add r4 r5) (add r6 r7)))
  | _ => zero
  end.

(** [fuel] bounds the halving for Rocq; the length of the array is
    enough. *)
Fixpoint pairwise_sum (fuel : nat) (a : list T) : T :=
  let n := length a in
  if n <? 8 then fold_left add a zero
  else if n <=? 128 then sum_block a
  else match fuel with
       | O => zero
       | S fuel' =>
           let n2 := n / 2 - (n / 2) mod 8 in
           add (pairwise_sum fuel' (firstn n2 a)) (pairwise_sum fuel' (skipn n2 a))
       end.

Definition np_sum (a : list T) : T := pairwise_sum (length a) a.

(** [1 - np.sum((counts / n) ** 2)]. *)
Definition gini_index (counts : list Z) (n : Z) : T :=
  sub one (np_sum (map (fun c => let p := div (of_Z c) (of_Z n) in mul p p) counts)).

(** [(1 / n) * (n_left * gini_left + n_right * gini_right)]. *)
Definition weighted_gini (n n_left n_right : Z) (gini_left gini_right : T) : T :=
  mul (div one (of_Z n))
      (add (mul (of_Z n_left) gini_left) (mul (of_Z n_right) gini_right)).

(* ------------------------------------------------------------------ *)
(** ** Nodes and the classifier object *)

(** [Node = namedtuple('Node', ['threshold', 'feature_index',
    'majority_class', 'left', 'right'])]; a field that holds [None] is
    [None] here. *)
Inductive Node : Type :=
  mkNode (threshold : option T) (feature_index : option nat)
         (majority_class : nat) (left right : option Node).

Definition threshold (n : Node) := let 'mkNode t _ _ _ _ := n in t.
Definition feature_index (n : Node) := let 'mkNode _ f _ _ _ := n in f.
Definition majority_class (n : Node) := let 'mkNode _ _ c _ _ := n in c.
Definition left (n : Node) := let 'mkNode _ _ _ l _ := n in l.
Definition right (n : Node) := let 'mkNode _ _ _ _ r := n in r.

(** The two shapes of node that [build_tree] constructs. *)
Definition Leaf (c : nat) : Node := mkNode None None c None None.
Definition Split (f : nat) (t : T) (c : nat) (l r : Node) : Node :=
  mkNode (Some t) (Some f) c (Some l) (Some r).

(** The fields of [self]. *)
Record DecisionTreeClassifier : Type := mkSelf {
  n_classes : nat;
  n_features : nat;
  max_depth : Z;
  root : option Node
}.

(* ------------------------------------------------------------------ *)
(** ** best_node_split *)

(** The variables that the search updates: [best_gini], [best_feature],
    [best_threshold]. *)
Record Best : Type := mkBest {
  best_gini : T;
  best_feature : option nat;
  best_threshold : option T
}.

(** One pass of the inner loop, for [midpoint_id]. *)
Definition midpoint_step (n_observations : nat) (feature : nat)
    (sorted_observations : list T) (sorted_classes : list nat)
    (st : list Z * list Z * Best) (midpoint_id : nat)
  : result (list Z * list Z * Best) :=
  let '(left_class_counts, right_class_counts, best) := st in
  prev_observation_class <- getitem sorted_classes (midpoint_id - 1) ;;
  left_class_counts <- bump left_class_counts prev_observation_class 1 ;;
  right_class_counts <- bump right_class_counts prev_observation_class (-1) ;;
  let n_observations_left := Z.of_nat midpoint_id in
  let n_observations_right := (Z.of_nat n_observations - n_observations_left)%Z in
  let gini_left := gini_index left_class_counts n_observations_left in
  let gini_right := gini_index right_class_counts n_observations_right in
  let gini := weighted_gini (Z.of_nat n_observations) n_observations_left
                n_observations_right gini_left gini_right in
  cur <- getitem sorted_observations midpoint_id ;;
  prev <- getitem sorted_observations (midpoint_id - 1) ;;
  if eqb cur prev then Ok (left_class_counts, right_class_counts, best)
  else if ltb gini (best_gini best)
  then Ok (left_class_counts, right_class_counts,
           mkBest gini (Some feature) (Some (div (add prev cur) two)))
  else Ok (left_class_counts, right_class_counts, best).

(** One pass of the outer loop, for [feature]. *)
Definition feature_step (self : DecisionTreeClassifier) (X : list (list T))
    (y : list nat) (counts : list Z) (best : Best) (feature : nat) : result Best :=
  let n_observations := shape0 X in
  let sorted_indices := argsort (column X feature) in
  sorted_observations <- take (column X feature) sorted_indices ;;
  sorted_classes <- take y sorted_indices ;;
  let left_class_counts := repeat 0%Z (n_classes self) in
  let right_class_counts := counts in
  '(_, _, best') <- for_each (seq 1 (n_observations - 1))
       (midpoint_step n_observations feature sorted_observations sorted_classes)
       (left_class_counts, right_class_counts, best) ;;
  Ok best'.

Definition best_node_split (self : DecisionTreeClassifier) (X : list (list T))
    (y : list nat) : result (option nat * option T) :=
  let n_observations := shape0 X in
  let counts := class_counts (n_classes self) y in
  let best := mkBest (gini_index counts (Z.of_nat n_observations)) None None in
  best' <- for_each (seq 0 (n_features self)) (feature_step self X y counts) best ;;
  Ok (best_feature best', best_threshold best').

(* ------------------------------------------------------------------ *)
(** ** build_tree and fit *)

(** [X[:, best_feature] < best_threshold] and [... > best_threshold];
    comparing with [None] raises. *)
Definition left_mask (X : list (list T)) (f : nat) (t : T) : list bool :=
  map (fun x => ltb x t) (column X f).

Definition right_mask (X : list (list T)) (f : nat) (t : T) : list bool :=
  map (fun x => ltb t x) (column X f).

(** [build_tree].  The recursion of the source descends only while
    [depth < max_depth]; [fuel] bounds the recursion for Rocq, and [None]
    is returned only when it is exhausted, which [max_depth - depth] units
    never are (see [build_tree_rec_fuel] and [build_tree_returns]). *)
Fixpoint build_tree_rec (fuel : nat) (self : DecisionTreeClassifier)
    (X : list (list T)) (y : list nat) (depth : Z) : option (result Node) :=
  let counts := class_counts (n_classes self) y in
  let majority := argmax counts in
  if (depth <? max_depth self)%Z then
    match best_node_split self X y with
    | Raise e => Some (Raise e)
    | Ok (None, best_threshold) => Some (Ok (mkNode best_threshold None majority None None))
    | Ok (Some f, None) => Some (Raise TypeError)
    | Ok (Some f, Some t) =>
        match fuel with
        | O => None
        | S fuel' =>
            match getmask X (left_mask X f t), getmask y (left_mask X f t) with
            | Raise e, _ | Ok _, Raise e => Some (Raise e)
            | Ok Xl, Ok yl =>
                match build_tree_rec fuel' self Xl yl (depth + 1) with
                | None => None
                | Some (Raise e) => Some (Raise e)
                | Some (Ok l) =>
                    match getmask X (right_mask X f t), getmask y (right_mask X f t) with
                    | Raise e, _ | Ok _, Raise e => Some (Raise e)
                    | Ok Xr, Ok yr =>
                        match build_tree_rec fuel' self Xr yr (depth + 1) with
                        | None => None
                        | Some (Raise e) => Some (Raise e)
                        | Some (Ok r) =>
                            Some (Ok (mkNode (Some t) (Some f) majority (Some l) (Some r)))
                        end
                    end
                end
            end
        end
    end
  else Some (Ok (mkNode None None majority None None)).

Definition build_tree (self : DecisionTreeClassifier) (X : list (list T))
    (y : list nat) (depth : Z) : option (result Node) :=
  build_tree_rec (Z.to_nat (max_depth self - depth)) self X y depth.

(** [fit]: returns the updated [self]. *)
Definition fit (X : list (list T)) (y : list nat) (max_depth : Z)
  : option (result DecisionTreeClassifier) :=
  match np_max y with
  | Raise e => Some (Raise e)
  | Ok m =>
      let self := mkSelf (m + 1) (shape1 X) max_depth None in
      match build_tree self X y 0 with
      | None => None
      | Some (Raise e) => Some (Raise e)
      | Some (Ok node) => Some (Ok (mkSelf (m + 1) (shape1 X) max_depth (Some node)))
      end
  end.

(* ------------------------------------------------------------------ *)
(** ** predict *)

(** The [while] loop of [predict] for one observation: it descends one
    level per pass, so it is a recursion on the node. *)
Fixpoint descend (node : Node) (observation : list T) : result nat :=
  match node with
  | mkNode t f c l r =>
      match l with
      | None => Ok c
      | Some l' =>
          match f, t with
          | Some f', Some t' =>
              x <- getitem observation f' ;;
              if leb x t' then descend l' observation
              else match r with
                   | Some r' => descend r' observation
                   | None => Raise AttributeError
                   end
          | _, _ => Raise TypeError
          end
      end
  end.

Definition predict (self : DecisionTreeClassifier) (X : list (list T))
  : result (list nat) :=
  match root self with
  | None => match X with [] => Ok [] | _ => Raise AttributeError end
  | Some node => map_result (descend node) X
  end.

End Classifier.

Arguments Node T : clear implicits.
Arguments DecisionTreeClassifier T : clear implicits.
Arguments Best T : clear implicits.

(* ------------------------------------------------------------------ *)
(** ** The renderer *)

(** [str] of a non-negative integer. *)
Definition str_nat (n : nat) : string := NilEmpty.string_of_uint (Nat.to_uint n).

(** A field in an f-string: [None] prints as its name. *)
Definition str_field {A : Type} (str : A -> string) (o : option A) : string :=
  match o with
  | Some a => str a
  | None => "None"
  end.

(** [k * s] for a string [s]: empty when [k <= 0]. *)
Definition times (k : Z) (s : string) : string :=
  String.concat EmptyString (repeat s (Z.to_nat k)).

Definition len (s : string) : Z := Z.of_nat (String.length s).

Section Renderer.

Context {T : Type}.

(** [str] of a [float64] is Python's, not the notebook's: the renderer
    takes it as a parameter. *)
Variable str_float : T -> string.

Fixpoint _print_tree_aux (node : Node T) : result (list string * Z * Z * Z) :=
  match node with
  | mkNode t f c l r =>
      match r, l with
      | None, None =>
          let line := ("c: " ++ str_nat c)%string in
          let width := len line in
          let height := 1%Z in
          let middle := (width / 2)%Z in
          Ok ([line], width, height, middle)
      | _, _ =>
          match l with
          | None => Raise AttributeError
          | Some l' =>
              '(left, n, p, x) <- _print_tree_aux l' ;;
              match r with
              | None => Raise AttributeError
              | Some r' =>
                  '(right, m, q, y) <- _print_tree_aux r' ;;
                  let s := ("f: " ++ str_field str_nat f ++ ", t: "
                            ++ str_field str_float t)%string in
                  let u := len s in
                  let first_line :=
                    (times (x + 1) " " ++ times (n - x - 1) "_" ++ s
                     ++ times y "_" ++ times (m - y) " ")%string in
                  let second_line :=
                    (times x " " ++ "/" ++ times (n - x - 1 + u + y) " "
                     ++ "\" ++ times (m - y - 1) " ")%string in
                  let left :=
                    if (p <? q)%Z
                    then left ++ repeat (times n " ") (Z.to_nat (q - p))
                    else left in
                  let right :=
                    if (p <? q)%Z then right
                    else if (q <? p)%Z
                    then right ++ repeat (times m " ") (Z.to_nat (p - q))
                    else right in
                  let zipped_lines := combine left right in
                  let lines :=
                    first_line :: second_line
                    :: map (fun '(a, b) => (a ++ times u " " ++ b)%string) zipped_lines in
                  Ok (lines, (n + m + u)%Z, (Z.max p q + 2)%Z, (n + u / 2)%Z)
              end
          end
      end
  end.

End Renderer.

(* ------------------------------------------------------------------ *)
(** ** Specification-level notions *)

Section Notions.

Context {T : Type} {num : Number T}.

(** The tree as the tagged variant of the data model: a Leaf holds its
    majority class, a Split its feature, threshold, majority class and
    two children. *)
Inductive Tree : Type :=
| TLeaf (c : nat)
| TSplit (f : nat) (t : T) (c : nat) (l r : Tree).

Fixpoint node_of (tr : Tree) : Node T :=
  match tr with
  | TLeaf c => Leaf c
  | TSplit f t c l r => Split f t c (node_of l) (node_of r)
  end.

(** Depth of the deepest leaf below a node (the root is at depth 0). *)
Fixpoint height (tr : Tree) : nat :=
  match tr with
  | TLeaf _ => 0
  | TSplit _ _ _ l r => S (Nat.max (height l) (height r))
  end.

(** Every split of the tree tests a feature below [k]. *)
Fixpoint features_below (k : nat) (tr : Tree) : Prop :=
  match tr with
  | TLeaf _ => True
  | TSplit f _ _ l r => f < k /\ features_below k l /\ features_below k r
  end.

(** The traversal of the Predictor's contract: at a Split go left when
    [observation[feature_index] <= threshold], else right; at a Leaf emit
    its majority class. *)
Fixpoint traverse (tr : Tree) (observation : list T) : result nat :=
  match tr with
  | TLeaf c => Ok c
  | TSplit f t _ l r =>
      x <- getitem observation f ;;
      if leb x t then traverse l observation else traverse r observation
  end.

(** On every node of the tree, [left] is [None] exactly when [right] is. *)
Fixpoint paired (n : Node T) : Prop :=
  match n with
  | mkNode _ _ _ l r =>
      (l = None <-> r = None)
      /\ match l with Some l' => paired l' | None => True end
      /\ match r with Some r' => paired r' | None => True end
  end.

(** The training subsets that [build_tree] passes to its recursive calls. *)
Definition left_subset {A : Type} (X : list (list T)) (f : nat) (t : T)
    (a : list A) : list A := select (left_mask X f t) a.

Definition right_subset {A : Type} (X : list (list T)) (f : nat) (t : T)
    (a : list A) : list A := select (right_mask X f t) a.

(** The arguments of one call of [build_tree]. *)
Record Call : Type := mkCall {
  call_X : list (list T);
  call_y : list nat;
  call_depth : Z
}.

(** [subcall self c c']: the call [c] of [build_tree] makes the recursive
    call [c'].  The right call is made once the left one has returned. *)
Inductive subcall (self : DecisionTreeClassifier T) : Call -> Call -> Prop :=
| subcall_left : forall X y depth f t Xl yl,
    (depth <? max_depth self)%Z = true ->
    best_node_split self X y = Ok (Some f, Some t) ->
    getmask X (left_mask X f t) = Ok Xl ->
    getmask y (left_mask X f t) = Ok yl ->
    subcall self (mkCall X y depth) (mkCall Xl yl (depth + 1))
| subcall_right : forall X y depth f t Xl yl l Xr yr,
    (depth <? max_depth self)%Z = true ->
    best_node_split self X y = Ok (Some f, Some t) ->
    getmask X (left_mask X f t) = Ok Xl ->
    getmask y (left_mask X f t) = Ok yl ->
    build_tree self Xl yl (depth + 1) = Some (Ok l) ->
    getmask X (right_mask X f t) = Ok Xr ->
    getmask y (right_mask X f t) = Ok yr ->
    subcall self (mkCall X y depth) (mkCall Xr yr (depth + 1)).

(** The calls made, directly or not, by the call [c]. *)
Inductive calls (self : DecisionTreeClassifier T) (c : Call) : Call -> Prop :=
| calls_here : calls self c c
| calls_below : forall c' c'', calls self c c' -> subcall self c' c'' -> calls self c c''.

(** *** Candidate splits *)

(** A candidate split: its feature, its threshold and its weighted Gini
    impurity. *)
Record Candidate : Type := mkCandidate {
  cand_feature : nat;
  cand_threshold : T;
  cand_gini : T
}.

(** The values of a feature in sorted order, and the labels carried along. *)
Definition sorted_values (X : list (list T)) (f : nat) : list T :=
  map (fun i => nth i (column X f) zero) (argsort (column X f)).

Definition sorted_labels (X : list (list T)) (y : list nat) (f : nat) : list nat :=
  map (fun i => nth i y 0) (argsort (column X f)).

(** Weighted Gini impurity of cutting the sorted labels after the first
    [i]: the class counts of both sides are counted afresh. *)
Definition cut_gini (k : nat) (labels : list nat) (i : nat) : T :=
  let n := Z.of_nat (length labels) in
  let n_left := Z.of_nat i in
  let n_right := (n - n_left)%Z in
  weighted_gini n n_left n_right
    (gini_index (class_counts k (firstn i labels)) n_left)
    (gini_index (class_counts k (skipn i labels)) n_right).

(** The candidate at position [i] of the sorted values, if the values at
    [i - 1] and [i] differ: its threshold is their midpoint. *)
Definition candidate_at (k f : nat) (values : list T) (labels : list nat)
    (i : nat) : list Candidate :=
  let prev := nth (i - 1) values zero in
  let cur := nth i values zero in
  if eqb cur prev then []
  else [mkCandidate f (div (add prev cur) two) (cut_gini k labels i)].

(** The candidates of one feature, in ascending position. *)
Definition feature_candidates (k : nat) (X : list (list T)) (y : list nat)
    (f : nat) : list Candidate :=
  flat_map (candidate_at k f (sorted_values X f) (sorted_labels X y f))
           (seq 1 (length X - 1)).

(** All candidates, in ascending feature index. *)
Definition candidates (self : DecisionTreeClassifier T) (X : list (list T))
    (y : list nat) : list Candidate :=
  flat_map (feature_candidates (n_classes self) X y) (seq 0 (n_features self)).

(** The impurity of the subset itself. *)
Definition parent_gini (self : DecisionTreeClassifier T) (X : list (list T))
    (y : list nat) : T :=
  gini_index (class_counts (n_classes self) y) (Z.of_nat (length X)).

(** The variables of the search hold no feature and no threshold, or a
    feature below [k] and a threshold. *)
Definition best_shape (k : nat) (b : Best T) : Prop :=
  (best_feature b = None /\ best_threshold b = None)
  \/ (exists f t, best_feature b = Some f /\ best_threshold b = Some t /\ f < k).

(** The update of the search: a candidate replaces the best one so far
    when its impurity is strictly smaller. *)
Definition chosen (c : Candidate) : Best T :=
  mkBest (cand_gini c) (Some (cand_feature c)) (Some (cand_threshold c)).

Definition pick (b : Best T) (c : Candidate) : Best T :=
  if ltb (cand_gini c) (best_gini b) then chosen c else b.

(** The choice among all candidates, starting from the parent's impurity. *)
Definition first_best (self : DecisionTreeClassifier T) (X : list (list T))
    (y : list nat) : Best T :=
  fold_left pick (candidates self X y) (mkBest (parent_gini self X y) None None).

(** [<] is a strict total preorder on the values of [l] (none is a NaN). *)
Definition comparable (l : list T) : Prop :=
  forall a b c, In a l -> In b l -> In c l ->
    ltb a a = false
    /\ (ltb a b = true -> ltb b c = true -> ltb a c = true)
    /\ (ltb a b = true -> ltb a c = true \/ ltb c b = true).

(** The same, decided by running [<] on every triple of values. *)
Definition comparableb (l : list T) : bool :=
  forallb (fun a =>
    negb (ltb a a)
    && forallb (fun b =>
         forallb (fun c =>
           implb (ltb a b && ltb b c) (ltb a c)
           && implb (ltb a b) (ltb a c || ltb c b)) l) l) l.

End Notions.

Arguments Tree T : clear implicits.
Arguments Call T : clear implicits.
Arguments Candidate T : clear implicits.

(* ------------------------------------------------------------------ *)
(** ** Exact arithmetic *)

(** The sum of rationals, in which the order of the additions does not
    matter. *)
Definition qsum (l : list Q) : Q := fold_right Qplus 0%Q l.

(** What the split search relies on when the numbers are exact: [<] is a
    strict total order up to [==], and the midpoint of two distinct values
    lies strictly between them. *)
Class ExactOrder (T : Type) {num : Number T} : Prop := {
  ltb_irrefl : forall a : T, ltb a a = false;
  ltb_trans : forall a b c : T, ltb a b = true -> ltb b c = true -> ltb a c = true;
  ltb_cotrans : forall a b c : T, ltb a b = true -> ltb a c = true \/ ltb c b = true;
  eqb_ltb : forall a b : T, eqb a b = negb (ltb a b) && negb (ltb b a);
  midpoint_between : forall a b : T,
      ltb a b = true ->
      ltb a (div (add a b) two) = true /\ ltb (div (add a b) two) b = true
}.

Arguments ExactOrder T {num}.

Section OrderNotions.

Context {T : Type} {num : Number T}.

(** [a <= b], as "not [b < a]". *)
Definition not_above (a b : T) : Prop := ltb b a = false.

(** [t] lies strictly between two values of the column, and every value
    of the column is strictly below or strictly above it. *)
Definition separates (t : T) (col : list T) : Prop :=
  (exists a, In a col /\ ltb a t = true)
  /\ (exists b, In b col /\ ltb t b = true)
  /\ Forall (fun x => xorb (ltb x t) (ltb t x) = true) col.

(** [a] is examined before [b]: its feature index is lower, or the
    feature is the same and its threshold is lower. *)
Definition examined_before (a b : Candidate T) : Prop :=
  cand_feature a < cand_feature b
  \/ (cand_feature a = cand_feature b
      /\ ltb (cand_threshold a) (cand_threshold b) = true).


(** [<] and [==] order the values of [l], none of which is a NaN: [<] is
    a strict weak order on them, and [==] holds of two of them when
    neither is below the other. *)
Definition ordered (l : list T) : Prop :=
  forall a b c, In a l -> In b l -> In c l ->
    ltb a a = false
    /\ (ltb a b = true -> ltb b c = true -> ltb a c = true)
    /\ (ltb a b = true -> ltb a c = true \/ ltb c b = true)
    /\ eqb a b = negb (ltb a b) && negb (ltb b a).

(** The same, decided by running [<] and [==] on every triple of values. *)
Definition orderedb (l : list T) : bool :=
  forallb (fun a =>
    negb (ltb a a)
    && forallb (fun b =>
         Bool.eqb (eqb a b) (negb (ltb a b) && negb (ltb b a))
         && forallb (fun c =>
              implb (ltb a b && ltb b c) (ltb a c)
              && implb (ltb a b) (ltb a c || ltb c b)) l) l) l.

(** [(a + b) / 2], the threshold between two values. *)
Definition midpoint (a b : T) : T := div (add a b) two.

(** The values of a column and the midpoints of any two of them. *)
Definition numbers (col : list T) : list T :=
  col ++ flat_map (fun a => map (midpoint a) col) col.

(** The midpoint of two values in strict order is not below the lower
    one and not above the upper one (the addition does not overflow). *)
Definition between (col : list T) : Prop :=
  forall a b, In a col -> In b col -> ltb a b = true ->
    not_above a (midpoint a b) /\ not_above (midpoint a b) b.

Definition betweenb (col : list T) : bool :=
  forallb (fun a =>
    forallb (fun b =>
      implb (ltb a b)
        (negb (ltb (midpoint a b) a) && negb (ltb b (midpoint a b)))) col) col.

(** A column on which the search computes with ordinary numbers. *)
Definition tame (col : list T) : Prop := ordered (numbers col) /\ between col.

Definition tameb (col : list T) : bool := orderedb (numbers col) && betweenb col.

End OrderNotions.

(* ------------------------------------------------------------------ *)
(** ** The order of binary64 *)




(* ------------------------------------------------------------------ *)
(** ** Concrete data *)

(** The exact decimal expansion of a binary64 value; it is what Python
    prints for a float with a short expansion, such as 2.5. *)
Fixpoint strip_zeros (s : string) : string :=
  match s with
  | EmptyString => EmptyString
  | String a s' =>
      match strip_zeros s' with
      | EmptyString => if Ascii.eqb a "0" then EmptyString else String a EmptyString
      | rest => String a rest
      end
  end.

Definition str_Z (z : Z) : string := NilEmpty.string_of_uint (N.to_uint (Z.to_N z)).

Definition exact_decimal (x : float) : string :=
  match Prim2SF x with
  | S754_zero s => (if s then "-0.0" else "0.0")%string
  | S754_infinity s => (if s then "-inf" else "inf")%string
  | S754_nan => "nan"%string
  | S754_finite s m e =>
      let sign := (if s then "-" else EmptyString)%string in
      match e with
      | Zneg k =>
          let den := (2 ^ Zpos k)%Z in
          let frac := ((Zpos m mod den) * 5 ^ Zpos k)%Z in
          let digits := str_Z frac in
          let padded := (times (Zpos k - len digits) "0" ++ digits)%string in
          let shown := match strip_zeros padded with
                       | EmptyString => "0"%string
                       | d => d
                       end in
          (sign ++ str_Z (Zpos m / den) ++ "." ++ shown)%string
      | _ => (sign ++ str_Z (Zpos m * 2 ^ e) ++ ".0")%string
      end
  end.

Module Scenario.

Open Scope float_scope.

(** The four-observation dataset. *)
Definition X4 : list (list float) := [[1.0]; [2.0]; [3.0]; [4.0]].
Definition y4 : list nat := [0; 0; 1; 1]%nat.
Definition tree4 : Node float := Split 0 2.5 0 (Leaf 0) (Leaf 1).
Definition self4 : DecisionTreeClassifier float := mkSelf 2 1 1 (Some tree4).

(** The same dataset over the rationals. *)
Definition X4_exact : list (list Q) := [[1 # 1]; [2 # 1]; [3 # 1]; [4 # 1]]%Q.

(** Two observations whose feature values are adjacent binary64 numbers,
    1 and 1 + 2^-52. *)
Definition X_adjacent : list (list float) := [[1.0]; [0x1.0000000000001p0]].
Definition y_adjacent : list nat := [0; 1]%nat.

End Scenario.

(* ------------------------------------------------------------------ *)
(** ** print_tree and the layout of a rendering *)

Section Printing.

Context {T : Type}.

Variable str_float : T -> string.

(** [print_tree]: the lines that it prints, in order. *)
Definition print_tree (self : DecisionTreeClassifier T) : result (list string) :=
  match root self with
  | None => Raise AttributeError
  | Some node => '(lines, _, _, _) <- _print_tree_aux str_float node ;; Ok lines
  end.

(** The label of a split, [f'f: {feature_index}, t: {threshold}']. *)
Definition split_label (f : nat) (t : T) : string :=
  ("f: " ++ str_nat f ++ ", t: " ++ str_float t)%string.

End Printing.

(** A rendering is a block: [h] lines of [w] characters each, with the
    root at a column [mid] of the block. *)
Definition block (b : list string * Z * Z * Z) : Prop :=
  let '(lines, w, h, mid) := b in
  Z.of_nat (length lines) = h
  /\ Forall (fun line => len line = w) lines
  /\ (0 <= mid < w)%Z.

(* ------------------------------------------------------------------ *)
(** ** Classes of a tree, and [<=] in exact arithmetic *)

(** The majority class of every node of the tree satisfies [P]. *)
Fixpoint all_classes {T : Type} (P : nat -> Prop) (tr : Tree T) : Prop :=
  match tr with
  | TLeaf c => P c
  | TSplit _ _ c l r => P c /\ all_classes P l /\ all_classes P r
  end.

(** In exact arithmetic [a <= b] is "not [b < a]". *)
Class ExactLe (T : Type) {num : Number T} : Prop := {
  leb_ltb : forall a b : T, leb a b = negb (ltb b a)
}.

Arguments ExactLe T {num}.

(* ------------------------------------------------------------------ *)
(** ** The rock-paper-scissors notebook *)

(** The functions of the other notebooks raise exceptions of their own:
    a computation returns a value or throws an exception of type [E]. *)
Inductive outcome (E A : Type) : Type :=
| Return (a : A)
| Throw (e : E).

Arguments Return {E A} a.
Arguments Throw {E A} e.

Definition and_then {E A B : Type} (r : outcome E A) (k : A -> outcome E B)
  : outcome E B :=
  match r with
  | Return a => k a
  | Throw e => Throw e
  end.

Notation "x <~ e ;; k" := (and_then e (fun x => k))
  (at level 61, e at next level, right associativity) : py_scope.

(** A [for] loop in [outcome]. *)
Fixpoint for_range {E A S : Type} (l : list A) (body : S -> A -> outcome E S) (s : S)
  : outcome E S :=
  match l with
  | [] => Return s
  | a :: l' => s' <~ body s a ;; for_range l' body s'
  end.

(** [a[i] = v] on a list. *)
Fixpoint set_nth {A : Type} (a : list A) (i : nat) (v : A) : list A :=
  match a, i with
  | [], _ => []
  | _ :: a', O => v :: a'
  | x :: a', S i' => x :: set_nth a' i' v
  end.

Module RPS.

Inductive error : Type :=
| KeyError      (* a key that a dict does not hold *)
| IndexError    (* an index out of range *)
| TypeError     (* a subscript of [None] *)
| ValueError.   (* raised by [np.random.choice] *)

(** [d[key]] for a dict with string keys. *)
Definition getkey {V : Type} (d : list (string * V)) (key : string)
  : outcome error V :=
  match find (fun kv => String.eqb (fst kv) key) d with
  | Some kv => Return (snd kv)
  | None => Throw KeyError
  end.

(** [x in l] for a list of strings. *)
Definition member (x : string) (l : list string) : bool :=
  existsb (String.eqb x) l.

(** [beats = {'R': ['S'], 'P': ['R'], 'S': ['P']}]. *)
Definition beats : list (string * list string) :=
  [("R", ["S"]); ("P", ["R"]); ("S", ["P"])]%string.

Definition compare (action_A action_B : string) : outcome error string :=
  beaten_by_A <~ getkey beats action_A ;;
  if member action_B beaten_by_A then Return "A"%string
  else
    beaten_by_B <~ getkey beats action_B ;;
    if member action_A beaten_by_B then Return "B"%string
    else Return "draw"%string.

(** [beats[predicted_state_B][0]], the action that [simulate] gives to
    player A against a predicted action of player B. *)
Definition reply (predicted_state_B : string) : outcome error string :=
  beaten <~ getkey beats predicted_state_B ;;
  match beaten with
  | [] => Throw IndexError
  | a :: _ => Return a
  end.

(** [s[0]] for a string. *)
Definition first_char (s : string) : outcome error string :=
  match s with
  | EmptyString => Throw IndexError
  | String c _ => Return (String c EmptyString)
  end.

Section Simulate.

Context {T : Type} {num : Number T}.

(** [np.random.choice(states, p=p)]: the random source is a parameter;
    its first argument numbers the draws of one simulation. *)
Variable choice : nat -> list string -> option (list T) -> outcome error string.

(** [m[i]] for a matrix. *)
Definition getrow (m : list (list T)) (i : nat) : outcome error (list T) :=
  match nth_error m i with
  | Some row => Return row
  | None => Throw IndexError
  end.

(** [m[i][j] += 1]. *)
Definition incr_cell (m : list (list T)) (i j : nat) : outcome error (list (list T)) :=
  row <~ getrow m i ;;
  match nth_error row j with
  | Some v => Return (set_nth m i (set_nth row j (add v one)))
  | None => Throw IndexError
  end.

(** The variables of the loop of [simulate], the number of draws made so
    far and the lines printed so far. *)
Record Loop : Type := mkLoop {
  outcomes : list string;
  state_A : string;
  state_B : string;
  counts_B : list (list T);
  prev_state_B_index : option nat;
  draws : nat;
  printed : list string
}.

Definition tab : string := String (ascii_of_nat 9) EmptyString.

Definition game_line (game : nat) (a b winner : string) : string :=
  ("Game: " ++ str_nat game ++ " " ++ tab ++ "Action A: " ++ a
   ++ tab ++ "Action B: " ++ b ++ tab ++ "Winner: " ++ winner)%string.

(** One pass of the loop, for [game]. *)
Definition play (states : list string) (states_to_indices : list (string * nat))
    (transition_prob_A : option (list (list T))) (transition_prob_B : list (list T))
    (learn verbose : bool) (st : Loop) (game : nat) : outcome error Loop :=
  winner <~ compare (state_A st) (state_B st) ;;
  let outcomes' := outcomes st ++ [winner] in
  let printed' :=
    if verbose
    then printed st ++ [game_line game (state_A st) (state_B st) winner]
    else printed st in
  state_A_index <~ getkey states_to_indices (state_A st) ;;
  state_B_index <~ getkey states_to_indices (state_B st) ;;
  st1 <~ (match learn, prev_state_B_index st with
          | true, None =>
              a <~ choice (draws st) states None ;;
              a0 <~ first_char a ;;
              row <~ getrow transition_prob_B state_B_index ;;
              b <~ choice (draws st + 1) states (Some row) ;;
              Return (mkLoop outcomes' a0 b (counts_B st) (Some state_B_index)
                        (draws st + 2) printed')
          | _, _ =>
              Return (mkLoop outcomes' (state_A st) (state_B st) (counts_B st)
                        (prev_state_B_index st) (draws st) printed')
          end) ;;
  match learn, prev_state_B_index st1 with
  | true, Some prev =>
      counts <~ incr_cell (counts_B st1) prev state_B_index ;;
      counts_row <~ getrow counts prev ;;
      let total := np_sum counts_row in
      let states_distribution_B := map (fun c => div c total) counts_row in
      predicted_state_B <~ choice (draws st1) states (Some states_distribution_B) ;;
      a <~ reply predicted_state_B ;;
      row <~ getrow transition_prob_B state_B_index ;;
      b <~ choice (draws st1 + 1) states (Some row) ;;
      Return (mkLoop outcomes' a b counts (Some state_B_index) (draws st1 + 2) printed')
  | _, _ =>
      match transition_prob_A with
      | None => Throw TypeError
      | Some prob_A =>
          row_A <~ getrow prob_A state_A_index ;;
          a <~ choice (draws st1) states (Some row_A) ;;
          row_B <~ getrow transition_prob_B state_B_index ;;
          b <~ choice (draws st1 + 1) states (Some row_B) ;;
          Return (mkLoop outcomes' a b (counts_B st1) (prev_state_B_index st1)
                    (draws st1 + 2) printed')
      end
  end.

(** [simulate]: the value it returns, [outcomes] or
    [(outcomes, counts_B)], and the lines it prints. *)
Definition simulate (states : list string) (states_to_indices : list (string * nat))
    (transition_prob_A : option (list (list T))) (transition_prob_B : list (list T))
    (init_state_A init_state_B : string) (learn : bool) (n_iter : nat) (verbose : bool)
  : outcome error (list string * option (list (list T)) * list string) :=
  let zeros := repeat (repeat zero 3) 3 in
  st <~ for_range (seq 1 n_iter)
         (play states states_to_indices transition_prob_A transition_prob_B
            learn verbose)
         (mkLoop [] init_state_A init_state_B zeros None 0 []) ;;
  Return (outcomes st, if learn then Some (counts_B st) else None, printed st).

(** [0 + 1 + ... + 1], the value of a cell after [k] increments. *)
Definition counted (k : nat) : T := Nat.iter k (fun c => add c one) zero.

(** The matrix [m] holds the cells of a 3 x 3 matrix [C] of numbers of
    increments. *)
Definition counts_of (C : list (list nat)) (m : list (list T)) : Prop :=
  m = map (map counted) C
  /\ length C = 3
  /\ Forall (fun row => length row = 3) C.

Definition total (C : list (list nat)) : nat := list_sum (map (@list_sum) C).

(** What holds of the variables of the loop after [g] games. *)
Definition after_games (learn verbose : bool) (g : nat) (st : Loop) : Prop :=
  length (outcomes st) = g
  /\ Forall (fun w => In w ["A"; "B"; "draw"]%string) (outcomes st)
  /\ length (printed st) = (if verbose then g else 0)
  /\ exists C, counts_of C (counts_B st) /\ total C = if learn then g else 0.

(** The variables of the loop from which the next game can be played. *)
Definition playable (st : Loop) : Prop :=
  member (state_A st) ["R"; "P"; "S"]%string = true
  /\ member (state_B st) ["R"; "P"; "S"]%string = true
  /\ (exists C, counts_of C (counts_B st))
  /\ forall p, prev_state_B_index st = Some p -> p < 3.

End Simulate.

(** A source of draws for concrete runs: the draws go through [states]
    in turn. *)
Definition in_turn {T : Type} (i : nat) (states : list string) (p : option (list T))
  : outcome error string :=
  match nth_error states (i mod length states) with
  | Some a => Return a
  | None => Throw ValueError
  end.

(** The inputs of the notebook's run with learning. *)
Definition states : list string := ["R"; "P"; "S"]%string.

Definition states_to_indices : list (string * nat) :=
  [("R", 0); ("P", 1); ("S", 2)]%string.

Definition transition_prob_B : list (list float) :=
  [[0.1; 0.1; 0.8]; [0.7; 0.05; 0.25]; [0.1; 0.9; 0.0]]%float.

End RPS.

(* ------------------------------------------------------------------ *)
(** ** The data of the logistic-regression notebook *)

Module Mnist.

Section Preprocess.

Context {T : Type} {num : Number T}.

(** [np.isin(labels, values)] for a tuple of integers, at one label and
    over an array. *)
Definition isin1 (values : list Z) (label : T) : bool :=
  existsb (fun v => eqb label (of_Z v)) values.

Definition isin (labels : list T) (values : list Z) : list bool :=
  map (isin1 values) labels.

(** [a[mask] = v] for a mask as long as [a]. *)
Definition assign_where (a : list T) (mask : list bool) (v : T) : list T :=
  map (fun xb : T * bool => if snd xb then v else fst xb) (combine a mask).

(** The two assignments of [preprocess_data] at one label. *)
Definition relabel (label : T) : T :=
  let label := if isin1 [2; 3; 5; 7]%Z label then of_Z 1 else label in
  if isin1 [4; 6; 8; 9]%Z label then of_Z 0 else label.

(** [np.random.permutation(n)]: the random source is a parameter. *)
Variable permutation : nat -> list nat.

Definition preprocess_data (images : list (list T)) (labels : list T)
  : result (list (list T) * list T) :=
  let mask := map negb (isin labels [0; 1]%Z) in
  let labels := select mask labels in
  images <- getmask images mask ;;
  let labels := assign_where labels (isin labels [2; 3; 5; 7]%Z) (of_Z 1) in
  let labels := assign_where labels (isin labels [4; 6; 8; 9]%Z) (of_Z 0) in
  let shuffled_index := permutation (length labels) in
  images <- take images shuffled_index ;;
  labels <- take labels shuffled_index ;;
  Ok (images, labels).

End Preprocess.

(** The digits that [preprocess_data] puts in the positive class. *)
Definition positive (digit : Z) : bool := existsb (Z.eqb digit) [2; 3; 5; 7]%Z.

(** The label that [preprocess_data] gives to an image of [digit]. *)
Definition binary (digit : Z) : Z := if positive digit then 1%Z else 0%Z.

Definition is_digit (d : Z) : Prop := (0 <= d <= 9)%Z.

End Mnist.

(* ------------------------------------------------------------------ *)
(** * Properties *)

(** ** Exceptions and loops *)

Lemma bind_Ok {A B : Type} (e : result A) (k : A -> result B) (b : B) :
  bind e k = Ok b -> exists a, e = Ok a /\ k a = Ok b.
Proof.
  destruct e as [a|x]; simpl; intros H; [eauto | discriminate].
Qed.

Ltac inv_bind H :=
  let a := fresh "a" in
  let E := fresh "E" in
  apply bind_Ok in H; destruct H as (a & E & H).

(** A property of the loop's variables that every pass preserves holds
    when the loop ends. *)
Lemma for_each_invariant {A S : Type} (P : S -> Prop) (body : S -> A -> result S) :
  forall (l : list A) (s r : S),
    P s ->
    (forall s a s', In a l -> P s -> body s a = Ok s' -> P s') ->
    for_each l body s = Ok r -> P r.
Proof.
  induction l as [|a l IH]; simpl; intros s r Hs Hbody H.
  - injection H as <-. exact Hs.
  - inv_bind H. eapply IH; [ | | exact H]; eauto.
Qed.

Section BuilderShape.

Context {T : Type} {num : Number T}.

(** *** The result of the search is a pair of two [None] or of a feature
    below [n_features] and a threshold. *)

Lemma midpoint_step_shape (k n f : nat) values labels lc rc (b : Best T) i lc' rc' b' :
  f < k ->
  best_shape k b ->
  midpoint_step n f values labels (lc, rc, b) i = Ok (lc', rc', b') ->
  best_shape k b'.
Proof.
  intros Hf Hb H. unfold midpoint_step in H.
  repeat inv_bind H.
  destruct (eqb _ _); [injection H as _ _ <-; exact Hb|].
  destruct (ltb _ _); injection H as _ _ <-; [|exact Hb].
  right. simpl. eauto.
Qed.

Lemma feature_step_shape (self : DecisionTreeClassifier T) X y counts b f b' :
  f < n_features self ->
  best_shape (n_features self) b ->
  feature_step self X y counts b f = Ok b' ->
  best_shape (n_features self) b'.
Proof.
  intros Hf Hb H. unfold feature_step in H.
  repeat inv_bind H. destruct a1 as [[lc rc] b1]. injection H as <-.
  revert E1.
  apply (for_each_invariant (fun st => best_shape (n_features self) (snd st))); [exact Hb|].
  intros [[lc0 rc0] b0] i [[lc1 rc1] b2] _ H0 H1. simpl in *.
  eapply midpoint_step_shape; eauto.
Qed.

Lemma best_node_split_shape (self : DecisionTreeClassifier T) X y bf bt :
  best_node_split self X y = Ok (bf, bt) ->
  (bf = None /\ bt = None)
  \/ (exists f t, bf = Some f /\ bt = Some t /\ f < n_features self).
Proof.
  unfold best_node_split. intros H. inv_bind H. injection H as <- <-.
  revert E.
  apply (for_each_invariant (best_shape (n_features self))).
  - left. split; reflexivity.
  - intros s f s' Hin Hs Hstep. apply in_seq in Hin.
    eapply feature_step_shape; eauto. lia.
Qed.

(** On no observation the search finds no split. *)
Lemma best_node_split_nil (self : DecisionTreeClassifier T) (y : list nat) :
  best_node_split self [] y = Ok (None, None).
Proof.
  unfold best_node_split.
  assert (H : forall l best,
             for_each l (feature_step self [] y (class_counts (n_classes self) y)) best
             = Ok best).
  { induction l as [|f l IH]; intros best; simpl; [reflexivity|]. apply IH. }
  now rewrite H.
Qed.

(** *** One call of [build_tree] *)

(** What a call that returns a node has done: it either made a leaf, or
    found a split and built both children on the two subsets. *)
Lemma build_tree_rec_inv fuel (self : DecisionTreeClassifier T) X y depth node :
  build_tree_rec fuel self X y depth = Some (Ok node) ->
  let majority := argmax (class_counts (n_classes self) y) in
  (node = Leaf majority
   /\ ((depth <? max_depth self)%Z = false
       \/ best_node_split self X y = Ok (None, None)))
  \/ (exists fuel' f t l r,
        fuel = S fuel'
        /\ (depth <? max_depth self)%Z = true
        /\ best_node_split self X y = Ok (Some f, Some t)
        /\ f < n_features self
        /\ length y = length X
        /\ build_tree_rec fuel' self (left_subset X f t X) (left_subset X f t y)
             (depth + 1) = Some (Ok l)
        /\ build_tree_rec fuel' self (right_subset X f t X) (right_subset X f t y)
             (depth + 1) = Some (Ok r)
        /\ node = Split f t majority l r).
Proof.
  intros H majority.
  assert (Hcases :
    match fuel with
    | O => build_tree_rec 0 self X y depth
    | S k => build_tree_rec (S k) self X y depth
    end = Some (Ok node)) by (destruct fuel; exact H).
  clear H. rename Hcases into H.
  destruct (depth <? max_depth self)%Z eqn:Hd.
  2:{ left. destruct fuel; simpl in H; rewrite Hd in H;
      injection H as <-; auto. }
  destruct (best_node_split self X y) as [[bf bt]|e] eqn:Hs.
  2:{ destruct fuel; simpl in H; rewrite Hd, Hs in H; discriminate. }
  destruct (best_node_split_shape _ _ _ Hs) as [[-> ->]|(f & t & -> & -> & Hf)].
  { left. destruct fuel; simpl in H; rewrite Hd, Hs in H;
    injection H as <-; auto. }
  right. destruct fuel as [|fuel']; simpl in H; rewrite Hd, Hs in H; [discriminate|].
  unfold getmask in H.
  assert (HX : length (left_mask X f t) = length X)
    by (unfold left_mask, column; now rewrite !length_map).
  assert (HX' : length (right_mask X f t) = length X)
    by (unfold right_mask, column; now rewrite !length_map).
  assert (Hne : Nat.eqb (length X) 0 = false).
  { destruct X; [|reflexivity]. rewrite best_node_split_nil in Hs. discriminate. }
  rewrite HX, HX', Hne, !orb_false_r, Nat.eqb_refl in H.
  destruct (Nat.eqb (length X) (length y)) eqn:Hy; [|discriminate].
  apply Nat.eqb_eq in Hy.
  destruct (build_tree_rec fuel' self (select (left_mask X f t) X) _ _)
    as [[l|e]|] eqn:Hl; try discriminate.
  destruct (build_tree_rec fuel' self (select (right_mask X f t) X) _ _)
    as [[r|e]|] eqn:Hr; try discriminate.
  injection H as <-.
  exists fuel', f, t, l, r. repeat split; auto.
Qed.

(** The recursion never needs more fuel than [max_depth - depth]. *)
Lemma build_tree_rec_fuel fuel (self : DecisionTreeClassifier T) :
  forall X y depth,
    (max_depth self - depth <= Z.of_nat fuel)%Z ->
    build_tree_rec fuel self X y depth <> None.
Proof.
  induction fuel as [|fuel IH]; intros X y depth Hfuel.
  - simpl. destruct (Z.ltb_spec depth (max_depth self)); [lia | discriminate].
  - simpl. destruct (depth <? max_depth self)%Z; [|discriminate].
    destruct (best_node_split self X y) as [[[f|] [t|]]|e]; try discriminate.
    destruct (getmask X (left_mask X f t)) as [Xl|e]; [|discriminate].
    destruct (getmask y (left_mask X f t)) as [yl|e]; [|discriminate].
    specialize (IH Xl yl (depth + 1)%Z) as Hl.
    destruct (build_tree_rec fuel self Xl yl (depth + 1)) as [[l|e]|];
      [ | discriminate | apply Hl; lia].
    destruct (getmask X (right_mask X f t)) as [Xr|e]; [|discriminate].
    destruct (getmask y (right_mask X f t)) as [yr|e]; [|discriminate].
    specialize (IH Xr yr (depth + 1)%Z) as Hr.
    destruct (build_tree_rec fuel self Xr yr (depth + 1)) as [[r|e]|];
      [ discriminate | discriminate | apply Hr; lia].
Qed.

(** More fuel does not change what a call returns. *)
Lemma build_tree_rec_more_fuel fuel (self : DecisionTreeClassifier T) :
  forall X y depth r,
    build_tree_rec fuel self X y depth = Some r ->
    forall fuel', fuel <= fuel' -> build_tree_rec fuel' self X y depth = Some r.
Proof.
  induction fuel as [|fuel IH]; intros X y depth r H fuel' Hle.
  - simpl in H. destruct fuel' as [|fuel']; [exact H|]. simpl.
    destruct (depth <? max_depth self)%Z; [|exact H].
    destruct (best_node_split self X y) as [[[f|] [t|]]|e];
      try exact H; discriminate.
  - destruct fuel' as [|fuel']; [lia|]. simpl in H |- *.
    destruct (depth <? max_depth self)%Z; [|exact H].
    destruct (best_node_split self X y) as [[[f|] [t|]]|e]; try exact H.
    destruct (getmask X (left_mask X f t)) as [Xl|e]; [|exact H].
    destruct (getmask y (left_mask X f t)) as [yl|e]; [|exact H].
    destruct (build_tree_rec fuel self Xl yl (depth + 1)) as [rl|] eqn:Hl;
      [|discriminate].
    rewrite (IH _ _ _ _ Hl fuel') by lia.
    destruct rl as [l|e]; [|exact H].
    destruct (getmask X (right_mask X f t)) as [Xr|e]; [|exact H].
    destruct (getmask y (right_mask X f t)) as [yr|e]; [|exact H].
    destruct (build_tree_rec fuel self Xr yr (depth + 1)) as [rr|] eqn:Hr;
      [|discriminate].
    rewrite (IH _ _ _ _ Hr fuel') by lia.
    exact H.
Qed.

Lemma build_tree_returns (self : DecisionTreeClassifier T) X y depth :
  build_tree self X y depth <> None.
Proof.
  unfold build_tree. apply build_tree_rec_fuel. lia.
Qed.

(** A node that [build_tree] returns is a tree of Leaf and Split nodes,
    over features below [n_features], no deeper than the depth that is
    left. *)
Lemma build_tree_rec_tree fuel (self : DecisionTreeClassifier T) :
  forall X y depth node,
    build_tree_rec fuel self X y depth = Some (Ok node) ->
    exists tr,
      node = node_of tr
      /\ features_below (n_features self) tr
      /\ (Z.of_nat (height tr) <= Z.max 0 (max_depth self - depth))%Z.
Proof.
  induction fuel as [|fuel IH]; intros X y depth node H;
    apply build_tree_rec_inv in H;
    destruct H as [[-> _]|(fuel' & f & t & l & r & Hfuel & Hd & _ & Hf & _ & Hl & Hr & ->)];
    try (exists (TLeaf (argmax (class_counts (n_classes self) y)));
         simpl; split; [reflexivity | split; [exact I | lia]]);
    try discriminate.
  injection Hfuel as <-.
  apply IH in Hl. apply IH in Hr.
  destruct Hl as (tl & -> & Fl & Hl). destruct Hr as (tr & -> & Fr & Hr).
  exists (TSplit f t (argmax (class_counts (n_classes self) y)) tl tr).
  apply Z.ltb_lt in Hd.
  simpl. repeat split; auto. lia.
Qed.

End BuilderShape.

(** ** The concrete scenario *)

(** C2: on X = [[1.0],[2.0],[3.0],[4.0]], y = [0,0,1,1] with max_depth = 1,
    [fit] builds a Split on feature 0 at threshold 2.5 whose children are
    the Leaf of class 0 and the Leaf of class 1, and [predict] on
    [[1.5],[3.5]] is [0, 1]. *)
Theorem scenario_fit_predict :
  fit Scenario.X4 Scenario.y4 1 = Some (Ok Scenario.self4)
  /\ root Scenario.self4 = Some (Split 0 2.5%float 0 (Leaf 0) (Leaf 1))
  /\ predict Scenario.self4 [[1.5%float]; [3.5%float]] = Ok [0; 1].
Proof.
  repeat split; vm_compute; reflexivity.
Qed.

(** ** Rendering *)

Section Rendering.

Variable str_float : float -> string.

Lemma render_leaf (c : nat) :
  _print_tree_aux str_float (Leaf c)
  = Ok ([("c: " ++ str_nat c)%string], len ("c: " ++ str_nat c),
        1%Z, (len ("c: " ++ str_nat c) / 2)%Z).
Proof. reflexivity. Qed.

(** C8: a Leaf renders as the one line "c: <majority_class>", of width the
    length of the line, height 1 and root offset width // 2; the tree of
    the scenario renders as three lines, the first holding the label
    "f: 0, t: 2.5", the second holding '/' at the root offset of the left
    child and '\' at the root offset of the right child shifted by the
    left width and the label width. *)
Theorem render_leaf_and_scenario :
  str_float 2.5%float = "2.5"%string ->
  (forall c,
      _print_tree_aux str_float (Leaf c)
      = Ok ([("c: " ++ str_nat c)%string], len ("c: " ++ str_nat c),
            1%Z, (len ("c: " ++ str_nat c) / 2)%Z))
  /\ exists first_line second_line third_line l n p x r m q y,
      _print_tree_aux str_float Scenario.tree4
      = Ok ([first_line; second_line; third_line], 20%Z, 3%Z, 10%Z)
      /\ _print_tree_aux str_float (Leaf 0) = Ok (l, n, p, x)
      /\ _print_tree_aux str_float (Leaf 1) = Ok (r, m, q, y)
      /\ first_line = "   _f: 0, t: 2.5__  "%string
      /\ index 0 "f: 0, t: 2.5" first_line = Some 4
      /\ String.get (Z.to_nat x) second_line = Some "/"%char
      /\ String.get (Z.to_nat (n + len "f: 0, t: 2.5" + y)) second_line
         = Some "\"%char
      /\ third_line = "c: 0            c: 1"%string.
Proof.
  intros Hstr. split; [intros c; reflexivity|].
  exists "   _f: 0, t: 2.5__  "%string, "  /               \ "%string,
    "c: 0            c: 1"%string.
  exists ["c: 0"%string], 4%Z, 1%Z, 2%Z, ["c: 1"%string], 4%Z, 1%Z, 2%Z.
  split.
  - unfold Scenario.tree4, Split, Leaf, _print_tree_aux, bind, str_field.
    rewrite Hstr. vm_compute. reflexivity.
  - repeat split; reflexivity.
Qed.

End Rendering.

Lemma render_leaf_and_scenario_witness :
  (forall c,
      _print_tree_aux exact_decimal (Leaf (T:=float) c)
      = Ok ([("c: " ++ str_nat c)%string], len ("c: " ++ str_nat c),
            1%Z, (len ("c: " ++ str_nat c) / 2)%Z))
  /\ exists first_line second_line third_line l n p x r m q y,
      _print_tree_aux exact_decimal Scenario.tree4
      = Ok ([first_line; second_line; third_line], 20%Z, 3%Z, 10%Z)
      /\ _print_tree_aux exact_decimal (Leaf 0) = Ok (l, n, p, x)
      /\ _print_tree_aux exact_decimal (Leaf 1) = Ok (r, m, q, y)
      /\ first_line = "   _f: 0, t: 2.5__  "%string
      /\ index 0 "f: 0, t: 2.5" first_line = Some 4
      /\ String.get (Z.to_nat x) second_line = Some "/"%char
      /\ String.get (Z.to_nat (n + len "f: 0, t: 2.5" + y)) second_line
         = Some "\"%char
      /\ third_line = "c: 0            c: 1"%string.
Proof.
  apply (render_leaf_and_scenario exact_decimal).
  vm_compute. reflexivity.
Defined.

(* ------------------------------------------------------------------ *)
(** ** Arrays and counts *)

Lemma getitem_nth {A : Type} (a : list A) (i : nat) (d : A) :
  i < length a -> getitem a i = Ok (nth i a d).
Proof.
  intros Hi. unfold getitem. now rewrite (nth_error_nth' a d Hi).
Qed.

Lemma getitem_out {A : Type} (a : list A) (i : nat) :
  length a <= i -> getitem a i = Raise IndexError.
Proof.
  intros Hi. unfold getitem.
  destruct (nth_error a i) eqn:E; [|reflexivity].
  assert (nth_error a i <> None) as H by congruence.
  apply nth_error_Some in H. lia.
Qed.

Lemma take_nth {A : Type} (a : list A) (d : A) (idx : list nat) :
  Forall (fun i => i < length a) idx ->
  take a idx = Ok (map (fun i => nth i a d) idx).
Proof.
  unfold take. induction 1 as [|i idx Hi _ IH]; simpl; [reflexivity|].
  now rewrite (getitem_nth a d Hi), IH.
Qed.

Lemma take_out {A : Type} (a : list A) (idx : list nat) (i : nat) :
  In i idx -> length a <= i -> take a idx = Raise IndexError.
Proof.
  unfold take. induction idx as [|j idx IH]; simpl; intros Hin Hi; [tauto|].
  destruct (getitem a j) as [x|e] eqn:Ej; simpl.
  - destruct Hin as [->|Hin]; [rewrite getitem_out in Ej by exact Hi; discriminate|].
    now rewrite IH.
  - unfold getitem in Ej. destruct (nth_error a j); [discriminate|congruence].
Qed.

Lemma map_nth_seq {A : Type} (l : list A) (d : A) :
  map (fun i => nth i l d) (seq 0 (length l)) = l.
Proof.
  apply nth_ext with (d := d) (d' := d).
  - now rewrite length_map, length_seq.
  - intros i Hi. rewrite length_map, length_seq in Hi.
    rewrite (nth_indep _ d (nth 0 l d)) by (now rewrite length_map, length_seq).
    rewrite (map_nth (fun i => nth i l d) (seq 0 (length l)) 0 i).
    now rewrite seq_nth.
Qed.

Lemma firstn_snoc {A : Type} (l : list A) (d : A) (j : nat) :
  j < length l -> firstn (S j) l = firstn j l ++ [nth j l d].
Proof.
  revert j. induction l as [|x l IH]; simpl; intros j Hj; [lia|].
  destruct j as [|j]; [reflexivity|].
  simpl. f_equal. apply IH. lia.
Qed.

Lemma skipn_nth_cons {A : Type} (l : list A) (d : A) (j : nat) :
  j < length l -> skipn j l = nth j l d :: skipn (S j) l.
Proof.
  revert j. induction l as [|x l IH]; simpl; intros j Hj; [lia|].
  destruct j as [|j]; [reflexivity|].
  apply IH. lia.
Qed.

Lemma select_length_le {A : Type} (mask : list bool) (a : list A) :
  length (select mask a) <= length a.
Proof.
  revert a. induction mask as [|b mask IH]; intros [|x a]; simpl; try lia.
  specialize (IH a). destruct b; simpl; lia.
Qed.

Lemma select_In {A : Type} (mask : list bool) (a : list A) (x : A) :
  In x (select mask a) -> In x a.
Proof.
  revert a. induction mask as [|b mask IH]; intros [|z a]; simpl; try tauto.
  destruct b; simpl; intros H; [destruct H as [H|H]|]; auto.
Qed.

(** Selecting by one mask keeps two arrays of one length aligned. *)
Lemma select_aligned {A B : Type} (mask : list bool) (a : list A) (b : list B) :
  length a = length b -> length (select mask a) = length (select mask b).
Proof.
  revert a b. induction mask as [|m mask IH]; intros [|x a] [|z b]; simpl;
    try discriminate; try reflexivity.
  intros H. injection H as H. destruct m; simpl; auto.
Qed.

(** Incrementing one cell of an array that is given cell by cell. *)
Lemma bump_map_seq (g : nat -> Z) (d : Z) :
  forall k s c,
    c < k ->
    bump (map g (seq s k)) c d
    = Ok (map (fun j => if Nat.eqb j (s + c) then (g j + d)%Z else g j) (seq s k)).
Proof.
  induction k as [|k IH]; intros s c Hc; [lia|].
  simpl. destruct c as [|c].
  - rewrite Nat.add_0_r, Nat.eqb_refl. do 2 f_equal.
    apply map_ext_in. intros j Hj. apply in_seq in Hj.
    destruct (Nat.eqb_spec j s); [lia | reflexivity].
  - rewrite (IH (S s) c) by lia. simpl.
    destruct (Nat.eqb_spec s (s + S c)); [lia|].
    do 2 f_equal. apply map_ext. intros j.
    now rewrite Nat.add_succ_r.
Qed.

Lemma count_class_snoc (l : list nat) (c j : nat) :
  count_class (l ++ [c]) j
  = if Nat.eqb j c then (count_class l j + 1)%Z else count_class l j.
Proof.
  unfold count_class. rewrite count_occ_app. simpl.
  destruct (Nat.eq_dec c j) as [->|Hn].
  - rewrite Nat.eqb_refl. lia.
  - destruct (Nat.eqb_spec j c); [congruence | lia].
Qed.

Lemma count_class_cons (l : list nat) (c j : nat) :
  count_class l j
  = if Nat.eqb j c then (count_class (c :: l) j + -1)%Z else count_class (c :: l) j.
Proof.
  unfold count_class. simpl.
  destruct (Nat.eq_dec c j) as [->|Hn].
  - rewrite Nat.eqb_refl. lia.
  - destruct (Nat.eqb_spec j c); [congruence | lia].
Qed.

(** Moving one observation of class [c] into the left counts, and out of
    the right counts. *)
Lemma bump_counts_in (k : nat) (l : list nat) (c : nat) :
  c < k -> bump (class_counts k l) c 1 = Ok (class_counts k (l ++ [c])).
Proof.
  intros Hc. unfold class_counts. rewrite bump_map_seq by exact Hc.
  f_equal. apply map_ext. intros j. simpl. now rewrite count_class_snoc.
Qed.

Lemma bump_counts_out (k : nat) (l : list nat) (c : nat) :
  c < k -> bump (class_counts k (c :: l)) c (-1) = Ok (class_counts k l).
Proof.
  intros Hc. unfold class_counts. rewrite bump_map_seq by exact Hc.
  f_equal. apply map_ext. intros j. simpl. now rewrite <- count_class_cons.
Qed.

Lemma class_counts_nil (k : nat) : class_counts k [] = repeat 0%Z k.
Proof.
  unfold class_counts. generalize 0 at 1. induction k as [|k IH]; intros s;
    simpl; [reflexivity|]. now rewrite IH.
Qed.

Lemma class_counts_perm (k : nat) (l l' : list nat) :
  Permutation l l' -> class_counts k l = class_counts k l'.
Proof.
  intros H. unfold class_counts, count_class. apply map_ext. intros c.
  f_equal. now apply (Permutation_count_occ Nat.eq_dec).
Qed.

(* ------------------------------------------------------------------ *)
(** ** The split search computes the first best candidate *)

Lemma for_each_fold {A S : Type} (body : S -> A -> result S) (g : S -> A -> S) :
  forall (l : list A) (s : S),
    (forall s a, In a l -> body s a = Ok (g s a)) ->
    for_each l body s = Ok (fold_left g l s).
Proof.
  induction l as [|a l IH]; simpl; intros s H; [reflexivity|].
  rewrite H by auto. simpl. apply IH. auto.
Qed.

Lemma fold_left_flat_map {A B S : Type} (g : S -> B -> S) (h : A -> list B) :
  forall (l : list A) (s : S),
    fold_left g (flat_map h l) s = fold_left (fun s a => fold_left g (h a) s) l s.
Proof.
  induction l as [|a l IH]; simpl; intros s; [reflexivity|].
  now rewrite fold_left_app, IH.
Qed.

Section Search.

Context {T : Type} {num : Number T}.

(** *** [argsort] returns a permutation of the indices *)

Lemma insert_index_perm (keys : list T) (i : nat) (l : list nat) :
  Permutation (insert_index keys i l) (i :: l).
Proof.
  induction l as [|j l IH]; simpl; [reflexivity|].
  destruct (sorts_before _ _); [|reflexivity].
  rewrite IH. apply perm_swap.
Qed.

Lemma argsort_perm (keys : list T) :
  Permutation (argsort keys) (seq 0 (length keys)).
Proof.
  unfold argsort. induction (seq 0 (length keys)) as [|i l IH]; simpl; [reflexivity|].
  rewrite insert_index_perm. now constructor.
Qed.

Lemma argsort_length (keys : list T) : length (argsort keys) = length keys.
Proof.
  rewrite (Permutation_length (argsort_perm keys)). apply length_seq.
Qed.

Lemma argsort_bound (keys : list T) :
  Forall (fun i => i < length keys) (argsort keys).
Proof.
  apply Forall_forall. intros i Hi.
  apply (Permutation_in _ (argsort_perm keys)) in Hi.
  apply in_seq in Hi. lia.
Qed.

Lemma column_length (X : list (list T)) (f : nat) : length (column X f) = length X.
Proof. unfold column. apply length_map. Qed.

Lemma sorted_values_length (X : list (list T)) (f : nat) :
  length (sorted_values X f) = length X.
Proof.
  unfold sorted_values. now rewrite length_map, argsort_length, column_length.
Qed.

Lemma sorted_labels_length (X : list (list T)) (y : list nat) (f : nat) :
  length (sorted_labels X y f) = length X.
Proof.
  unfold sorted_labels. now rewrite length_map, argsort_length, column_length.
Qed.

(** The sorted labels are the labels, reordered. *)
Lemma sorted_labels_perm (X : list (list T)) (y : list nat) (f : nat) :
  length y = length X -> Permutation (sorted_labels X y f) y.
Proof.
  intros Hy. unfold sorted_labels.
  rewrite (Permutation_map _ (argsort_perm (column X f))).
  rewrite column_length, <- Hy. now rewrite map_nth_seq.
Qed.

(** *** The inner loop *)

Section InnerLoop.

Variables (k n f : nat) (values : list T) (labels : list nat).
Hypothesis values_length : length values = n.
Hypothesis labels_length : length labels = n.
Hypothesis labels_below : Forall (fun c => c < k) labels.

Lemma midpoint_step_spec (j : nat) (b : Best T) :
  S j < n ->
  midpoint_step n f values labels
    (class_counts k (firstn j labels), class_counts k (skipn j labels), b) (S j)
  = Ok (class_counts k (firstn (S j) labels), class_counts k (skipn (S j) labels),
        fold_left pick (candidate_at k f values labels (S j)) b).
Proof.
  intros Hj. unfold midpoint_step, candidate_at.
  replace (S j - 1) with j by lia.
  rewrite (getitem_nth labels 0) by lia. simpl bind.
  assert (Hc : nth j labels 0 < k).
  { rewrite Forall_forall in labels_below. apply labels_below, nth_In. lia. }
  rewrite (firstn_snoc labels 0) by lia.
  rewrite bump_counts_in by exact Hc. simpl bind.
  rewrite (skipn_nth_cons labels 0) at 1 by lia.
  rewrite bump_counts_out by exact Hc. simpl bind.
  rewrite (getitem_nth values zero), (getitem_nth values zero) by lia. simpl bind.
  destruct (eqb (nth (S j) values zero) (nth j values zero)); [reflexivity|].
  simpl fold_left. unfold pick, cut_gini. simpl.
  rewrite labels_length, <- (firstn_snoc labels 0) by lia.
  destruct (ltb _ _); reflexivity.
Qed.

Lemma midpoint_loop_spec :
  forall m j (b : Best T),
    j + m <= n - 1 ->
    for_each (seq (S j) m) (midpoint_step n f values labels)
      (class_counts k (firstn j labels), class_counts k (skipn j labels), b)
    = Ok (class_counts k (firstn (j + m) labels),
          class_counts k (skipn (j + m) labels),
          fold_left pick (flat_map (candidate_at k f values labels) (seq (S j) m)) b).
Proof.
  induction m as [|m IH]; intros j b Hm.
  - simpl. now rewrite Nat.add_0_r.
  - cbn [seq for_each flat_map]. rewrite midpoint_step_spec by lia.
    cbn [bind]. rewrite IH by lia. rewrite fold_left_app.
    now replace (S j + m) with (j + S m) by lia.
Qed.

End InnerLoop.

Lemma feature_step_spec (self : DecisionTreeClassifier T) X y (b : Best T) f :
  length y = length X ->
  Forall (fun c => c < n_classes self) y ->
  feature_step self X y (class_counts (n_classes self) y) b f
  = Ok (fold_left pick (feature_candidates (n_classes self) X y f) b).
Proof.
  intros Hy Hk. unfold feature_step, shape0.
  rewrite (take_nth (column X f) zero) by apply argsort_bound.
  cbn [bind].
  rewrite (take_nth y 0)
    by (rewrite Hy, <- (column_length X f); apply argsort_bound).
  cbn [bind]. fold (sorted_values X f). fold (sorted_labels X y f).
  rewrite <- class_counts_nil.
  rewrite <- (class_counts_perm _ (@sorted_labels_perm X y f Hy)).
  assert (Hbelow : Forall (fun c => c < n_classes self) (sorted_labels X y f)).
  { apply Forall_forall. intros c Hc. rewrite Forall_forall in Hk. apply Hk.
    now apply (Permutation_in _ (@sorted_labels_perm X y f Hy)). }
  pose proof (@midpoint_loop_spec (n_classes self) (length X) f
                (sorted_values X f) (sorted_labels X y f)
                (sorted_values_length X f) (sorted_labels_length X y f) Hbelow
                (length X - 1) 0 b) as Hloop.
  simpl firstn in Hloop. simpl skipn in Hloop.
  rewrite Hloop by lia.
  reflexivity.
Qed.

(** The search returns the choice of [first_best] among the candidates
    that are counted afresh: the incremental class counts agree with
    them. *)
Lemma best_node_split_spec (self : DecisionTreeClassifier T) X y :
  length y = length X ->
  Forall (fun c => c < n_classes self) y ->
  best_node_split self X y
  = Ok (best_feature (first_best self X y), best_threshold (first_best self X y)).
Proof.
  intros Hy Hk. unfold best_node_split.
  rewrite (for_each_fold _
             (fun b f => fold_left pick (feature_candidates (n_classes self) X y f) b)).
  - cbn [bind]. unfold first_best, candidates. now rewrite fold_left_flat_map.
  - intros b f _. now apply feature_step_spec.
Qed.

(** *** The running choice is the first minimum *)

Lemma comparableb_sound (l : list T) : comparableb l = true -> comparable l.
Proof.
  unfold comparableb, comparable. intros H a b c Ha Hb Hc.
  rewrite forallb_forall in H. specialize (H a Ha).
  apply andb_prop in H. destruct H as [Hirr H].
  rewrite forallb_forall in H. specialize (H b Hb).
  rewrite forallb_forall in H. specialize (H c Hc).
  apply andb_prop in H. destruct H as [Htr Hneg].
  apply negb_true_iff in Hirr.
  repeat split; [exact Hirr | |].
  - intros Hab Hbc. now rewrite Hab, Hbc in Htr.
  - intros Hab. rewrite Hab in Hneg. simpl in Hneg.
    apply orb_prop in Hneg. exact Hneg.
Qed.

Lemma comparable_incl (l l' : list T) :
  incl l l' -> comparable l' -> comparable l.
Proof.
  intros Hincl H a b c Ha Hb Hc. apply H; now apply Hincl.
Qed.

(** Either no candidate is strictly below the start value and the choice
    is still the start, or the choice is a candidate strictly below the
    start value, no candidate is strictly below it, and every candidate
    before it is strictly above it. *)
Lemma pick_fold_spec (g0 : T) (start : Best T) :
  best_gini start = g0 ->
  forall cs : list (Candidate T),
    comparable (g0 :: map (@cand_gini T) cs) ->
    (fold_left pick cs start = start
     /\ forall c, In c cs -> ltb (cand_gini c) g0 = false)
    \/ (exists k c,
          nth_error cs k = Some c
          /\ fold_left pick cs start = chosen c
          /\ ltb (cand_gini c) g0 = true
          /\ (forall c', In c' cs -> ltb (cand_gini c') (cand_gini c) = false)
          /\ (forall j c', j < k -> nth_error cs j = Some c' ->
                          ltb (cand_gini c) (cand_gini c') = true)).
Proof.
  intros Hstart cs. induction cs as [|c cs IH] using rev_ind; intros Hcmp.
  { left. simpl. split; [reflexivity | tauto]. }
  assert (Hin0 : In g0 (g0 :: map (@cand_gini T) (cs ++ [c]))) by (now left).
  assert (Hin : forall c', In c' (cs ++ [c]) ->
                           In (cand_gini c') (g0 :: map (@cand_gini T) (cs ++ [c])))
    by (intros c' Hc'; right; now apply in_map).
  assert (Hinc : In c (cs ++ [c])) by (apply in_or_app; right; now left).
  assert (Hincs : forall c', In c' cs -> In c' (cs ++ [c]))
    by (intros c' Hc'; apply in_or_app; now left).
  assert (Hcmp' : comparable (g0 :: map (@cand_gini T) cs)).
  { apply (comparable_incl (l' := g0 :: map (@cand_gini T) (cs ++ [c]))); [|exact Hcmp].
    intros x [<-|Hx]; [now left | right].
    rewrite map_app. apply in_or_app. now left. }
  specialize (IH Hcmp'). rewrite fold_left_app. simpl fold_left.
  destruct IH as [[-> Hnone]|(k & c0 & Hk & -> & Hlt & Hmin & Hfirst)].
  - unfold pick. rewrite Hstart.
    destruct (ltb (cand_gini c) g0) eqn:Hc.
    + right. exists (length cs), c.
      split; [now rewrite nth_error_app2, Nat.sub_diag by lia|].
      split; [reflexivity|]. split; [exact Hc|]. split.
      * intros c' Hc'. apply in_app_or in Hc'. destruct Hc' as [Hc'|[<-|[]]].
        -- destruct (ltb (cand_gini c') (cand_gini c)) eqn:E; [|reflexivity].
           rewrite <- (Hnone c' Hc'). symmetry.
           apply (Hcmp _ _ _ (Hin _ (Hincs _ Hc')) (Hin _ Hinc) Hin0); assumption.
        -- apply (Hcmp _ _ _ (Hin _ Hinc) Hin0 Hin0).
      * intros j c' Hj Hc'.
        assert (Hc'in : In c' cs).
        { rewrite nth_error_app1 in Hc' by lia. eapply nth_error_In; eauto. }
        destruct (Hcmp _ _ (cand_gini c') (Hin _ Hinc) Hin0 (Hin _ (Hincs _ Hc'in)))
          as (_ & _ & Hneg).
        destruct (Hneg Hc) as [H|H]; [exact H|].
        rewrite (Hnone c' Hc'in) in H. discriminate.
    + left. split; [reflexivity|].
      intros c' Hc'. apply in_app_or in Hc'. destruct Hc' as [Hc'|[<-|[]]]; auto.
  - assert (Hc0 : In c0 cs) by (eapply nth_error_In; eauto).
    unfold pick. cbn [best_gini chosen].
    destruct (ltb (cand_gini c) (cand_gini c0)) eqn:Hc.
    + right. exists (length cs), c.
      split; [now rewrite nth_error_app2, Nat.sub_diag by lia|].
      split; [reflexivity|]. split.
      { apply (Hcmp _ _ _ (Hin _ Hinc) (Hin _ (Hincs _ Hc0)) Hin0); assumption. }
      split.
      * intros c' Hc'. apply in_app_or in Hc'. destruct Hc' as [Hc'|[<-|[]]].
        -- destruct (ltb (cand_gini c') (cand_gini c)) eqn:E; [|reflexivity].
           rewrite <- (Hmin c' Hc'). symmetry.
           apply (Hcmp _ _ _ (Hin _ (Hincs _ Hc')) (Hin _ Hinc) (Hin _ (Hincs _ Hc0)));
             assumption.
        -- apply (Hcmp _ _ _ (Hin _ Hinc) Hin0 Hin0).
      * intros j c' Hj Hc'.
        assert (Hc'in : In c' cs).
        { rewrite nth_error_app1 in Hc' by lia. eapply nth_error_In; eauto. }
        destruct (Hcmp _ _ (cand_gini c') (Hin _ Hinc) (Hin _ (Hincs _ Hc0))
                    (Hin _ (Hincs _ Hc'in))) as (_ & _ & Hneg).
        destruct (Hneg Hc) as [H|H]; [exact H|].
        rewrite (Hmin c' Hc'in) in H. discriminate.
    + right. exists k, c0.
      assert (Hklt : k < length cs) by (apply nth_error_Some; congruence).
      split; [now rewrite nth_error_app1 by exact Hklt|].
      split; [reflexivity|]. split; [exact Hlt|]. split.
      * intros c' Hc'. apply in_app_or in Hc'. destruct Hc' as [Hc'|[<-|[]]]; auto.
      * intros j c' Hj Hc'. rewrite nth_error_app1 in Hc' by lia. eauto.
Qed.

End Search.

(** *** The order in which candidates are examined *)

Lemma StronglySorted_app {A : Type} (R : A -> A -> Prop) (l1 l2 : list A) :
  StronglySorted R l1 -> StronglySorted R l2 ->
  (forall a b, In a l1 -> In b l2 -> R a b) ->
  StronglySorted R (l1 ++ l2).
Proof.
  induction 1 as [|a l1 Hl1 IH Ha]; simpl; intros H2 Hcross; [exact H2|].
  constructor; [apply IH; auto|].
  apply Forall_app. split; [exact Ha|].
  apply Forall_forall. auto.
Qed.

Lemma flat_map_seq_sorted {A : Type} (R : A -> A -> Prop) (g : nat -> list A) :
  forall m s,
    (forall i, s <= i < s + m -> StronglySorted R (g i)) ->
    (forall i j a b, s <= i -> i < j -> j < s + m -> In a (g i) -> In b (g j) -> R a b) ->
    StronglySorted R (flat_map g (seq s m)).
Proof.
  induction m as [|m IH]; intros s Hin Hcross; simpl; [constructor|].
  apply StronglySorted_app.
  - apply Hin. lia.
  - apply IH.
    + intros i Hi. apply Hin. lia.
    + intros i j a b Hi Hij Hj. apply Hcross; lia.
  - intros a b Ha Hb. apply in_flat_map in Hb. destruct Hb as (j & Hj & Hb).
    apply in_seq in Hj. apply (Hcross s j); auto; lia.
Qed.

Lemma StronglySorted_nth {A : Type} (R : A -> A -> Prop) (d : A) (l : list A) :
  StronglySorted R l ->
  forall i j, i < j -> j < length l -> R (nth i l d) (nth j l d).
Proof.
  induction 1 as [|a l Hl IH Ha]; simpl; intros i j Hij Hj; [lia|].
  destruct j as [|j]; [lia|]. destruct i as [|i].
  - rewrite Forall_forall in Ha. apply Ha, nth_In. lia.
  - apply IH; lia.
Qed.

Lemma feature_candidates_feature {T : Type} {num : Number T}
    (k : nat) (X : list (list T)) (y : list nat) (f : nat) (c : Candidate T) :
  In c (feature_candidates k X y f) -> cand_feature c = f.
Proof.
  unfold feature_candidates. intros H. apply in_flat_map in H.
  destruct H as (i & _ & H). unfold candidate_at in H.
  destruct (eqb _ _); [destruct H|]. destruct H as [<-|[]]. reflexivity.
Qed.

(** Candidates are listed by ascending feature index. *)
Lemma candidates_by_feature {T : Type} {num : Number T}
    (self : DecisionTreeClassifier T) (X : list (list T)) (y : list nat) :
  StronglySorted (fun a b => cand_feature a <= cand_feature b) (candidates self X y).
Proof.
  unfold candidates. apply flat_map_seq_sorted.
  - intros f _.
    assert (H : Forall (fun c => cand_feature c = f)
                  (feature_candidates (n_classes self) X y f))
      by (apply Forall_forall; apply feature_candidates_feature).
    induction H as [|c l Hc Hl IH]; constructor; [exact IH|].
    eapply Forall_impl; [|exact Hl]. simpl. intros c' Hc'. lia.
  - intros i j a b _ Hij _ Ha Hb.
    apply feature_candidates_feature in Ha, Hb. lia.
Qed.

(* ------------------------------------------------------------------ *)
(** ** The builder on aligned input *)

Section Builder.

Context {T : Type} {num : Number T}.

Lemma mask_length_left (X : list (list T)) f t : length (left_mask X f t) = length X.
Proof. unfold left_mask, column. now rewrite !length_map. Qed.

Lemma mask_length_right (X : list (list T)) f t : length (right_mask X f t) = length X.
Proof. unfold right_mask, column. now rewrite !length_map. Qed.

Lemma getmask_Ok {A : Type} (a : list A) (mask : list bool) :
  length mask = length a -> getmask a mask = Ok (select mask a).
Proof. intros H. unfold getmask. now rewrite H, Nat.eqb_refl. Qed.

Lemma select_below (k : nat) (mask : list bool) (y : list nat) :
  Forall (fun c => c < k) y -> Forall (fun c => c < k) (select mask y).
Proof.
  rewrite !Forall_forall. intros H c Hc. apply H. eapply select_In; eauto.
Qed.

(** On aligned labels below [n_classes], a call with enough fuel returns
    a node: no index is out of range. *)
Lemma build_tree_rec_valid fuel (self : DecisionTreeClassifier T) :
  forall X y depth,
    length y = length X ->
    Forall (fun c => c < n_classes self) y ->
    (max_depth self - depth <= Z.of_nat fuel)%Z ->
    exists node, build_tree_rec fuel self X y depth = Some (Ok node).
Proof.
  induction fuel as [|fuel IH]; intros X y depth Hy Hk Hfuel.
  - simpl. destruct (Z.ltb_spec depth (max_depth self)); [lia | eauto].
  - simpl. destruct (depth <? max_depth self)%Z; [|eauto].
    destruct (best_node_split self X y) as [[bf bt]|e] eqn:Hs;
      [|rewrite best_node_split_spec in Hs by assumption; discriminate].
    destruct (best_node_split_shape _ _ _ Hs) as [[-> ->]|(f & t & -> & -> & Hf)];
      [eauto|].
    rewrite !getmask_Ok
      by (rewrite ?mask_length_left, ?mask_length_right; congruence).
    destruct (IH (select (left_mask X f t) X) (select (left_mask X f t) y)
                (depth + 1)%Z) as [l ->];
      [symmetry; now apply select_aligned | now apply select_below | lia |].
    destruct (IH (select (right_mask X f t) X) (select (right_mask X f t) y)
                (depth + 1)%Z) as [r ->];
      [symmetry; now apply select_aligned | now apply select_below | lia |].
    eauto.
Qed.

Lemma fold_max_bound (y : list nat) :
  forall c, c <= fold_left Nat.max y c
            /\ Forall (fun x => x <= fold_left Nat.max y c) y.
Proof.
  induction y as [|x y IH]; simpl; intros c; [split; [lia | constructor]|].
  destruct (IH (Nat.max c x)) as [H1 H2]. split; [lia|].
  constructor; [lia | exact H2].
Qed.

Lemma np_max_bound (y : list nat) (m : nat) :
  np_max y = Ok m -> Forall (fun c => c < m + 1) y.
Proof.
  destruct y as [|c y]; simpl; [discriminate|]. intros H. injection H as <-.
  destruct (fold_max_bound y c) as [H1 H2].
  constructor; [lia|]. eapply Forall_impl; [|exact H2]. simpl. intros; lia.
Qed.

(** At the depth bound a call returns a Leaf whatever its input: the
    search is not run. *)
Lemma build_tree_at_bound (self : DecisionTreeClassifier T) X y depth :
  (max_depth self <= depth)%Z ->
  build_tree self X y depth
  = Some (Ok (Leaf (argmax (class_counts (n_classes self) y)))).
Proof.
  intros Hd. unfold build_tree.
  replace (Z.to_nat (max_depth self - depth)) with 0 by lia. simpl.
  destruct (Z.ltb_spec depth (max_depth self)); [lia | reflexivity].
Qed.

(** C3: on a non-empty dataset with aligned labels and [max_depth >= 0],
    [fit] returns a tree none of whose leaves is deeper than [max_depth];
    with [max_depth = 0] the tree is a single Leaf, and a call of
    [build_tree] at the depth bound returns a Leaf without searching. *)
Theorem fit_depth_bound (X : list (list T)) (y : list nat) (d : Z) :
  y <> [] ->
  length y = length X ->
  (0 <= d)%Z ->
  exists self tr,
    fit X y d = Some (Ok self)
    /\ root self = Some (node_of tr)
    /\ (Z.of_nat (height tr) <= d)%Z
    /\ (d = 0%Z -> tr = TLeaf (argmax (class_counts (n_classes self) y)))
    /\ (forall X' y' depth,
          (max_depth self <= depth)%Z ->
          build_tree self X' y' depth
          = Some (Ok (Leaf (argmax (class_counts (n_classes self) y'))))).
Proof.
  intros Hne Hy Hd. unfold fit.
  destruct (np_max y) as [m|e] eqn:Hm; [|destruct y; [congruence | discriminate]].
  set (self := mkSelf (m + 1) (shape1 X) d None).
  destruct (@build_tree_rec_valid (Z.to_nat (max_depth self - 0)) self X y 0%Z)
    as [node Hnode]; [exact Hy | now apply np_max_bound | lia |].
  unfold build_tree. rewrite Hnode.
  destruct (build_tree_rec_tree _ _ _ _ _ Hnode) as (tr & -> & _ & Hh).
  exists (mkSelf (m + 1) (shape1 X) d (Some (node_of tr))), tr.
  simpl in Hh. rewrite Z.sub_0_r in Hh.
  split; [reflexivity|]. split; [reflexivity|]. split; [lia|]. split.
  - intros ->. simpl in Hnode.
    injection Hnode as Hnode. destruct tr; [|discriminate].
    simpl in *. unfold Leaf in Hnode. congruence.
  - intros X' y' depth Hdepth. now apply build_tree_at_bound.
Qed.

End Builder.

Lemma fit_depth_bound_witness :
  exists self tr,
    fit Scenario.X4 Scenario.y4 1 = Some (Ok self)
    /\ root self = Some (node_of tr)
    /\ (Z.of_nat (height tr) <= 1)%Z
    /\ (1%Z = 0%Z -> tr = TLeaf (argmax (class_counts (n_classes self) Scenario.y4)))
    /\ (forall X' y' depth,
          (max_depth self <= depth)%Z ->
          build_tree self X' y' depth
          = Some (Ok (Leaf (argmax (class_counts (n_classes self) y'))))).
Proof.
  apply (@fit_depth_bound float binary64 Scenario.X4 Scenario.y4 1).
  - discriminate.
  - reflexivity.
  - lia.
Defined.

(* ------------------------------------------------------------------ *)
(** ** Prediction *)

Section Prediction.

Context {T : Type} {num : Number T}.

Lemma descend_node_of (tr : Tree T) (observation : list T) :
  descend (node_of tr) observation = traverse tr observation.
Proof.
  induction tr as [c|f t c l IHl r IHr]; simpl; [reflexivity|].
  destruct (getitem observation f) as [x|e]; simpl; [|reflexivity].
  now rewrite IHl, IHr.
Qed.

Lemma map_result_ext {A B : Type} (f g : A -> result B) (l : list A) :
  (forall a, f a = g a) -> map_result f l = map_result g l.
Proof.
  intros H. induction l as [|a l IH]; simpl; [reflexivity|]. now rewrite H, IH.
Qed.

(** C7: [predict] walks each observation from the root: at a Split it
    goes to the left child exactly when
    [observation[feature_index] <= threshold], and to the right child
    otherwise; at a Leaf it emits the majority class. *)
Theorem predict_traverses (tr : Tree T) :
  (forall observation, descend (node_of tr) observation = traverse tr observation)
  /\ (forall k nf d X,
        predict (mkSelf k nf d (Some (node_of tr))) X = map_result (traverse tr) X)
  /\ (forall c observation, descend (Leaf c) observation = Ok c)
  /\ (forall f t c (l r : Tree T) observation,
        descend (Split f t c (node_of l) (node_of r)) observation
        = x <- getitem observation f ;;
          if leb x t then descend (node_of l) observation
          else descend (node_of r) observation).
Proof.
  split; [apply descend_node_of|]. split; [|split; reflexivity].
  intros k nf d X. unfold predict. simpl.
  apply map_result_ext, descend_node_of.
Qed.

Lemma paired_node_of (tr : Tree T) : paired (node_of tr).
Proof.
  induction tr as [c|f t c l IHl r IHr]; simpl.
  - repeat split; auto.
  - repeat split; auto; discriminate.
Qed.

(** The only exception of a traversal is an index out of the observation. *)
Lemma traverse_raises (tr : Tree T) (observation : list T) (e : exn) :
  traverse tr observation = Raise e -> e = IndexError.
Proof.
  induction tr as [c|f t c l IHl r IHr]; simpl; [discriminate|].
  unfold getitem. destruct (nth_error observation f) as [x|]; simpl.
  - destruct (leb x t); auto.
  - congruence.
Qed.

(** C10: every node that [build_tree] constructs has [left = None]
    exactly when [right = None]; the loop of [predict], which tests
    [left] only, therefore stops exactly at the leaves and never reads a
    field of a [None] right child. *)
Theorem build_tree_paired (self : DecisionTreeClassifier T) X y depth node :
  build_tree self X y depth = Some (Ok node) ->
  paired node
  /\ (forall observation, descend node observation <> Raise AttributeError).
Proof.
  intros H. apply build_tree_rec_tree in H. destruct H as (tr & -> & _ & _).
  split; [apply paired_node_of|].
  intros observation H. rewrite descend_node_of in H.
  apply traverse_raises in H. discriminate.
Qed.

(** Rows with a column for every feature of the tree are all classified. *)
Lemma traverse_Ok (k : nat) (tr : Tree T) (observation : list T) :
  features_below k tr -> k <= length observation ->
  exists c, traverse tr observation = Ok c.
Proof.
  intros Hf Hk. induction tr as [c|f t c l IHl r IHr]; simpl in *; [eauto|].
  destruct Hf as (Hf & Hl & Hr).
  rewrite (getitem_nth observation zero) by lia. simpl.
  destruct (leb _ t); auto.
Qed.

Lemma map_result_Ok {A B : Type} (f : A -> result B) (l : list A) :
  (forall a, In a l -> exists b, f a = Ok b) ->
  exists bs, map_result f l = Ok bs /\ length bs = length l.
Proof.
  induction l as [|a l IH]; simpl; intros H; [exists []; auto|].
  destruct (H a) as [b ->]; [auto|].
  destruct IH as (bs & -> & Hlen); [auto|].
  exists (b :: bs). simpl. auto.
Qed.

End Prediction.

Lemma build_tree_paired_witness :
  paired Scenario.tree4
  /\ (forall observation, descend Scenario.tree4 observation <> Raise AttributeError).
Proof.
  apply (@build_tree_paired float binary64 (mkSelf 2 1 1 None)
           Scenario.X4 Scenario.y4 0%Z).
  vm_compute. reflexivity.
Defined.

(* ------------------------------------------------------------------ *)
(** ** Errors *)

Section Errors.

Context {T : Type} {num : Number T}.

(** With fewer labels than rows, sorting the labels along a feature reads
    past the end of [y]. *)
Lemma best_node_split_short_labels (self : DecisionTreeClassifier T) X y :
  length y < length X ->
  0 < n_features self ->
  best_node_split self X y = Raise IndexError.
Proof.
  intros Hy Hf. unfold best_node_split.
  destruct (n_features self) as [|nf]; [lia|].
  cbn [seq for_each]. unfold feature_step at 1.
  rewrite (take_nth (column X 0) zero) by apply argsort_bound.
  cbn [bind].
  rewrite (take_out y (argsort (column X 0)) (i := length X - 1)); [reflexivity | | lia].
  apply (Permutation_in _ (Permutation_sym (argsort_perm (column X 0)))).
  apply in_seq. rewrite column_length. lia.
Qed.

Lemma fit_tree (X : list (list T)) (y : list nat) (d : Z) self :
  fit X y d = Some (Ok self) ->
  exists tr, root self = Some (node_of tr) /\ features_below (n_features self) tr.
Proof.
  unfold fit. destruct (np_max y) as [m|e]; [|discriminate].
  destruct (build_tree _ X y 0) as [[node|e]|] eqn:Hb; try discriminate.
  intros H. injection H as <-.
  apply build_tree_rec_tree in Hb. destruct Hb as (tr & -> & Hf & _).
  exists tr. split; [reflexivity | exact Hf].
Qed.

(** On the tree of a [fit], [predict] is the traversal of the contract. *)
Lemma fit_predict_traverses (X : list (list T)) (y : list nat) (d : Z) self :
  fit X y d = Some (Ok self) ->
  exists tr, root self = Some (node_of tr)
             /\ forall X', predict self X' = map_result (traverse tr) X'.
Proof.
  intros Hfit. destruct (fit_tree _ _ _ Hfit) as (tr & Hroot & _).
  exists tr. split; [exact Hroot|]. intros X'.
  unfold predict. rewrite Hroot. apply map_result_ext, descend_node_of.
Qed.

Lemma map_result_raises {A B : Type} (f : A -> result B) (l : list A) (e : exn) :
  map_result f l = Raise e -> exists a, In a l /\ f a = Raise e.
Proof.
  induction l as [|a l IH]; simpl; [discriminate|].
  destruct (f a) as [b|e'] eqn:Ea; simpl.
  - destruct (map_result f l) as [bs|e'']; simpl; [discriminate|].
    intros H. destruct IH as (a' & Hin & Ha'); [exact H|]. eauto.
  - intros H. injection H as <-. eauto.
Qed.

(** C5, as the code has it: [fit] validates nothing itself.  It fails on
    an empty [y], where [np.max] raises; it fails with an index error
    when [y] is shorter than [X] has rows, [max_depth > 0] and [X] has a
    column.  A [max_depth <= 0], negative ones included, is accepted: on a
    non-empty [y] the result is a single Leaf, whatever [X] is. *)
Theorem fit_errors (X : list (list T)) (y : list nat) (d : Z) :
  (y = [] -> fit X y d = Some (Raise ValueError))
  /\ (y <> [] -> length y < length X -> (0 < d)%Z -> 0 < shape1 X ->
      fit X y d = Some (Raise IndexError))
  /\ (y <> [] -> (d <= 0)%Z ->
      exists m,
        np_max y = Ok m
        /\ fit X y d
           = Some (Ok (mkSelf (m + 1) (shape1 X) d
                         (Some (Leaf (argmax (class_counts (m + 1) y))))))).
Proof.
  split; [intros ->; reflexivity|]. split.
  - intros Hne Hy Hd Hf. unfold fit.
    destruct (np_max y) as [m|e] eqn:Hm; [|destruct y; [congruence | discriminate]].
    unfold build_tree. cbn [max_depth].
    destruct (Z.to_nat (d - 0)) as [|fuel] eqn:Hfuel; [lia|].
    simpl. destruct (Z.ltb_spec 0 d); [|lia].
    now rewrite best_node_split_short_labels.
  - intros Hne Hd. unfold fit.
    destruct (np_max y) as [m|e] eqn:Hm; [|destruct y; [congruence | discriminate]].
    exists m. split; [reflexivity|].
    now rewrite build_tree_at_bound by (simpl; lia).
Qed.

(** C6, as the code has it: [predict] does not compare the number of
    columns with [n_features].  On the tree of a [fit] it classifies every
    row that has at least [n_features] columns, more columns included; it
    fails only with an index error, and only if some row has fewer
    columns than [n_features].  It returns the labels only: no field of
    [self] is assigned. *)
Theorem predict_no_dimension_check (X : list (list T)) (y : list nat) (d : Z) self :
  fit X y d = Some (Ok self) ->
  (forall X', Forall (fun row => n_features self <= length row) X' ->
              exists labels, predict self X' = Ok labels
                             /\ length labels = length X')
  /\ (forall X' e, predict self X' = Raise e ->
                   e = IndexError
                   /\ exists row, In row X' /\ length row < n_features self).
Proof.
  intros Hfit. destruct (fit_tree _ _ _ Hfit) as (tr & Hroot & Hbelow).
  unfold predict. rewrite Hroot. split.
  - intros X' HX'. rewrite Forall_forall in HX'.
    apply map_result_Ok. intros row Hrow. rewrite descend_node_of.
    eapply traverse_Ok; eauto.
  - intros X' e H. apply map_result_raises in H.
    destruct H as (row & Hrow & H). rewrite descend_node_of in H.
    split; [eapply traverse_raises; eauto|].
    exists row. split; [exact Hrow|].
    destruct (le_lt_dec (n_features self) (length row)) as [Hle|Hlt]; [|exact Hlt].
    destruct (traverse_Ok tr row Hbelow Hle) as [c Hc]. congruence.
Qed.

End Errors.

(** C5 does not hold as stated: [fit] accepts a negative [max_depth], and
    labels of another length than [X], and returns a Leaf. *)
Lemma fit_accepts_invalid_input :
  (-1 < 0)%Z
  /\ fit [[1.0%float]] [0] (-1) = Some (Ok (mkSelf 1 1 (-1) (Some (Leaf 0))))
  /\ length [0; 0] <> length [[1.0%float]]
  /\ fit [[1.0%float]] [0; 0] 10 = Some (Ok (mkSelf 1 1 10 (Some (Leaf 0)))).
Proof.
  repeat split; try lia; try discriminate; vm_compute; reflexivity.
Qed.

(** C6 does not hold as stated: a matrix of two columns is classified by
    the tree that was fitted on one column. *)
Lemma predict_accepts_other_width :
  fit Scenario.X4 Scenario.y4 1 = Some (Ok Scenario.self4)
  /\ shape1 [[1.5%float; 7.0%float]] <> n_features Scenario.self4
  /\ predict Scenario.self4 [[1.5%float; 7.0%float]] = Ok [0].
Proof.
  repeat split; try discriminate; vm_compute; reflexivity.
Qed.

Lemma predict_no_dimension_check_witness :
  (forall X', Forall (fun row => n_features Scenario.self4 <= length row) X' ->
              exists labels, predict Scenario.self4 X' = Ok labels
                             /\ length labels = length X')
  /\ (forall X' e, predict Scenario.self4 X' = Raise e ->
                   e = IndexError
                   /\ exists row, In row X' /\ length row < n_features Scenario.self4).
Proof.
  apply (@predict_no_dimension_check float binary64 Scenario.X4 Scenario.y4 1).
  vm_compute. reflexivity.
Defined.

(* ------------------------------------------------------------------ *)
(** ** Thresholds in binary64 *)

(** The midpoint of the adjacent floats 1 and 1 + 2^-52 rounds to 1. *)
Lemma midpoint_rounds_to_lower :
  div (add 1.0%float 0x1.0000000000001p0%float) two = 1.0%float.
Proof. vm_compute. reflexivity. Qed.

(** C4, on two observations whose values are adjacent floats: the split
    that the search chooses has the lower value as its threshold; that
    observation is neither below nor above the threshold, so it is in
    neither subset, and the two subsets hold one observation of the two. *)
Theorem partition_drops_observation :
  let self := mkSelf 2 1 1 (@None (Node float)) in
  let X := Scenario.X_adjacent in
  let y := Scenario.y_adjacent in
  best_node_split self X y = Ok (Some 0, Some 1.0%float)
  /\ eqb (nth 0 (column X 0) zero) 1.0%float = true
  /\ left_subset X 0 1.0%float X = []
  /\ right_subset X 0 1.0%float X = [[0x1.0000000000001p0%float]]
  /\ length (left_subset X 0 1.0%float X) + length (right_subset X 0 1.0%float X)
     <> length X
  /\ fit X y 1 = Some (Ok (mkSelf 2 1 1 (Some (Split 0 1.0%float 0 (Leaf 0) (Leaf 1))))).
Proof.
  repeat split; try discriminate; vm_compute; reflexivity.
Qed.

(** C9, on the same observations with [max_depth = 2]: the left recursive
    call of [build_tree] receives an empty subset, and the search it runs
    divides by [n_observations = 0]: the impurity it starts from is a NaN. *)
Theorem build_tree_reaches_empty_subset :
  let self := mkSelf 2 1 2 (@None (Node float)) in
  Scenario.X_adjacent <> []
  /\ calls self (mkCall Scenario.X_adjacent Scenario.y_adjacent 0) (mkCall [] [] 1)
  /\ (1 <? max_depth self)%Z = true
  /\ shape0 (@nil (list float)) = 0
  /\ eqb (parent_gini self [] []) (parent_gini self [] []) = false
  /\ best_node_split self [] [] = Ok (None, None).
Proof.
  split; [discriminate|]. split.
  - eapply calls_below; [apply calls_here|].
    apply (@subcall_left float binary64 (mkSelf 2 1 2 None)
             Scenario.X_adjacent Scenario.y_adjacent 0%Z 0 1.0%float [] []);
      vm_compute; reflexivity.
  - repeat split; vm_compute; reflexivity.
Qed.

(* ------------------------------------------------------------------ *)
(** ** The partition in exact arithmetic *)

Lemma exact_ltb_iff (a b : Q) : ltb a b = true <-> (a < b)%Q.
Proof.
  simpl. rewrite negb_true_iff. split.
  - intros H. apply Qnot_le_lt. intros Hle. apply Qle_bool_iff in Hle. congruence.
  - intros H. destruct (Qle_bool b a) eqn:E; [|reflexivity].
    apply Qle_bool_iff in E. now apply Qlt_not_le in H.
Qed.

#[export] Instance exact_order : ExactOrder Q.
Proof.
  split.
  - intros a. destruct (ltb a a) eqn:E; [|reflexivity].
    apply exact_ltb_iff in E. now apply Qlt_irrefl in E.
  - intros a b c. rewrite !exact_ltb_iff. apply Qlt_trans.
  - intros a b c. rewrite !exact_ltb_iff. intros H.
    destruct (Qlt_le_dec a c) as [Hac|Hca]; [now left | right].
    eapply Qle_lt_trans; eauto.
  - intros a b. simpl. rewrite !negb_involutive.
    apply eq_true_iff_eq. rewrite andb_true_iff, Qeq_bool_iff, !Qle_bool_iff.
    split; [intros ->; split; apply Qle_refl | intros [H1 H2]; now apply Qle_antisym].
  - intros a b. rewrite !exact_ltb_iff. intros H.
    unfold two. simpl. unfold Qdiv. change (/ inject_Z 2)%Q with (1 # 2)%Q.
    split; lra.
Qed.

Section Exact.

Context {T : Type} {num : Number T} {laws : ExactOrder T}.

Lemma eqb_refl_exact (a : T) : eqb a a = true.
Proof. now rewrite eqb_ltb, ltb_irrefl. Qed.

Lemma sorts_before_ltb (a b : T) : sorts_before a b = ltb a b.
Proof.
  unfold sorts_before. rewrite !eqb_refl_exact. simpl. apply orb_false_r.
Qed.

Lemma ltb_asym (a b : T) : ltb a b = true -> ltb b a = false.
Proof.
  intros H. destruct (ltb b a) eqn:E; [|reflexivity].
  rewrite <- (ltb_irrefl a). symmetry. eapply ltb_trans; eauto.
Qed.

Lemma not_above_trans (a b c : T) : not_above a b -> not_above b c -> not_above a c.
Proof.
  unfold not_above. intros Hab Hbc.
  destruct (ltb c a) eqn:E; [|reflexivity].
  destruct (ltb_cotrans _ _ b E) as [H|H]; congruence.
Qed.

(** *** [argsort] sorts *)

Lemma insert_index_sorted (keys : list T) (i : nat) (l : list nat) :
  StronglySorted (fun a b => not_above (nth a keys zero) (nth b keys zero)) l ->
  StronglySorted (fun a b => not_above (nth a keys zero) (nth b keys zero))
    (insert_index keys i l).
Proof.
  induction 1 as [|j l Hl IH Hj]; simpl.
  - constructor; constructor.
  - rewrite sorts_before_ltb.
    destruct (ltb (nth j keys zero) (nth i keys zero)) eqn:E.
    + constructor; [exact IH|].
      apply Forall_forall. intros x Hx.
      apply (Permutation_in _ (insert_index_perm keys i l)) in Hx.
      destruct Hx as [<-|Hx].
      * now apply ltb_asym.
      * rewrite Forall_forall in Hj. now apply Hj.
    + constructor; [now constructor|].
      constructor; [exact E|].
      eapply Forall_impl; [|exact Hj]. simpl. intros x Hx.
      eapply not_above_trans; eauto.
Qed.

Lemma argsort_sorted (keys : list T) :
  StronglySorted (fun a b => not_above (nth a keys zero) (nth b keys zero))
    (argsort keys).
Proof.
  unfold argsort. induction (seq 0 (length keys)) as [|i l IH]; simpl.
  - constructor.
  - now apply insert_index_sorted.
Qed.

Lemma StronglySorted_map {A B : Type} (R : B -> B -> Prop) (g : A -> B) (l : list A) :
  StronglySorted (fun a b => R (g a) (g b)) l -> StronglySorted R (map g l).
Proof.
  induction 1 as [|a l Hl IH Ha]; simpl; constructor; [exact IH|].
  apply Forall_map. exact Ha.
Qed.

Lemma sorted_values_sorted (X : list (list T)) (f : nat) :
  StronglySorted not_above (sorted_values X f).
Proof.
  unfold sorted_values. apply StronglySorted_map, argsort_sorted.
Qed.

Lemma sorted_values_perm (X : list (list T)) (f : nat) :
  Permutation (sorted_values X f) (column X f).
Proof.
  unfold sorted_values.
  rewrite (Permutation_map _ (argsort_perm (column X f))).
  now rewrite map_nth_seq.
Qed.

(** *** A candidate threshold separates the column *)

Lemma candidate_separates (k : nat) (X : list (list T)) (y : list nat) (f : nat) c :
  In c (feature_candidates k X y f) ->
  cand_feature c = f /\ separates (cand_threshold c) (column X f).
Proof.
  unfold feature_candidates. intros H. apply in_flat_map in H.
  destruct H as (i & Hi & H). apply in_seq in Hi. unfold candidate_at in H.
  set (values := sorted_values X f) in *.
  assert (Hlen : length values = length X) by apply sorted_values_length.
  destruct (eqb (nth i values zero) (nth (i - 1) values zero)) eqn:E; [destruct H|].
  destruct H as [<-|[]]. simpl. split; [reflexivity|].
  pose proof (sorted_values_sorted X f) as Hsorted. fold values in Hsorted.
  assert (Hle : not_above (nth (i - 1) values zero) (nth i values zero))
    by (apply StronglySorted_nth; [exact Hsorted | lia | lia]).
  assert (Hlt : ltb (nth (i - 1) values zero) (nth i values zero) = true).
  { rewrite eqb_ltb in E. unfold not_above in Hle. rewrite Hle in E.
    simpl in E. now apply negb_false_iff in E. }
  destruct (midpoint_between _ _ Hlt) as [Hlo Hhi].
  set (t := div (add (nth (i - 1) values zero) (nth i values zero)) two) in *.
  assert (Hin : forall j, j < length X -> In (nth j values zero) (column X f)).
  { intros j Hj. apply (Permutation_in _ (sorted_values_perm X f)).
    apply nth_In. fold values. lia. }
  split; [exists (nth (i - 1) values zero); split; [apply Hin; lia | exact Hlo]|].
  split; [exists (nth i values zero); split; [apply Hin; lia | exact Hhi]|].
  apply Forall_forall. intros x Hx.
  apply (Permutation_in _ (Permutation_sym (sorted_values_perm X f))) in Hx.
  fold values in Hx. destruct (In_nth _ _ zero Hx) as (j & Hj & <-).
  destruct (le_lt_dec i j) as [Hij|Hij].
  - (* at or after the upper value *)
    assert (Hge : not_above (nth i values zero) (nth j values zero)).
    { destruct (Nat.eq_dec i j) as [<-|Hne]; [apply ltb_irrefl|].
      apply StronglySorted_nth; [exact Hsorted | lia | lia]. }
    assert (Htx : ltb t (nth j values zero) = true).
    { destruct (ltb_cotrans _ _ (nth j values zero) Hhi) as [H|H]; [exact H|].
      unfold not_above in Hge. congruence. }
    now rewrite Htx, (ltb_asym _ _ Htx).
  - (* at or before the lower value *)
    assert (Hle' : not_above (nth j values zero) (nth (i - 1) values zero)).
    { destruct (Nat.eq_dec j (i - 1)) as [->|Hne]; [apply ltb_irrefl|].
      apply StronglySorted_nth; [exact Hsorted | lia | lia]. }
    assert (Hxt : ltb (nth j values zero) t = true).
    { destruct (ltb_cotrans _ _ (nth j values zero) Hlo) as [H|H]; [|exact H].
      unfold not_above in Hle'. congruence. }
    now rewrite Hxt, (ltb_asym _ _ Hxt).
Qed.

(** Two adjacent sorted values that differ are in strict order. *)
Lemma adjacent_distinct_lt (X : list (list T)) (f i : nat) :
  1 <= i < length X ->
  eqb (nth i (sorted_values X f) zero) (nth (i - 1) (sorted_values X f) zero) = false ->
  ltb (nth (i - 1) (sorted_values X f) zero) (nth i (sorted_values X f) zero) = true.
Proof.
  intros Hi E.
  assert (Hle : not_above (nth (i - 1) (sorted_values X f) zero)
                          (nth i (sorted_values X f) zero)).
  { apply StronglySorted_nth; [apply sorted_values_sorted | lia |].
    rewrite sorted_values_length. lia. }
  rewrite eqb_ltb in E. unfold not_above in Hle. rewrite Hle in E.
  simpl in E. now apply negb_false_iff in E.
Qed.

(** Within a feature the thresholds of the candidates ascend; over all
    features the candidates are listed by feature, then by threshold. *)
Lemma candidates_examined_in_order (self : DecisionTreeClassifier T) X y :
  StronglySorted examined_before (candidates self X y).
Proof.
  unfold candidates. apply flat_map_seq_sorted.
  - intros f _. unfold feature_candidates. apply flat_map_seq_sorted.
    + intros i _. unfold candidate_at. destruct (eqb _ _); repeat constructor.
    + intros i j a b Hi Hij Hj Ha Hb. unfold candidate_at in Ha, Hb.
      destruct (eqb (nth i _ zero) (nth (i - 1) _ zero)) eqn:Ei; [destruct Ha|].
      destruct (eqb (nth j _ zero) (nth (j - 1) _ zero)) eqn:Ej; [destruct Hb|].
      destruct Ha as [<-|[]]. destruct Hb as [<-|[]].
      right. simpl. split; [reflexivity|].
      apply adjacent_distinct_lt in Ei; [|lia].
      apply adjacent_distinct_lt in Ej; [|lia].
      destruct (midpoint_between _ _ Ei) as [_ Hi_hi].
      destruct (midpoint_between _ _ Ej) as [Hj_lo _].
      set (values := sorted_values X f) in *.
      assert (Hle : not_above (nth i values zero) (nth (j - 1) values zero)).
      { destruct (Nat.eq_dec i (j - 1)) as [<-|Hne]; [apply ltb_irrefl|].
        apply StronglySorted_nth; [apply sorted_values_sorted | lia |].
        unfold values. rewrite sorted_values_length. lia. }
      eapply ltb_trans; [|exact Hj_lo].
      destruct (ltb_cotrans _ _ (nth (j - 1) values zero) Hi_hi) as [H|H]; [exact H|].
      unfold not_above in Hle. congruence.
  - intros i j a b _ Hij _ Ha Hb.
    apply feature_candidates_feature in Ha, Hb. left. lia.
Qed.

(** The choice of the search is the start or one of the candidates. *)
Lemma pick_fold_In (cs : list (Candidate T)) (start : Best T) :
  fold_left pick cs start = start
  \/ exists c, In c cs /\ fold_left pick cs start = chosen c.
Proof.
  revert start. induction cs as [|c cs IH]; simpl; intros start; [now left|].
  destruct (IH (pick start c)) as [->|(c' & Hc' & ->)].
  - unfold pick. destruct (ltb _ _); [right; exists c; auto | now left].
  - right. exists c'. auto.
Qed.

Lemma best_node_split_separates (self : DecisionTreeClassifier T) X y f t :
  length y = length X ->
  Forall (fun c => c < n_classes self) y ->
  best_node_split self X y = Ok (Some f, Some t) ->
  separates t (column X f).
Proof.
  intros Hy Hk H. rewrite best_node_split_spec in H by assumption.
  unfold first_best in H.
  destruct (pick_fold_In (candidates self X y)
              (mkBest (parent_gini self X y) None None)) as [E|(c & Hc & E)];
    rewrite E in H; simpl in H; [discriminate|].
  injection H as <- <-.
  unfold candidates in Hc. apply in_flat_map in Hc. destruct Hc as (f' & _ & Hc).
  apply candidate_separates in Hc. destruct Hc as [-> Hsep]. exact Hsep.
Qed.

(** *** The two subsets partition the parent *)

Lemma select_partition {A : Type} (t : T) (col : list T) :
  forall a : list A,
    length a = length col ->
    Forall (fun x => xorb (ltb x t) (ltb t x) = true) col ->
    Permutation (select (map (fun x => ltb x t) col) a
                 ++ select (map (fun x => ltb t x) col) a) a.
Proof.
  induction col as [|x col IH]; intros [|z a] Hlen Hx; simpl in *;
    try discriminate; [constructor|].
  inversion Hx as [|? ? Hx0 Hx']; subst.
  injection Hlen as Hlen. specialize (IH a Hlen Hx').
  destruct (ltb x t), (ltb t x); simpl in *; try discriminate.
  - now constructor.
  - rewrite <- Permutation_middle. now constructor.
Qed.

Lemma select_nonempty {A : Type} (g : T -> bool) (col : list T) :
  forall a : list A,
    length a = length col ->
    (exists x, In x col /\ g x = true) ->
    select (map g col) a <> [].
Proof.
  induction col as [|x col IH]; intros [|z a] Hlen (x0 & Hin & Hg); simpl in *;
    try discriminate; try tauto.
  injection Hlen as Hlen.
  destruct (g x) eqn:E; [discriminate|].
  destruct Hin as [->|Hin]; [congruence|].
  apply IH; eauto.
Qed.

(** In exact arithmetic the split that the search returns partitions the
    subset: every row is in exactly one of the two subsets, no value of
    the feature equals the threshold, and both subsets are non-empty. *)
Theorem partition_complete_exact (self : DecisionTreeClassifier T) X y f t :
  length y = length X ->
  Forall (fun c => c < n_classes self) y ->
  best_node_split self X y = Ok (Some f, Some t) ->
  Forall (fun x => xorb (ltb x t) (ltb t x) = true /\ eqb x t = false) (column X f)
  /\ Permutation (left_subset X f t X ++ right_subset X f t X) X
  /\ Permutation (left_subset X f t y ++ right_subset X f t y) y
  /\ length (left_subset X f t X) + length (right_subset X f t X) = length X
  /\ left_subset X f t X <> []
  /\ right_subset X f t X <> [].
Proof.
  intros Hy Hk H.
  destruct (best_node_split_separates _ _ Hy Hk H) as (Hlo & Hhi & Hall).
  assert (HX : length X = length (column X f)) by (now rewrite column_length).
  assert (HpX := @select_partition _ t (column X f) X HX Hall).
  split; [|split; [exact HpX|split; [|split; [|split]]]].
  - eapply Forall_impl; [|exact Hall]. simpl. intros x Hx. split; [exact Hx|].
    rewrite eqb_ltb. destruct (ltb x t), (ltb t x); simpl in *; congruence.
  - apply (@select_partition _ t (column X f) y); [congruence | exact Hall].
  - rewrite <- length_app. now apply Permutation_length.
  - apply (@select_nonempty _ (fun x => ltb x t) (column X f) X); assumption.
  - apply (@select_nonempty _ (fun x => ltb t x) (column X f) X); assumption.
Qed.

(** In exact arithmetic every call of [build_tree] below a call on a
    non-empty aligned subset is on a non-empty aligned subset, so the
    divisors of the search, [n_observations], and at each midpoint
    [n_observations_left] and [n_observations_right], are positive. *)
Theorem calls_nonempty_exact (self : DecisionTreeClassifier T) X y depth c :
  X <> [] ->
  length y = length X ->
  Forall (fun k => k < n_classes self) y ->
  calls self (mkCall X y depth) c ->
  call_X c <> []
  /\ length (call_y c) = length (call_X c)
  /\ (0 < Z.of_nat (shape0 (call_X c)))%Z
  /\ (forall midpoint_id, In midpoint_id (seq 1 (shape0 (call_X c) - 1)) ->
        (0 < Z.of_nat midpoint_id)%Z
        /\ (0 < Z.of_nat (shape0 (call_X c)) - Z.of_nat midpoint_id)%Z).
Proof.
  intros Hne Hy Hk Hcalls.
  assert (Hinv : call_X c <> [] /\ length (call_y c) = length (call_X c)
                 /\ Forall (fun k => k < n_classes self) (call_y c)).
  { induction Hcalls as [|c' c'' _ IH Hsub]; [simpl; auto|].
    destruct IH as (IHne & IHy & IHk).
    destruct Hsub as [X0 y0 d0 f t Xl yl _ Hs HXl Hyl
                     |X0 y0 d0 f t Xl yl l Xr yr _ Hs _ _ _ HXr Hyr];
      simpl in *;
      destruct (best_node_split_separates _ _ IHy IHk Hs) as (Hlo & Hhi & _);
      assert (HX0 : length X0 = length (column X0 f)) by (now rewrite column_length);
      pose proof (@select_nonempty _ (fun x => ltb x t) (column X0 f) X0 HX0 Hlo) as Hl;
      pose proof (@select_nonempty _ (fun x => ltb t x) (column X0 f) X0 HX0 Hhi) as Hr.
    - rewrite getmask_Ok in HXl by (rewrite mask_length_left; congruence).
      rewrite getmask_Ok in Hyl by (rewrite mask_length_left; congruence).
      injection HXl as <-. injection Hyl as <-.
      split; [exact Hl|]. split; [symmetry; now apply select_aligned|].
      now apply select_below.
    - rewrite getmask_Ok in HXr by (rewrite mask_length_right; congruence).
      rewrite getmask_Ok in Hyr by (rewrite mask_length_right; congruence).
      injection HXr as <-. injection Hyr as <-.
      split; [exact Hr|]. split; [symmetry; now apply select_aligned|].
      now apply select_below. }
  destruct Hinv as (Hne' & Hy' & _).
  split; [exact Hne'|]. split; [exact Hy'|].
  unfold shape0. destruct (call_X c) as [|row rest]; [congruence|]. simpl length.
  split; [lia|]. intros i Hi. apply in_seq in Hi. lia.
Qed.

Lemma exact_comparable (l : list T) : comparable l.
Proof.
  intros a b c _ _ _. split; [apply ltb_irrefl|]. split.
  - apply ltb_trans.
  - intros H. now apply ltb_cotrans.
Qed.

(** In exact arithmetic the impurities are always comparable: on a
    non-empty subset whose rows hold the [n_features] columns, the search
    returns the first candidate of minimal impurity strictly below the
    impurity of the subset, or (None, None) when there is none. *)
Theorem best_node_split_first_minimum_exact
    (self : DecisionTreeClassifier T) (X : list (list T)) (y : list nat) :
  X <> [] ->
  Forall (fun row => n_features self <= length row) X ->
  length y = length X ->
  Forall (fun c => c < n_classes self) y ->
  StronglySorted examined_before (candidates self X y)
  /\ ((best_node_split self X y = Ok (None, None)
       /\ forall c, In c (candidates self X y) ->
                    ltb (cand_gini c) (parent_gini self X y) = false)
      \/ (exists k c,
            nth_error (candidates self X y) k = Some c
            /\ best_node_split self X y
               = Ok (Some (cand_feature c), Some (cand_threshold c))
            /\ separates (cand_threshold c) (column X (cand_feature c))
            /\ ltb (cand_gini c) (parent_gini self X y) = true
            /\ (forall c', In c' (candidates self X y) ->
                           ltb (cand_gini c') (cand_gini c) = false)
            /\ (forall j c', j < k -> nth_error (candidates self X y) j = Some c' ->
                             ltb (cand_gini c) (cand_gini c') = true))).
Proof.
  intros _ _ Hy Hk. split; [apply candidates_examined_in_order|].
  pose proof (best_node_split_spec self X Hy Hk) as Hspec. unfold first_best in Hspec.
  destruct (@pick_fold_spec T num (parent_gini self X y)
              (mkBest (parent_gini self X y) None None)
              eq_refl (candidates self X y) (exact_comparable _))
    as [[E Hnone]|(k & c & Hnth & E & Hlt & Hmin & Hfirst)];
    rewrite E in Hspec; simpl in Hspec.
  - left. split; [exact Hspec | exact Hnone].
  - right. exists k, c. repeat split; try assumption;
      apply (best_node_split_separates _ _ Hy Hk Hspec).
Qed.

End Exact.

Lemma partition_complete_exact_witness :
  let X := Scenario.X4_exact in
  let y := Scenario.y4 in
  let t := (5 # 2)%Q in
  Forall (fun x => xorb (ltb x t) (ltb t x) = true /\ eqb x t = false) (column X 0)
  /\ Permutation (left_subset X 0 t X ++ right_subset X 0 t X) X
  /\ Permutation (left_subset X 0 t y ++ right_subset X 0 t y) y
  /\ length (left_subset X 0 t X) + length (right_subset X 0 t X) = length X
  /\ left_subset X 0 t X <> []
  /\ right_subset X 0 t X <> [].
Proof.
  apply (@partition_complete_exact Q exact exact_order (mkSelf 2 1 1 None)).
  - reflexivity.
  - repeat constructor.
  - vm_compute. reflexivity.
Defined.

Lemma calls_nonempty_exact_witness :
  let c := mkCall [[1 # 1]; [2 # 1]]%Q [0; 0] 1 in
  call_X c <> []
  /\ length (call_y c) = length (call_X c)
  /\ (0 < Z.of_nat (shape0 (call_X c)))%Z
  /\ (forall midpoint_id, In midpoint_id (seq 1 (shape0 (call_X c) - 1)) ->
        (0 < Z.of_nat midpoint_id)%Z
        /\ (0 < Z.of_nat (shape0 (call_X c)) - Z.of_nat midpoint_id)%Z).
Proof.
  apply (@calls_nonempty_exact Q exact exact_order (mkSelf 2 1 1 None)
           Scenario.X4_exact Scenario.y4 0%Z).
  - discriminate.
  - reflexivity.
  - repeat constructor.
  - eapply calls_below; [apply calls_here|].
    apply (@subcall_left Q exact (mkSelf 2 1 1 None)
             Scenario.X4_exact Scenario.y4 0%Z 0 (5 # 2)%Q
             [[1 # 1]; [2 # 1]]%Q [0; 0]);
      vm_compute; reflexivity.
Defined.

Lemma best_node_split_first_minimum_exact_witness :
  let self := mkSelf 2 1 1 (@None (Node Q)) in
  let X := Scenario.X4_exact in
  let y := Scenario.y4 in
  StronglySorted examined_before (candidates self X y)
  /\ ((best_node_split self X y = Ok (None, None)
       /\ forall c, In c (candidates self X y) ->
                    ltb (cand_gini c) (parent_gini self X y) = false)
      \/ (exists k c,
            nth_error (candidates self X y) k = Some c
            /\ best_node_split self X y
               = Ok (Some (cand_feature c), Some (cand_threshold c))
            /\ separates (cand_threshold c) (column X (cand_feature c))
            /\ ltb (cand_gini c) (parent_gini self X y) = true
            /\ (forall c', In c' (candidates self X y) ->
                           ltb (cand_gini c') (cand_gini c) = false)
            /\ (forall j c', j < k -> nth_error (candidates self X y) j = Some c' ->
                             ltb (cand_gini c) (cand_gini c') = true))).
Proof.
  apply (@best_node_split_first_minimum_exact Q exact exact_order).
  - discriminate.
  - repeat constructor.
  - reflexivity.
  - repeat constructor.
Defined.

(* ------------------------------------------------------------------ *)
(** ** The search on ordinary numbers *)

Section Tame.

Context {T : Type} {num : Number T}.

Lemma orderedb_sound (l : list T) : orderedb l = true -> ordered l.
Proof.
  unfold orderedb, ordered. intros H a b c Ha Hb Hc.
  rewrite forallb_forall in H. specialize (H a Ha).
  apply andb_prop in H. destruct H as [Hirr H].
  rewrite forallb_forall in H. specialize (H b Hb).
  apply andb_prop in H. destruct H as [Heq H].
  rewrite forallb_forall in H. specialize (H c Hc).
  apply andb_prop in H. destruct H as [Htr Hneg].
  apply negb_true_iff in Hirr. apply Bool.eqb_prop in Heq.
  repeat split; [exact Hirr | | | exact Heq].
  - intros Hab Hbc. now rewrite Hab, Hbc in Htr.
  - intros Hab. rewrite Hab in Hneg. simpl in Hneg.
    apply orb_prop in Hneg. exact Hneg.
Qed.

Lemma betweenb_sound (col : list T) : betweenb col = true -> between col.
Proof.
  unfold betweenb, between, not_above. intros H a b Ha Hb Hab.
  rewrite forallb_forall in H. specialize (H a Ha).
  rewrite forallb_forall in H. specialize (H b Hb).
  rewrite Hab in H. simpl in H. apply andb_prop in H. destruct H as [H1 H2].
  now apply negb_true_iff in H1, H2.
Qed.

Lemma tameb_sound (col : list T) : tameb col = true -> tame col.
Proof.
  unfold tameb, tame. intros H. apply andb_prop in H. destruct H as [H1 H2].
  split; [now apply orderedb_sound | now apply betweenb_sound].
Qed.



Section Column.

Variable col : list T.
Hypothesis col_tame : tame col.











(** *** [argsort] sorts the column *)



End Column.








End Tame.

(** In exact arithmetic every column is tame. *)
Lemma exact_tame {T : Type} {num : Number T} {laws : ExactOrder T} (col : list T) :
  tame col.
Proof.
  split.
  - intros a b c _ _ _. split; [apply ltb_irrefl|]. split; [apply ltb_trans|].
    split; [intros H; now apply ltb_cotrans | apply eqb_ltb].
  - intros a b _ _ Hab. destruct (midpoint_between _ _ Hab) as [Hlo Hhi].
    split; unfold not_above, midpoint; now apply ltb_asym.
Qed.

(** *** binary64 without NaN *)







(* ------------------------------------------------------------------ *)
(** ** The layout of a rendering *)

Lemma length_append (a b : string) :
  String.length (a ++ b) = String.length a + String.length b.
Proof.
  induction a as [|c a IH]; simpl; [reflexivity|]. now rewrite IH.
Qed.

Lemma len_append (a b : string) : len (a ++ b) = (len a + len b)%Z.
Proof.
  unfold len. rewrite length_append. lia.
Qed.

Lemma len_nonneg (a : string) : (0 <= len a)%Z.
Proof. unfold len. lia. Qed.

Lemma concat_repeat_length (s : string) (n : nat) :
  String.length (String.concat EmptyString (repeat s n)) = n * String.length s.
Proof.
  induction n as [|n IH]; [reflexivity|].
  destruct n as [|n]; [simpl; lia|].
  change (repeat s (S (S n))) with (s :: repeat s (S n)).
  change (String.concat EmptyString (s :: repeat s (S n)))
    with (s ++ EmptyString ++ String.concat EmptyString (repeat s (S n)))%string.
  rewrite !length_append, IH. simpl String.length. lia.
Qed.

(** [k * c] for a one-character string has [k] characters, none when
    [k] is negative. *)
Lemma len_times (k : Z) (c : ascii) :
  len (times k (String c EmptyString)) = Z.max 0 k.
Proof.
  unfold len, times. rewrite concat_repeat_length. simpl String.length. lia.
Qed.

Lemma get_append_at (a b : string) (c : ascii) :
  String.get (String.length a) (a ++ String c b) = Some c.
Proof.
  induction a as [|x a IH]; simpl; [reflexivity | exact IH].
Qed.

Lemma substring_prefix (s b : string) :
  substring 0 (String.length s) (s ++ b) = s.
Proof.
  induction s as [|x s IH]; simpl; [now destruct b|]. now rewrite IH.
Qed.

Lemma substring_append_at (a s b : string) :
  substring (String.length a) (String.length s) (a ++ s ++ b) = s.
Proof.
  induction a as [|x a IH]; simpl; [apply substring_prefix | exact IH].
Qed.

Lemma nth_error_combine {A B : Type} (l1 : list A) (l2 : list B) (i : nat) a b :
  nth_error l1 i = Some a -> nth_error l2 i = Some b ->
  nth_error (combine l1 l2) i = Some (a, b).
Proof.
  revert l2 i. induction l1 as [|x l1 IH]; intros [|z l2] [|i]; simpl;
    try discriminate; [congruence|]. apply IH.
Qed.

Lemma nth_error_app_l {A : Type} (l l' : list A) (i : nat) a :
  nth_error l i = Some a -> nth_error (l ++ l') i = Some a.
Proof.
  intros H. rewrite nth_error_app1; [exact H|].
  apply nth_error_Some. congruence.
Qed.

Section Layout.

Context {T : Type}.

Variable str_float : T -> string.

(** The rendering of a node with two children, from the renderings of
    the children. *)
Lemma print_tree_aux_children (t : option T) (f : option nat) (c : nat)
    (l r : Node T) left n p x right m q y :
  _print_tree_aux str_float l = Ok (left, n, p, x) ->
  _print_tree_aux str_float r = Ok (right, m, q, y) ->
  let s := ("f: " ++ str_field str_nat f ++ ", t: " ++ str_field str_float t)%string in
  let u := len s in
  let left' := if (p <? q)%Z
               then left ++ repeat (times n " ") (Z.to_nat (q - p)) else left in
  let right' := if (p <? q)%Z then right
                else if (q <? p)%Z
                     then right ++ repeat (times m " ") (Z.to_nat (p - q))
                     else right in
  _print_tree_aux str_float (mkNode t f c (Some l) (Some r))
  = Ok ((times (x + 1) " " ++ times (n - x - 1) "_" ++ s
         ++ times y "_" ++ times (m - y) " ")%string
        :: (times x " " ++ "/" ++ times (n - x - 1 + u + y) " "
            ++ "\" ++ times (m - y - 1) " ")%string
        :: map (fun '(a, b) => (a ++ times u " " ++ b)%string) (combine left' right'),
        (n + m + u)%Z, (Z.max p q + 2)%Z, (n + u / 2)%Z).
Proof.
  intros Hl Hr. cbn [_print_tree_aux]. rewrite Hl. cbn [bind]. rewrite Hr.
  reflexivity.
Qed.

Lemma padded_block (lines : list string) (w h h' : Z) :
  Z.of_nat (length lines) = h -> Forall (fun line => len line = w) lines ->
  (0 <= w)%Z -> (h <= h')%Z ->
  Z.of_nat (length (lines ++ repeat (times w " ") (Z.to_nat (h' - h)))) = h'
  /\ Forall (fun line => len line = w) (lines ++ repeat (times w " ") (Z.to_nat (h' - h))).
Proof.
  intros Hlen Hall Hw Hh. split.
  - rewrite length_app, repeat_length. lia.
  - apply Forall_app. split; [exact Hall|].
    apply Forall_forall. intros line Hin. apply repeat_spec in Hin. subst line.
    rewrite len_times. lia.
Qed.

Lemma render_block (tr : Tree T) :
  exists lines w h mid,
    _print_tree_aux str_float (node_of tr) = Ok (lines, w, h, mid)
    /\ h = (2 * Z.of_nat (height tr) + 1)%Z
    /\ block (lines, w, h, mid).
Proof.
  induction tr as [c|f t c l IHl r IHr].
  - do 4 eexists. split; [reflexivity|]. split; [reflexivity|].
    unfold block. split; [reflexivity|]. split.
    + repeat constructor.
    + rewrite len_append. change (len "c: ") with 3%Z.
      pose proof (len_nonneg (str_nat c)) as H.
      split; [apply Z.div_pos; lia | apply Z.div_lt_upper_bound; lia].
  - destruct IHl as (left & n & p & x & Hl & Hp & Hlen_l & Hall_l & Hx).
    destruct IHr as (right & m & q & y & Hr & Hq & Hlen_r & Hall_r & Hy).
    pose proof (print_tree_aux_children (Some t) (Some f) c _ _ Hl Hr) as H.
    cbv zeta in H. do 4 eexists. split; [exact H|]. clear H.
    set (s := ("f: " ++ str_field str_nat (Some f) ++ ", t: "
               ++ str_field str_float (Some t))%string).
    pose proof (len_nonneg s) as Hu.
    split; [simpl height; lia|].
    assert (Hpad :
      exists left' right',
        (if (p <? q)%Z then left ++ repeat (times n " ") (Z.to_nat (q - p)) else left)
        = left'
        /\ (if (p <? q)%Z then right
            else if (q <? p)%Z
                 then right ++ repeat (times m " ") (Z.to_nat (p - q)) else right)
           = right'
        /\ Z.of_nat (length left') = Z.max p q
        /\ Z.of_nat (length right') = Z.max p q
        /\ Forall (fun line => len line = n) left'
        /\ Forall (fun line => len line = m) right').
    { do 2 eexists. split; [reflexivity|]. split; [reflexivity|].
      destruct (Z.ltb_spec p q) as [Hpq|Hpq].
      - destruct (padded_block (h':=q) Hlen_l Hall_l) as [H1 H2]; [lia | lia|].
        repeat split; try assumption; lia.
      - destruct (Z.ltb_spec q p) as [Hqp|Hqp].
        + destruct (padded_block (h':=p) Hlen_r Hall_r) as [H1 H2]; [lia | lia|].
          repeat split; try assumption; lia.
        + repeat split; try assumption; lia. }
    destruct Hpad as (left' & right' & -> & -> & Hl' & Hr' & Hal' & Har').
    unfold block. split; [|split].
    + simpl length. rewrite length_map, length_combine. lia.
    + constructor; [|constructor].
      * rewrite !len_append, !len_times. fold s. lia.
      * rewrite !len_append, !len_times. fold s.
        change (len "/") with 1%Z. change (len "\") with 1%Z. lia.
      * apply Forall_map. apply Forall_forall. intros [a b] Hin.
        rewrite !len_append, len_times.
        rewrite Forall_forall in Hal', Har'.
        rewrite (Hal' a (in_combine_l _ _ _ _ Hin)).
        rewrite (Har' b (in_combine_r _ _ _ _ Hin)). fold s. lia.
    + split; [apply Z.add_nonneg_nonneg; [lia | apply Z.div_pos; lia]|].
      assert (len s / 2 <= len s)%Z by (apply Z.div_le_upper_bound; lia). lia.
Qed.

(** Every tree renders, as a block of [2 * depth + 1] lines: all lines
    have the reported width, their number is the reported height, and the
    root offset is a column of the block. *)
Theorem render_is_block (tr : Tree T) :
  exists lines w h mid,
    _print_tree_aux str_float (node_of tr) = Ok (lines, w, h, mid)
    /\ h = (2 * Z.of_nat (height tr) + 1)%Z
    /\ block (lines, w, h, mid).
Proof. exact (render_block tr). Qed.

Lemma append_assoc (a b c : string) : ((a ++ b) ++ c = a ++ b ++ c)%string.
Proof.
  induction a as [|x a IH]; simpl; [reflexivity|]. now rewrite IH.
Qed.

Lemma length_of_len (a : string) (k : Z) : len a = k -> String.length a = Z.to_nat k.
Proof. unfold len. lia. Qed.

(** A Split is rendered from the blocks of its children: the label
    starts at the column that follows the left block, '/' stands at the
    root offset of the left child and '\' at the root offset of the right
    child, shifted by the width of the left block and of the label; below
    them each line of the left block is joined to the line of the right
    block at the same height, a label width apart. *)
Theorem render_split_layout (f : nat) (t : T) (c : nat) (l r : Tree T) :
  exists left n p x right m q y first_line second_line rest,
    _print_tree_aux str_float (node_of l) = Ok (left, n, p, x)
    /\ _print_tree_aux str_float (node_of r) = Ok (right, m, q, y)
    /\ _print_tree_aux str_float (node_of (TSplit f t c l r))
       = Ok (first_line :: second_line :: rest,
             (n + m + len (split_label str_float f t))%Z,
             (Z.max p q + 2)%Z,
             (n + len (split_label str_float f t) / 2)%Z)
    /\ substring (Z.to_nat n) (String.length (split_label str_float f t)) first_line
       = split_label str_float f t
    /\ String.get (Z.to_nat x) second_line = Some "/"%char
    /\ String.get (Z.to_nat (n + len (split_label str_float f t) + y)) second_line
       = Some "\"%char
    /\ (forall i a b,
          nth_error left i = Some a -> nth_error right i = Some b ->
          nth_error rest i
          = Some (a ++ times (len (split_label str_float f t)) " " ++ b)%string).
Proof.
  destruct (render_block l) as (left & n & p & x & Hl & _ & _ & _ & Hx).
  destruct (render_block r) as (right & m & q & y & Hr & _ & _ & _ & Hy).
  pose proof (print_tree_aux_children (Some t) (Some f) c _ _ Hl Hr) as H.
  cbv zeta in H. change (str_field str_nat (Some f)) with (str_nat f) in H.
  change (str_field str_float (Some t)) with (str_float t) in H.
  fold (split_label str_float f t) in H.
  pose proof (len_nonneg (split_label str_float f t)) as Hu.
  exists left, n, p, x, right, m, q, y. do 3 eexists.
  split; [exact Hl|]. split; [exact Hr|]. split; [exact H|]. clear H.
  split; [|split; [|split]].
  - rewrite <- append_assoc.
    rewrite <- (@length_of_len (times (x + 1) " " ++ times (n - x - 1) "_")%string n).
    + apply substring_append_at.
    + rewrite len_append, !len_times. lia.
  - rewrite <- (@length_of_len (times x " ") x) by (rewrite len_times; lia).
    apply (get_append_at (times x " ")).
  - rewrite <- append_assoc, <- append_assoc.
    rewrite <- (@length_of_len
                  ((times x " " ++ "/")
                   ++ times (n - x - 1 + len (split_label str_float f t) + y) " ")%string
                  (n + len (split_label str_float f t) + y)).
    + apply get_append_at.
    + rewrite !len_append, !len_times. change (len "/") with 1%Z. lia.
  - intros i a b Ha Hb.
    match goal with
    | |- nth_error (map ?F (combine ?L ?R)) i = _ =>
        assert (Hc : nth_error (combine L R) i = Some (a, b));
        [|exact (map_nth_error F i _ Hc)]
    end.
    apply nth_error_combine.
    + destruct (p <? q)%Z; [now apply nth_error_app_l | exact Ha].
    + destruct (p <? q)%Z; [exact Hb|].
      destruct (q <? p)%Z; [now apply nth_error_app_l | exact Hb].
Qed.

(** After [fit], [print_tree] prints the block of the tree: [2 * depth + 1]
    lines of one length, at most [2 * max_depth + 1] of them (one line
    when [max_depth <= 0]); on a classifier that was not fitted it raises
    an attribute error. *)
Theorem print_tree_after_fit {num : Number T} (X : list (list T)) (y : list nat)
    (d : Z) (self : DecisionTreeClassifier T) :
  fit X y d = Some (Ok self) ->
  (exists lines w,
      print_tree str_float self = Ok lines
      /\ (1 <= Z.of_nat (length lines) <= 2 * Z.max 0 d + 1)%Z
      /\ Z.odd (Z.of_nat (length lines)) = true
      /\ Forall (fun line => len line = w) lines)
  /\ print_tree str_float (mkSelf (n_classes self) (n_features self) d None)
     = Raise AttributeError.
Proof.
  intros Hfit. split; [|reflexivity].
  unfold fit in Hfit. destruct (np_max y) as [k|e]; [|discriminate].
  destruct (build_tree _ X y 0) as [[node|e]|] eqn:Hb; try discriminate.
  injection Hfit as <-.
  apply build_tree_rec_tree in Hb. destruct Hb as (tr & -> & _ & Hh).
  cbn [max_depth] in Hh. rewrite Z.sub_0_r in Hh.
  destruct (render_block tr) as (lines & w & h & mid & Hr & -> & Hlen & Hall & _).
  exists lines, w. unfold print_tree. cbn [root]. rewrite Hr. cbn [bind].
  split; [reflexivity|]. rewrite Hlen. split; [lia|]. split; [|exact Hall].
  rewrite Z.add_comm, Z.odd_add_mul_2. reflexivity.
Qed.

End Layout.

Lemma print_tree_after_fit_witness :
  (exists lines w,
      print_tree exact_decimal Scenario.self4 = Ok lines
      /\ (1 <= Z.of_nat (length lines) <= 2 * Z.max 0 1 + 1)%Z
      /\ Z.odd (Z.of_nat (length lines)) = true
      /\ Forall (fun line => len line = w) lines)
  /\ print_tree exact_decimal
       (mkSelf (n_classes Scenario.self4) (n_features Scenario.self4) 1 None)
     = Raise AttributeError.
Proof.
  apply (@print_tree_after_fit float exact_decimal binary64 Scenario.X4 Scenario.y4 1).
  vm_compute. reflexivity.
Defined.

(* ------------------------------------------------------------------ *)
(** ** The majority class *)

(** [np.argmax] from a running maximum: the result is the running index
    or an index of the rest; the value it holds is a maximum, and it is
    strictly above every value before it. *)
Lemma argmax_from_spec (a : list Z) :
  forall bi b i,
    bi < i ->
    let r := argmax_from bi b i a in
    let v := if Nat.eqb r bi then b else nth (r - i) a 0%Z in
    (r = bi \/ i <= r < i + length a)
    /\ (b <= v)%Z
    /\ (r <> bi -> (b < v)%Z)
    /\ (forall j, j < length a -> (nth j a 0 <= v)%Z)
    /\ (forall j, j < length a -> i + j < r -> (nth j a 0 < v)%Z).
Proof.
  induction a as [|x a IH]; intros bi b i Hbi; cbn zeta.
  - simpl. rewrite Nat.eqb_refl. repeat split; try lia; intros; lia.
  - cbn [argmax_from length]. destruct (Z.ltb_spec b x) as [Hbx|Hbx].
    + specialize (IH i x (S i) (Nat.lt_succ_diag_r i)). cbn zeta in IH.
      set (r := argmax_from i x (S i) a) in *.
      destruct IH as (Hr & Hv & Hne & Hall & Hfirst).
      assert (Hrbi : Nat.eqb r bi = false) by (apply Nat.eqb_neq; lia).
      rewrite Hrbi.
      assert (Hval : nth (r - i) (x :: a) 0%Z
                     = if Nat.eqb r i then x else nth (r - S i) a 0%Z).
      { destruct (Nat.eqb_spec r i) as [->|Hri].
        - now rewrite Nat.sub_diag.
        - replace (r - i) with (S (r - S i)) by lia. reflexivity. }
      rewrite Hval. split; [lia|]. split; [lia|]. split; [lia|]. split.
      * intros [|j] Hj; simpl; [lia | apply Hall; lia].
      * intros [|j] Hj Hlt; simpl.
        -- apply Hne. lia.
        -- apply Hfirst; lia.
    + specialize (IH bi b (S i) (Nat.lt_lt_succ_r _ _ Hbi)). cbn zeta in IH.
      set (r := argmax_from bi b (S i) a) in *.
      destruct IH as (Hr & Hv & Hne & Hall & Hfirst).
      assert (Hval : (if Nat.eqb r bi then b else nth (r - i) (x :: a) 0%Z)
                     = if Nat.eqb r bi then b else nth (r - S i) a 0%Z).
      { destruct (Nat.eqb_spec r bi) as [_|Hri]; [reflexivity|].
        replace (r - i) with (S (r - S i)) by lia. reflexivity. }
      rewrite Hval. split; [lia|]. split; [lia|]. split; [exact Hne|]. split.
      * intros [|j] Hj; simpl; [lia | apply Hall; lia].
      * intros [|j] Hj Hlt; simpl.
        -- assert (r <> bi) by lia. specialize (Hne H). lia.
        -- apply Hfirst; lia.
Qed.

(** [np.argmax] of a non-empty array is an index of the array whose value
    is the maximum, and the first such index. *)
Lemma argmax_spec (a : list Z) :
  a <> [] ->
  argmax a < length a
  /\ (forall j, j < length a -> (nth j a 0 <= nth (argmax a) a 0)%Z)
  /\ (forall j, j < argmax a -> (nth j a 0 < nth (argmax a) a 0)%Z).
Proof.
  destruct a as [|x a]; [congruence|]. intros _.
  pose proof (@argmax_from_spec a 0 x 1 Nat.lt_0_1) as H. cbn zeta in H.
  cbn [argmax]. set (r := argmax_from 0 x 1 a) in *.
  destruct H as (Hr & Hv & Hne & Hall & Hfirst).
  assert (Hval : nth r (x :: a) 0%Z
                 = if Nat.eqb r 0 then x else nth (r - 1) a 0%Z).
  { destruct r as [|r]; [reflexivity|]. simpl. now rewrite Nat.sub_0_r. }
  rewrite Hval. cbn [length]. split; [lia|]. split.
  - intros [|j] Hj; simpl; [exact Hv | apply Hall; lia].
  - intros [|j] Hj; simpl.
    + apply Hne. lia.
    + apply Hfirst; lia.
Qed.

Lemma class_counts_length (k : nat) (y : list nat) : length (class_counts k y) = k.
Proof. unfold class_counts. now rewrite length_map, length_seq. Qed.

Lemma class_counts_nth (k : nat) (y : list nat) (j : nat) :
  j < k -> nth j (class_counts k y) 0%Z = count_class y j.
Proof.
  intros Hj. unfold class_counts.
  rewrite (nth_indep _ 0%Z (count_class y 0)) by (now rewrite length_map, length_seq).
  rewrite (map_nth (count_class y) (seq 0 k) 0 j). now rewrite seq_nth.
Qed.

(** The majority class of a subset is below [n_classes], no class has
    more observations, and every class of lower index has fewer. *)
Lemma majority_spec (k : nat) (y : list nat) :
  0 < k ->
  let c := argmax (class_counts k y) in
  c < k
  /\ (forall j, j < k -> (count_class y j <= count_class y c)%Z)
  /\ (forall j, j < c -> (count_class y j < count_class y c)%Z).
Proof.
  intros Hk c.
  assert (Hne : class_counts k y <> []).
  { intros E. apply (f_equal (@length Z)) in E.
    rewrite class_counts_length in E. simpl in E. lia. }
  destruct (argmax_spec Hne) as (Hc & Hmax & Hfirst).
  rewrite class_counts_length in Hc, Hmax. fold c in Hc, Hmax, Hfirst.
  split; [exact Hc|]. split.
  - intros j Hj. specialize (Hmax j Hj).
    now rewrite !class_counts_nth in Hmax by assumption.
  - intros j Hj. specialize (Hfirst j Hj).
    now rewrite !class_counts_nth in Hfirst by lia.
Qed.

Section Majority.

Context {T : Type} {num : Number T}.

Lemma majority_class_of_build fuel (self : DecisionTreeClassifier T) X y depth node :
  build_tree_rec fuel self X y depth = Some (Ok node) ->
  majority_class node = argmax (class_counts (n_classes self) y).
Proof.
  intros H. apply build_tree_rec_inv in H.
  destruct H as [[-> _]|(? & ? & ? & ? & ? & _ & _ & _ & _ & _ & _ & _ & ->)];
    reflexivity.
Qed.

(** The node that [build_tree] returns holds the most frequent class of
    its subset, the one of lowest index among the most frequent. *)
Theorem majority_class_most_frequent (self : DecisionTreeClassifier T) X y depth node :
  build_tree self X y depth = Some (Ok node) ->
  0 < n_classes self ->
  majority_class node < n_classes self
  /\ (forall j, j < n_classes self ->
                (count_class y j <= count_class y (majority_class node))%Z)
  /\ (forall j, j < majority_class node ->
                (count_class y j < count_class y (majority_class node))%Z).
Proof.
  intros H Hk. rewrite (majority_class_of_build _ _ _ _ _ H).
  now apply majority_spec.
Qed.

(** An invariant [Inv] of the calls gives a property [P] of the majority
    class of every node. *)
Lemma build_tree_rec_all_classes (self : DecisionTreeClassifier T)
    (Inv : list (list T) -> list nat -> Prop) (P : nat -> Prop) :
  (forall X y, Inv X y -> P (argmax (class_counts (n_classes self) y))) ->
  (forall X y f t,
      Inv X y -> best_node_split self X y = Ok (Some f, Some t) ->
      Inv (left_subset X f t X) (left_subset X f t y)
      /\ Inv (right_subset X f t X) (right_subset X f t y)) ->
  forall fuel X y depth tr,
    Inv X y ->
    build_tree_rec fuel self X y depth = Some (Ok (node_of tr)) ->
    all_classes P tr.
Proof.
  intros HP Hstep.
  assert (Hleaf : forall X y (tr : Tree T),
             Inv X y ->
             node_of tr = Leaf (argmax (class_counts (n_classes self) y)) ->
             all_classes P tr).
  { intros X y [c|] HI E; simpl in E; [|discriminate].
    injection E as ->. simpl. now apply (HP X). }
  induction fuel as [|fuel IH]; intros X y depth tr HI H;
    apply build_tree_rec_inv in H;
    destruct H as [[E _]|(fuel' & f & t & l & r & Hfuel & _ & Hs & _ & _ & Hl & Hr & E)];
    try discriminate; try (eapply Hleaf; eassumption).
  injection Hfuel as <-.
  destruct tr as [|f' t' c' tl trr]; simpl in E; [discriminate|].
  injection E as -> -> -> <- <-.
  destruct (Hstep _ _ _ _ HI Hs) as [HIl HIr].
  simpl. split; [now apply (HP X)|].
  split; [exact (IH _ _ _ _ HIl Hl) | exact (IH _ _ _ _ HIr Hr)].
Qed.

Lemma traverse_class (P : nat -> Prop) (tr : Tree T) (observation : list T) c :
  all_classes P tr -> traverse tr observation = Ok c -> P c.
Proof.
  induction tr as [c0|f t c0 l IHl r IHr]; simpl.
  - intros H E. injection E as <-. exact H.
  - intros (_ & Hl & Hr) E. inv_bind E. destruct (leb a t); auto.
Qed.

Lemma map_result_Forall {A B : Type} (f : A -> result B) (P : B -> Prop) (l : list A) :
  (forall a b, f a = Ok b -> P b) ->
  forall bs, map_result f l = Ok bs -> Forall P bs /\ length bs = length l.
Proof.
  intros Hf. induction l as [|a l IH]; simpl; intros bs H.
  - injection H as <-. auto.
  - inv_bind H. inv_bind H. injection H as <-.
    destruct (IH _ E0) as [H1 H2]. split; [constructor; eauto | simpl; lia].
Qed.

(** After [fit], whatever [predict] returns is one label below
    [n_classes] for each row. *)
Theorem predict_labels_in_range (X : list (list T)) (y : list nat) (d : Z)
    (self : DecisionTreeClassifier T) (X' : list (list T)) (labels : list nat) :
  fit X y d = Some (Ok self) ->
  predict self X' = Ok labels ->
  length labels = length X'
  /\ Forall (fun c => c < n_classes self) labels.
Proof.
  unfold fit. destruct (np_max y) as [m|e]; [|discriminate].
  destruct (build_tree _ X y 0) as [[node|e]|] eqn:Hb; try discriminate.
  intros H. injection H as <-. unfold predict. cbn [root n_classes].
  pose proof Hb as Htr. apply build_tree_rec_tree in Htr.
  destruct Htr as (tr & -> & _ & _).
  assert (Hall : all_classes (fun c => c < m + 1) tr).
  { eapply (@build_tree_rec_all_classes (mkSelf (m + 1) (shape1 X) d None)
              (fun _ _ => True)); [| |exact I|exact Hb].
    - intros X0 y0 _. apply (@majority_spec (m + 1)). lia.
    - auto. }
  intros Hp. apply and_comm.
  eapply map_result_Forall; [|exact Hp].
  intros row c Hc. rewrite descend_node_of in Hc.
  exact (@traverse_class (fun c => c < m + 1) tr row c Hall Hc).
Qed.

End Majority.

Lemma majority_class_most_frequent_witness :
  majority_class Scenario.tree4 < 2
  /\ (forall j, j < 2 ->
                (count_class Scenario.y4 j
                 <= count_class Scenario.y4 (majority_class Scenario.tree4))%Z)
  /\ (forall j, j < majority_class Scenario.tree4 ->
                (count_class Scenario.y4 j
                 < count_class Scenario.y4 (majority_class Scenario.tree4))%Z).
Proof.
  apply (@majority_class_most_frequent float binary64 (mkSelf 2 1 1 None)
           Scenario.X4 Scenario.y4 0%Z).
  - vm_compute. reflexivity.
  - simpl. lia.
Defined.

Lemma predict_labels_in_range_witness :
  length [0; 1] = length [[1.5%float]; [3.5%float]]
  /\ Forall (fun c => c < n_classes Scenario.self4) [0; 1].
Proof.
  apply (@predict_labels_in_range float binary64 Scenario.X4 Scenario.y4 1).
  - vm_compute. reflexivity.
  - vm_compute. reflexivity.
Defined.

(* ------------------------------------------------------------------ *)
(** ** Training observations in exact arithmetic *)

#[export] Instance exact_le : ExactLe Q.
Proof.
  split. intros a b. simpl. now rewrite negb_involutive.
Qed.

Section Training.

Context {T : Type} {num : Number T} {laws : ExactOrder T} {le_laws : ExactLe T}.

Lemma calls_cons (self : DecisionTreeClassifier T) (c c1 c2 : Call T) :
  subcall self c c1 -> calls self c1 c2 -> calls self c c2.
Proof.
  intros Hsub H. induction H as [|c' c'' _ IH Hstep].
  - eapply calls_below; [apply calls_here | exact Hsub].
  - eapply calls_below; eauto.
Qed.

(** What a call returns with some fuel is what [build_tree] returns. *)
Lemma build_tree_rec_build_tree fuel (self : DecisionTreeClassifier T) X y depth r :
  build_tree_rec fuel self X y depth = Some r ->
  build_tree self X y depth = Some r.
Proof.
  intros H. unfold build_tree.
  destruct (le_lt_dec fuel (Z.to_nat (max_depth self - depth))) as [Hle|Hlt].
  - eapply build_tree_rec_more_fuel; eauto.
  - destruct (build_tree_rec (Z.to_nat (max_depth self - depth)) self X y depth)
      as [r'|] eqn:E; [|exfalso; revert E; apply build_tree_rec_fuel; lia].
    assert (Hlt' : Z.to_nat (max_depth self - depth) <= fuel) by lia.
    rewrite (@build_tree_rec_more_fuel T num _ self X y depth r' E fuel Hlt') in H.
    exact H.
Qed.

Lemma mask_of_rows (X : list (list T)) (f : nat) (t : T) :
  left_mask X f t = map (fun row => ltb (nth f row zero) t) X
  /\ right_mask X f t = map (fun row => ltb t (nth f row zero)) X.
Proof.
  unfold left_mask, right_mask, column. now rewrite !map_map.
Qed.

Lemma In_combine_select {A B : Type} (g : A -> bool) (X : list A) :
  forall (y : list B) x l,
    In (x, l) (combine X y) -> g x = true ->
    In (x, l) (combine (select (map g X) X) (select (map g X) y)).
Proof.
  induction X as [|a X IH]; intros [|b y] x l Hin Hg; simpl in *; try tauto.
  destruct Hin as [E|Hin].
  - injection E as -> ->. rewrite Hg. now left.
  - destruct (g a); [right|]; now apply IH.
Qed.

Lemma select_wide (k : nat) (mask : list bool) (X : list (list T)) :
  Forall (fun row => k <= length row) X ->
  Forall (fun row => k <= length row) (select mask X).
Proof.
  rewrite !Forall_forall. intros H row Hrow. apply H. eapply select_In; eauto.
Qed.

(** The walk of [predict] on a training observation ends in a leaf that
    was built on a subset holding that observation. *)
Lemma training_path fuel (self : DecisionTreeClassifier T) :
  forall X y depth node,
    build_tree_rec fuel self X y depth = Some (Ok node) ->
    length y = length X ->
    Forall (fun c => c < n_classes self) y ->
    Forall (fun row => n_features self <= length row) X ->
    forall x lbl,
      In (x, lbl) (combine X y) ->
      exists X' y' d',
        calls self (mkCall X y depth) (mkCall X' y' d')
        /\ In (x, lbl) (combine X' y')
        /\ build_tree self X' y' d'
           = Some (Ok (Leaf (argmax (class_counts (n_classes self) y'))))
        /\ descend node x = Ok (argmax (class_counts (n_classes self) y')).
Proof.
  induction fuel as [|fuel IH]; intros X y depth node H Hy Hk Hw x lbl Hin;
    pose proof (build_tree_rec_build_tree _ _ _ _ _ H) as Hbuilt;
    apply build_tree_rec_inv in H;
    destruct H as [[-> _]|(fuel' & f & t & l & r & Hfuel & Hd & Hs & Hf & _ & Hl & Hr & ->)];
    try discriminate;
    try (exists X, y, depth; split; [apply calls_here|];
         split; [exact Hin|]; split; [exact Hbuilt | reflexivity]).
  injection Hfuel as <-. clear Hbuilt.
  destruct (mask_of_rows X f t) as [Hlm Hrm].
  assert (Hx : In x X) by (eapply in_combine_l; eauto).
  assert (Hxw : f < length x).
  { rewrite Forall_forall in Hw. specialize (Hw x Hx). lia. }
  destruct (best_node_split_separates _ _ Hy Hk Hs) as (_ & _ & Hall).
  assert (Hv : xorb (ltb (nth f x zero) t) (ltb t (nth f x zero)) = true).
  { rewrite Forall_forall in Hall. apply Hall. unfold column.
    apply (in_map (fun row => nth f row zero)). exact Hx. }
  assert (HgX : forall mask, length mask = length X ->
                             getmask X mask = Ok (select mask X))
    by (intros; now apply getmask_Ok).
  assert (Hgy : forall mask, length mask = length X ->
                             getmask y mask = Ok (select mask y))
    by (intros; apply getmask_Ok; congruence).
  unfold Split. cbn [descend]. rewrite (getitem_nth x zero Hxw). cbn [bind].
  rewrite leb_ltb.
  destruct (ltb (nth f x zero) t) eqn:Hlt, (ltb t (nth f x zero)) eqn:Hgt;
    try discriminate; cbn [negb].
  - (* below the threshold: the left child *)
    destruct (IH _ _ _ _ Hl) with (x := x) (lbl := lbl)
      as (X' & y' & d' & Hc & Hin' & Hleaf & Hdesc).
    + symmetry. now apply select_aligned.
    + now apply select_below.
    + now apply select_wide.
    + unfold left_subset. rewrite Hlm.
      apply (In_combine_select (fun row => ltb (nth f row zero) t)); assumption.
    + exists X', y', d'. split; [|repeat split; assumption].
      eapply calls_cons; [|exact Hc].
      eapply subcall_left with (f := f) (t := t);
        try apply HgX; try apply Hgy;
        try apply mask_length_left; try assumption.
  - (* above the threshold: the right child *)
    destruct (IH _ _ _ _ Hr) with (x := x) (lbl := lbl)
      as (X' & y' & d' & Hc & Hin' & Hleaf & Hdesc).
    + symmetry. now apply select_aligned.
    + now apply select_below.
    + now apply select_wide.
    + unfold right_subset. rewrite Hrm.
      apply (In_combine_select (fun row => ltb t (nth f row zero))); assumption.
    + exists X', y', d'. split; [|repeat split; assumption].
      eapply calls_cons; [|exact Hc].
      eapply subcall_right with (f := f) (t := t);
        try apply HgX; try apply Hgy;
        try apply mask_length_left; try apply mask_length_right; try assumption.
      eapply build_tree_rec_build_tree. exact Hl.
Qed.

Lemma calls_head (self : DecisionTreeClassifier T) (c c'' : Call T) :
  calls self c c'' ->
  c = c'' \/ exists c1, subcall self c c1 /\ calls self c1 c''.
Proof.
  induction 1 as [|c' c'' Hc IH Hstep]; [now left|]. right.
  destruct IH as [->|(c1 & Hsub & Hc1)].
  - exists c''. split; [exact Hstep | apply calls_here].
  - exists c1. split; [exact Hsub|]. eapply calls_below; eauto.
Qed.

Lemma getmask_inv {A : Type} (a r : list A) (mask : list bool) :
  getmask a mask = Ok r -> r = select mask a.
Proof.
  unfold getmask. destruct (_ || _); [|discriminate]. intros H. now injection H.
Qed.

Lemma calls_incl (self : DecisionTreeClassifier T) (c c' : Call T) :
  calls self c c' -> incl (call_X c') (call_X c).
Proof.
  induction 1 as [|c' c'' Hc IH Hstep]; [apply incl_refl|].
  intros x Hx. apply IH.
  destruct Hstep as [X y depth f t Xl yl _ _ HXl _
                    |X y depth f t Xl yl l Xr yr _ _ _ _ _ HXr _];
    cbn [call_X] in *.
  - apply getmask_inv in HXl. subst Xl. eapply select_In; eauto.
  - apply getmask_inv in HXr. subst Xr. eapply select_In; eauto.
Qed.

Lemma select_map_In {A : Type} (g : A -> bool) (X : list A) (x : A) :
  In x (select (map g X) X) -> g x = true.
Proof.
  induction X as [|a X IH]; simpl; [tauto|].
  destruct (g a) eqn:E; [|exact IH]. intros [<-|H]; [exact E | now apply IH].
Qed.

(** Every leaf that was built on a subset holding the observation is the
    leaf that the walk of [predict] ends in. *)
Lemma leaf_call_path fuel (self : DecisionTreeClassifier T) :
  forall X y depth node,
    build_tree_rec fuel self X y depth = Some (Ok node) ->
    length y = length X ->
    Forall (fun c => c < n_classes self) y ->
    Forall (fun row => n_features self <= length row) X ->
    forall x X' y' d' c,
      calls self (mkCall X y depth) (mkCall X' y' d') ->
      In x X' ->
      build_tree self X' y' d' = Some (Ok (Leaf c)) ->
      descend node x = Ok c.
Proof.
  induction fuel as [|fuel IH]; intros X y depth node H Hy Hk Hw x X' y' d' c Hc Hx Hleaf;
    pose proof (build_tree_rec_build_tree _ _ _ _ _ H) as Hbuilt;
    apply calls_head in Hc;
    (destruct Hc as [E|(c1 & Hsub & Hc1)];
     [injection E as <- <- <-; rewrite Hbuilt in Hleaf; injection Hleaf as ->;
      reflexivity|]);
    apply build_tree_rec_inv in H;
    (destruct H as [[_ [Hd|Hs]]|(fuel' & f & t & l & r & Hfuel & Hd & Hs & Hf & _ & Hl & Hr & ->)];
     [exfalso; inversion Hsub; congruence
     |exfalso; inversion Hsub; congruence|]);
    try discriminate.
  injection Hfuel as <-. clear Hbuilt.
  destruct (mask_of_rows X f t) as [Hlm Hrm].
  pose proof (calls_incl Hc1) as Hincl. cbn [call_X] in Hincl.
  assert (Hx1 : In x (call_X c1)) by (now apply Hincl).
  unfold Split. cbn [descend].
  inversion Hsub as [X0 y0 depth0 f0 t0 Xl yl _ Hs0 HXl Hyl
                    |X0 y0 depth0 f0 t0 Xl yl l0 Xr yr _ Hs0 _ _ _ HXr Hyr];
    subst; rewrite Hs in Hs0; injection Hs0 as <- <-; cbn [call_X] in Hx1.
  - (* the left call *)
    apply getmask_inv in HXl, Hyl. subst Xl yl.
    assert (HxX : In x X) by (eapply select_In; eauto).
    assert (Hxw : f < length x).
    { rewrite Forall_forall in Hw. specialize (Hw x HxX). lia. }
    rewrite Hlm in Hx1.
    apply (select_map_In (fun row => ltb (nth f row zero) t)) in Hx1.
    rewrite (getitem_nth x zero Hxw). cbn [bind].
    rewrite leb_ltb, (ltb_asym _ _ Hx1). cbn [negb].
    eapply (IH _ _ _ _ Hl); eauto.
    + symmetry. now apply select_aligned.
    + now apply select_below.
    + now apply select_wide.
  - (* the right call *)
    apply getmask_inv in HXr, Hyr. subst Xr yr.
    assert (HxX : In x X) by (eapply select_In; eauto).
    assert (Hxw : f < length x).
    { rewrite Forall_forall in Hw. specialize (Hw x HxX). lia. }
    rewrite Hrm in Hx1.
    apply (select_map_In (fun row => ltb t (nth f row zero))) in Hx1.
    rewrite (getitem_nth x zero Hxw). cbn [bind].
    rewrite leb_ltb, Hx1. cbn [negb].
    eapply (IH _ _ _ _ Hr); eauto.
    + symmetry. now apply select_aligned.
    + now apply select_below.
    + now apply select_wide.
Qed.

End Training.

Section TrainingFit.

Context {T : Type} {num : Number T} {laws : ExactOrder T} {le_laws : ExactLe T}.

Lemma fit_inv (X : list (list T)) (y : list nat) (d : Z) self :
  fit X y d = Some (Ok self) ->
  exists m node,
    np_max y = Ok m
    /\ build_tree (mkSelf (m + 1) (shape1 X) d None) X y 0 = Some (Ok node)
    /\ self = mkSelf (m + 1) (shape1 X) d (Some node).
Proof.
  unfold fit. destruct (np_max y) as [m|e]; [|discriminate].
  destruct (build_tree _ X y 0) as [[node|e]|] eqn:Hb; try discriminate.
  intros H. injection H as <-. eauto.
Qed.

(** In exact arithmetic, [predict] on an observation of the training data
    ends in the leaf whose training subset holds this observation: the
    calls of [build_tree] reach a call that holds it and returns a Leaf,
    and [predict] returns the class of every such Leaf.  The strict [<]
    and [>] of the partition and the [<=] of the walk agree on the
    training data. *)
Theorem training_prediction_from_own_leaf (X : list (list T)) (y : list nat) (d : Z)
    (self : DecisionTreeClassifier T) (x : list T) (lbl : nat) :
  fit X y d = Some (Ok self) ->
  length y = length X ->
  Forall (fun row => length row = shape1 X) X ->
  In (x, lbl) (combine X y) ->
  let builder := mkSelf (n_classes self) (n_features self) (max_depth self) None in
  (exists X' y' d',
      calls builder (mkCall X y 0) (mkCall X' y' d')
      /\ In (x, lbl) (combine X' y')
      /\ build_tree builder X' y' d'
         = Some (Ok (Leaf (argmax (class_counts (n_classes self) y'))))
      /\ predict self [x] = Ok [argmax (class_counts (n_classes self) y')])
  /\ (forall X' y' d' c,
        calls builder (mkCall X y 0) (mkCall X' y' d') ->
        In x X' ->
        build_tree builder X' y' d' = Some (Ok (Leaf c)) ->
        predict self [x] = Ok [c]).
Proof.
  intros Hfit Hy Hrect Hin.
  destruct (fit_inv _ _ _ Hfit) as (m & node & Hm & Hb & ->).
  cbn [n_classes n_features max_depth].
  assert (Hk : Forall (fun c => c < m + 1) y) by (now apply np_max_bound).
  assert (Hw : Forall (fun row => shape1 X <= length row) X).
  { eapply Forall_impl; [|exact Hrect]. cbn. intros row ->. lia. }
  split.
  - destruct (@training_path T num laws le_laws _ (mkSelf (m + 1) (shape1 X) d None)
                X y 0%Z node Hb Hy Hk Hw x lbl Hin)
      as (X' & y' & d' & Hc & Hin' & Hleaf & Hdesc).
    exists X', y', d'. split; [exact Hc|]. split; [exact Hin'|].
    split; [exact Hleaf|].
    unfold predict. cbn [root map_result]. rewrite Hdesc. reflexivity.
  - intros X' y' d' c Hc Hx Hleaf.
    unfold predict. cbn [root map_result].
    rewrite (@leaf_call_path T num laws le_laws _ (mkSelf (m + 1) (shape1 X) d None)
               X y 0%Z node Hb Hy Hk Hw x X' y' d' c Hc Hx Hleaf).
    reflexivity.
Qed.

Lemma count_class_In (y : list nat) (c : nat) : (0 < count_class y c)%Z -> In c y.
Proof.
  unfold count_class. intros H. apply (count_occ_In Nat.eq_dec). lia.
Qed.

Lemma majority_In (k : nat) (y : list nat) :
  y <> [] -> Forall (fun c => c < k) y -> In (argmax (class_counts k y)) y.
Proof.
  intros Hne Hk. destruct y as [|c0 y]; [congruence|].
  assert (Hc0 : c0 < k) by (now inversion Hk).
  destruct (@majority_spec k (c0 :: y)) as (_ & Hmax & _); [lia|].
  apply count_class_In. specialize (Hmax c0 Hc0).
  assert (0 < count_class (c0 :: y) c0)%Z; [|lia].
  unfold count_class. simpl. destruct (Nat.eq_dec c0 c0); [lia | congruence].
Qed.

(** In exact arithmetic every leaf is built on a non-empty subset, so
    every label that [predict] returns, for any observation, is the label
    of some training observation. *)
Theorem predicted_label_occurs_in_training (X : list (list T)) (y : list nat) (d : Z)
    (self : DecisionTreeClassifier T) (X' : list (list T)) (labels : list nat) :
  fit X y d = Some (Ok self) ->
  length y = length X ->
  predict self X' = Ok labels ->
  Forall (fun c => In c y) labels.
Proof.
  intros Hfit Hy Hp.
  destruct (fit_inv _ _ _ Hfit) as (m & node & Hm & Hb & ->).
  pose proof Hb as Htr. apply build_tree_rec_tree in Htr.
  destruct Htr as (tr & -> & _ & _).
  set (self0 := mkSelf (m + 1) (shape1 X) d (@None (Node T))) in *.
  set (Inv := fun (X0 : list (list T)) (y0 : list nat) =>
                X0 <> [] /\ length y0 = length X0
                /\ Forall (fun c => c < n_classes self0) y0 /\ incl y0 y).
  assert (Hall : all_classes (fun c => In c y) tr).
  { eapply (@build_tree_rec_all_classes T num self0 Inv); [| | |exact Hb].
    - intros X0 y0 (Hne & Hy0 & Hk0 & Hincl). apply Hincl.
      apply majority_In; [|exact Hk0].
      destruct y0; [destruct X0; [congruence | discriminate] | discriminate].
    - intros X0 y0 f t (Hne & Hy0 & Hk0 & Hincl) Hs.
      destruct (best_node_split_separates _ _ Hy0 Hk0 Hs) as (Hlo & Hhi & _).
      assert (HX0 : length X0 = length (column X0 f)) by (now rewrite column_length).
      unfold Inv, left_subset, right_subset. repeat split.
      + exact (@select_nonempty T _ (fun v => ltb v t) (column X0 f) X0 HX0 Hlo).
      + symmetry. now apply select_aligned.
      + now apply select_below.
      + intros c Hc. apply Hincl. eapply select_In; eauto.
      + exact (@select_nonempty T _ (fun v => ltb t v) (column X0 f) X0 HX0 Hhi).
      + symmetry. now apply select_aligned.
      + now apply select_below.
      + intros c Hc. apply Hincl. eapply select_In; eauto.
    - unfold Inv. repeat split.
      + destruct X; [destruct y; [discriminate Hm | discriminate Hy] | discriminate].
      + exact Hy.
      + now apply np_max_bound.
      + apply incl_refl. }
  unfold predict in Hp. cbn [root] in Hp.
  eapply (@map_result_Forall _ _ (descend (node_of tr)) (fun c => In c y));
    [|exact Hp].
  intros row c Hc. rewrite descend_node_of in Hc.
  exact (@traverse_class T num (fun c => In c y) tr row c Hall Hc).
Qed.

End TrainingFit.

Lemma training_prediction_from_own_leaf_witness :
  let self := mkSelf 2 1 1 (Some (Split 0 (5 # 2)%Q 0 (Leaf 0) (Leaf 1))) in
  let builder := mkSelf (n_classes self) (n_features self) (max_depth self) None in
  (exists X' y' d',
      calls builder (mkCall Scenario.X4_exact Scenario.y4 0) (mkCall X' y' d')
      /\ In ([3 # 1]%Q, 1) (combine X' y')
      /\ build_tree builder X' y' d'
         = Some (Ok (Leaf (argmax (class_counts (n_classes self) y'))))
      /\ predict self [[3 # 1]%Q] = Ok [argmax (class_counts (n_classes self) y')])
  /\ (forall X' y' d' c,
        calls builder (mkCall Scenario.X4_exact Scenario.y4 0) (mkCall X' y' d') ->
        In [3 # 1]%Q X' ->
        build_tree builder X' y' d' = Some (Ok (Leaf c)) ->
        predict self [[3 # 1]%Q] = Ok [c]).
Proof.
  apply (@training_prediction_from_own_leaf Q exact exact_order exact_le
           Scenario.X4_exact Scenario.y4 1
           (mkSelf 2 1 1 (Some (Split 0 (5 # 2)%Q 0 (Leaf 0) (Leaf 1))))
           [3 # 1]%Q 1).
  - vm_compute. reflexivity.
  - reflexivity.
  - repeat constructor.
  - simpl. auto.
Defined.

Lemma predicted_label_occurs_in_training_witness :
  Forall (fun c => In c Scenario.y4) [0; 1].
Proof.
  apply (@predicted_label_occurs_in_training Q exact exact_order
           Scenario.X4_exact Scenario.y4 1
           (mkSelf 2 1 1 (Some (Split 0 (5 # 2)%Q 0 (Leaf 0) (Leaf 1))))
           [[3 # 2]; [7 # 2]]%Q).
  - vm_compute. reflexivity.
  - reflexivity.
  - vm_compute. reflexivity.
Defined.

(* ------------------------------------------------------------------ *)
(** ** Subsets that are not split *)

Lemma flat_map_nil {A B : Type} (h : A -> list B) (l : list A) :
  (forall a, In a l -> h a = []) -> flat_map h l = [].
Proof.
  induction l as [|a l IH]; simpl; intros H; [reflexivity|].
  rewrite (H a) by auto. apply IH. auto.
Qed.

Section NoSplit.

Context {T : Type} {num : Number T}.

(** A call whose search finds nothing returns a Leaf. *)
Lemma build_tree_leaf (self : DecisionTreeClassifier T) X y depth :
  best_node_split self X y = Ok (None, None) ->
  build_tree self X y depth
  = Some (Ok (Leaf (argmax (class_counts (n_classes self) y)))).
Proof.
  intros H. unfold build_tree.
  destruct (Z.to_nat (max_depth self - depth)); simpl;
    destruct (depth <? max_depth self)%Z; rewrite ?H; reflexivity.
Qed.

Lemma pick_fold_unchanged (cs : list (Candidate T)) (start : Best T) :
  (forall c, In c cs -> ltb (cand_gini c) (best_gini start) = false) ->
  fold_left pick cs start = start.
Proof.
  induction cs as [|c cs IH]; simpl; intros H; [reflexivity|].
  unfold pick at 2. rewrite (H c) by auto. apply IH. auto.
Qed.

Lemma candidates_nil (self : DecisionTreeClassifier T) X y :
  (length X <= 1
   \/ forall f a b, In a (column X f) -> In b (column X f) -> eqb a b = true) ->
  candidates self X y = [].
Proof.
  intros H. unfold candidates. apply flat_map_nil. intros f _.
  unfold feature_candidates. apply flat_map_nil. intros i Hi.
  apply in_seq in Hi. destruct H as [H|H]; [lia|].
  unfold candidate_at.
  assert (Hin : forall j, j < length X -> In (nth j (sorted_values X f) zero) (column X f)).
  { intros j Hj. apply (Permutation_in _ (sorted_values_perm X f)).
    apply nth_In. rewrite sorted_values_length. exact Hj. }
  rewrite (H f); [reflexivity | apply Hin; lia | apply Hin; lia].
Qed.

(** When the dataset has at most one observation, or every feature holds
    one value only, [fit] returns a single Leaf of the most frequent
    class, whatever [max_depth] is. *)
Theorem fit_without_candidates (X : list (list T)) (y : list nat) (d : Z) :
  y <> [] ->
  length y = length X ->
  (length X <= 1
   \/ forall f a b, In a (column X f) -> In b (column X f) -> eqb a b = true) ->
  exists m,
    np_max y = Ok m
    /\ fit X y d
       = Some (Ok (mkSelf (m + 1) (shape1 X) d
                     (Some (Leaf (argmax (class_counts (m + 1) y)))))).
Proof.
  intros Hne Hy Hconst. unfold fit.
  destruct (np_max y) as [m|e] eqn:Hm; [|destruct y; [congruence | discriminate]].
  exists m. split; [reflexivity|].
  rewrite build_tree_leaf; [reflexivity|].
  rewrite best_node_split_spec by (try exact Hy; now apply np_max_bound).
  unfold first_best. now rewrite candidates_nil.
Qed.

End NoSplit.

Lemma fit_without_candidates_witness :
  exists m,
    np_max [0; 1; 1] = Ok m
    /\ fit [[2.0%float]; [2.0%float]; [2.0%float]] [0; 1; 1] 5
       = Some (Ok (mkSelf (m + 1) 1 5
                     (Some (Leaf (argmax (class_counts (m + 1) [0; 1; 1])))))).
Proof.
  apply (@fit_without_candidates float binary64
           [[2.0%float]; [2.0%float]; [2.0%float]] [0; 1; 1] 5).
  - discriminate.
  - reflexivity.
  - right. intros [|[|f]] a b Ha Hb; simpl in Ha, Hb;
      destruct Ha as [<-|[<-|[<-|[]]]], Hb as [<-|[<-|[<-|[]]]]; reflexivity.
Defined.

(** *** Labels of one class, in rational arithmetic *)

Lemma pure_count (y : list nat) (c j : nat) :
  Forall (fun l => l = c) y ->
  count_class y j = if Nat.eqb j c then Z.of_nat (length y) else 0%Z.
Proof.
  unfold count_class. induction 1 as [|l y -> _ IH]; simpl.
  - now destruct (Nat.eqb j c).
  - destruct (Nat.eq_dec c j) as [<-|Hne].
    + rewrite Nat.eqb_refl in *. lia.
    + destruct (Nat.eqb_spec j c); [congruence | exact IH].
Qed.

Lemma sum_indicator (h : nat -> Q) (c : nat) :
  (forall j, (h j == if Nat.eqb j c then 1 else 0)%Q) ->
  forall k s acc,
    (fold_left Qplus (map h (seq s k)) acc
     == acc + (if (s <=? c) && (c <? s + k) then 1 else 0))%Q.
Proof.
  intros Hh.
  assert (Hind : forall s k b,
             ((s <=? c) && (c <? s + k) = b) ->
             (s <= c < s + k <-> b = true)).
  { intros s k b <-. rewrite andb_true_iff, Nat.leb_le, Nat.ltb_lt. tauto. }
  induction k as [|k IH]; intros s acc.
  - cbn [seq map fold_left].
    destruct ((s <=? c) && (c <? s + 0)) eqn:E; [|cbv iota; ring].
    apply (Hind s 0 true) in E. lia.
  - cbn [seq map fold_left]. rewrite IH, Hh.
    destruct ((S s <=? c) && (c <? S s + k)) eqn:E1;
      destruct ((s <=? c) && (c <? s + S k)) eqn:E2;
      destruct (Nat.eqb_spec s c) as [Hsc|Hsc];
      cbv iota; try ring; exfalso;
      pose proof (Hind _ _ _ E1) as H1; pose proof (Hind _ _ _ E2) as H2;
      destruct H1 as [H1a H1b]; destruct H2 as [H2a H2b];
      try (specialize (H1b eq_refl)); try (specialize (H2b eq_refl));
      try (assert (true = false -> False) by discriminate);
      try (assert (S s <= c < S s + k -> False) by (intros Hx; specialize (H1a Hx); discriminate));
      try (assert (s <= c < s + S k -> False) by (intros Hx; specialize (H2a Hx); discriminate));
      lia.
Qed.

(** *** [np.sum] in rational arithmetic *)

Lemma fold_left_qsum (l : list Q) (acc : Q) :
  (fold_left Qplus l acc == acc + qsum l)%Q.
Proof.
  revert acc. induction l as [|x l IH]; intros acc; simpl; [ring|].
  rewrite IH. ring.
Qed.

Lemma qsum_app (l1 l2 : list Q) : (qsum (l1 ++ l2) == qsum l1 + qsum l2)%Q.
Proof.
  induction l1 as [|x l1 IH]; simpl; [ring|]. rewrite IH. ring.
Qed.

Lemma qsum_split (n : nat) (l : list Q) :
  (qsum l == qsum (firstn n l) + qsum (skipn n l))%Q.
Proof. now rewrite <- qsum_app, firstn_skipn. Qed.

Lemma add_lanes_qsum (r a : list Q) :
  length a <= length r ->
  length (add_lanes r a) = length r
  /\ (qsum (add_lanes r a) == qsum r + qsum a)%Q.
Proof.
  revert a. induction r as [|x r IH]; intros [|z a] H; simpl in *; try lia;
    try (split; [reflexivity | ring]).
  destruct (IH a) as [Hlen Hsum]; [lia|]. split; [now rewrite Hlen|].
  rewrite Hsum. ring.
Qed.

Lemma lanes_qsum (blocks : nat) :
  forall r a : list Q,
    length r = 8 ->
    length (fst (lanes blocks r a)) = 8
    /\ (qsum (fst (lanes blocks r a)) + qsum (snd (lanes blocks r a))
        == qsum r + qsum a)%Q.
Proof.
  induction blocks as [|blocks IH]; intros r a Hr; simpl.
  - split; [exact Hr | reflexivity].
  - destruct (@add_lanes_qsum r (firstn 8 a)) as [Hlen Hsum];
      [rewrite length_firstn; lia|].
    destruct (IH (add_lanes r (firstn 8 a)) (skipn 8 a)) as [Hlen' Hsum'];
      [congruence|].
    split; [exact Hlen'|]. rewrite Hsum', Hsum, (qsum_split 8 a). ring.
Qed.

Lemma sum_block_qsum (a : list Q) : 8 <= length a -> (sum_block a == qsum a)%Q.
Proof.
  intros Hn. unfold sum_block.
  destruct (@lanes_qsum (length a / 8 - 1) (firstn 8 a) (skipn 8 a)) as [Hlen Hsum];
    [rewrite length_firstn; lia|].
  destruct (lanes (length a / 8 - 1) (firstn 8 a) (skipn 8 a)) as [r rest].
  cbn [fst snd] in Hlen, Hsum.
  destruct r as [|r0 [|r1 [|r2 [|r3 [|r4 [|r5 [|r6 [|r7 [|r8 r]]]]]]]]];
    try discriminate Hlen.
  rewrite fold_left_qsum, (qsum_split 8 a), <- Hsum. simpl. ring.
Qed.

Lemma pairwise_sum_qsum (fuel : nat) :
  forall a : list Q, length a <= fuel -> (pairwise_sum fuel a == qsum a)%Q.
Proof.
  induction fuel as [|fuel IH]; intros a Hlen.
  - destruct a; [|simpl in Hlen; lia]. simpl. reflexivity.
  - cbn [pairwise_sum].
    destruct (Nat.ltb_spec (length a) 8) as [H8|H8].
    { rewrite fold_left_qsum. unfold zero. simpl. ring. }
    destruct (Nat.leb_spec (length a) 128) as [H128|H128];
      [now apply sum_block_qsum|].
    set (n2 := length a / 2 - (length a / 2) mod 8).
    assert (Hhalf : length a / 2 < length a) by (apply Nat.div_lt; lia).
    assert (Hmod : (length a / 2) mod 8 < 8) by (apply Nat.mod_upper_bound; lia).
    assert (Hbig : 64 <= length a / 2).
    { change 64 with (128 / 2). apply Nat.Div0.div_le_mono. lia. }
    rewrite !IH.
    + rewrite (qsum_split n2 a). simpl. reflexivity.
    + rewrite length_skipn. lia.
    + rewrite length_firstn. lia.
Qed.

Lemma np_sum_exact (a : list Q) : (np_sum a == fold_left Qplus a 0)%Q.
Proof.
  unfold np_sum. rewrite pairwise_sum_qsum by lia. rewrite fold_left_qsum. ring.
Qed.

(** The Gini impurity of a non-empty subset of one class is zero. *)
Lemma gini_pure (k : nat) (y : list nat) (c : nat) :
  Forall (fun l => l = c) y -> y <> [] -> c < k ->
  (gini_index (class_counts k y) (Z.of_nat (length y)) == 0)%Q.
Proof.
  intros Hpure Hne Hc. unfold gini_index. cbn [sub exact].
  rewrite np_sum_exact. unfold class_counts.
  rewrite map_map.
  rewrite (sum_indicator
             (fun j => let p := div (of_Z (count_class y j)) (of_Z (Z.of_nat (length y)))
                       in mul p p) c).
  - replace ((0 <=? c) && (c <? 0 + k)) with true.
    + unfold one, zero. simpl. ring.
    + symmetry. apply andb_true_iff. split; [apply Nat.leb_le | apply Nat.ltb_lt]; lia.
  - intros j. cbn zeta. rewrite (pure_count j Hpure). simpl.
    assert (Hn : ~ (inject_Z (Z.of_nat (length y)) == 0)%Q).
    { intros E. destruct y; [congruence|]. unfold Qeq in E. simpl in E. lia. }
    destruct (Nat.eqb j c).
    + field. exact Hn.
    + change (inject_Z 0) with 0%Q. field. exact Hn.
Qed.

Lemma pure_firstn (y : list nat) (c i : nat) :
  Forall (fun l => l = c) y -> Forall (fun l => l = c) (firstn i y).
Proof.
  rewrite !Forall_forall. intros H l Hl. apply H.
  rewrite <- (firstn_skipn i y). apply in_or_app. now left.
Qed.

Lemma pure_skipn (y : list nat) (c i : nat) :
  Forall (fun l => l = c) y -> Forall (fun l => l = c) (skipn i y).
Proof.
  rewrite !Forall_forall. intros H l Hl. apply H.
  rewrite <- (firstn_skipn i y). apply in_or_app. now right.
Qed.

(** Cutting a subset of one class gives two subsets of impurity zero. *)
Lemma cut_gini_pure (k : nat) (labels : list nat) (c i : nat) :
  Forall (fun l => l = c) labels -> c < k -> 1 <= i < length labels ->
  (cut_gini k labels i == 0)%Q.
Proof.
  intros Hpure Hc Hi. unfold cut_gini, weighted_gini.
  assert (Hl : length (firstn i labels) = i) by (rewrite length_firstn; lia).
  assert (Hr : length (skipn i labels) = length labels - i) by apply length_skipn.
  assert (G1 := @gini_pure k (firstn i labels) c (pure_firstn i Hpure)).
  assert (G2 := @gini_pure k (skipn i labels) c (pure_skipn i Hpure)).
  rewrite Hl in G1. rewrite Hr in G2.
  replace (Z.of_nat (length labels) - Z.of_nat i)%Z
    with (Z.of_nat (length labels - i)) by lia.
  simpl. rewrite G1, G2.
  - ring.
  - intros E. apply (f_equal (@length nat)) in E. simpl in E. lia.
  - exact Hc.
  - intros E. apply (f_equal (@length nat)) in E. simpl in E. lia.
  - exact Hc.
Qed.

(** In rational arithmetic, [fit] on labels that are all of one class
    returns a single Leaf of that class, whatever the observations and
    [max_depth] are. *)
Theorem fit_pure_labels (X : list (list Q)) (y : list nat) (d : Z) (c : nat) :
  y <> [] ->
  length y = length X ->
  Forall (fun l => l = c) y ->
  fit X y d = Some (Ok (mkSelf (c + 1) (shape1 X) d (Some (Leaf c)))).
Proof.
  intros Hne Hy Hpure.
  assert (Hk : Forall (fun l => l < c + 1) y)
    by (eapply Forall_impl; [|exact Hpure]; simpl; intros; lia).
  assert (Hm : np_max y = Ok c).
  { destruct y as [|l0 y]; [congruence|]. simpl. f_equal.
    inversion Hpure as [|? ? E0 Hrest]; subst. clear -Hrest.
    induction Hrest as [|l1 y E1 _ IH]; simpl; [reflexivity|].
    subst l1. now rewrite Nat.max_id. }
  assert (Hmaj : argmax (class_counts (c + 1) y) = c).
  { pose proof (majority_In Hne Hk) as Hin.
    rewrite Forall_forall in Hpure. now apply Hpure. }
  unfold fit. rewrite Hm.
  rewrite build_tree_leaf; [cbn [n_classes]; now rewrite Hmaj|].
  rewrite best_node_split_spec by assumption.
  unfold first_best. rewrite pick_fold_unchanged; [reflexivity|].
  intros cand Hcand. cbn [best_gini].
  unfold candidates in Hcand. apply in_flat_map in Hcand.
  destruct Hcand as (f & _ & Hcand). unfold feature_candidates in Hcand.
  apply in_flat_map in Hcand. destruct Hcand as (i & Hi & Hcand).
  apply in_seq in Hi. unfold candidate_at in Hcand.
  destruct (eqb _ _); [destruct Hcand|]. destruct Hcand as [<-|[]]. cbn [cand_gini].
  assert (Hsorted : Forall (fun l => l = c) (sorted_labels X y f)).
  { apply Forall_forall. intros l Hl. rewrite Forall_forall in Hpure. apply Hpure.
    now apply (Permutation_in _ (@sorted_labels_perm Q exact X y f Hy)). }
  assert (Hcut : (cut_gini (c + 1) (sorted_labels X y f) i == 0)%Q).
  { apply (cut_gini_pure Hsorted); [lia|]. rewrite sorted_labels_length. lia. }
  assert (Hparent : (parent_gini (mkSelf (c + 1) (shape1 X) d None) X y == 0)%Q).
  { unfold parent_gini. cbn [n_classes]. rewrite <- Hy.
    apply (gini_pure Hpure Hne). lia. }
  simpl ltb. apply negb_false_iff. apply Qle_bool_iff.
  cbn [n_classes]. rewrite Hcut, Hparent. apply Qle_refl.
Qed.

Lemma fit_pure_labels_witness :
  fit [[1 # 1]; [2 # 1]]%Q [1; 1] 3
  = Some (Ok (mkSelf (1 + 1) (shape1 [[1 # 1]; [2 # 1]]%Q) 3 (Some (Leaf 1)))).
Proof.
  apply fit_pure_labels.
  - discriminate.
  - reflexivity.
  - repeat constructor.
Defined.

(* ------------------------------------------------------------------ *)
(** ** Rock-paper-scissors *)

Lemma and_then_Return {E A B : Type} (e : outcome E A) (k : A -> outcome E B) (b : B) :
  and_then e k = Return b -> exists a, e = Return a /\ k a = Return b.
Proof.
  destruct e as [a|x]; simpl; intros H; [eauto | discriminate].
Qed.

Ltac inv_then H :=
  let a := fresh "a" in
  let E := fresh "E" in
  apply and_then_Return in H; destruct H as (a & E & H).

Tactic Notation "inv_then_as" hyp(H) ident(a) ident(E) :=
  apply and_then_Return in H; destruct H as (a & E & H).

(** A property of the loop's variables, indexed by the number of passes,
    that every pass carries on holds when the loop ends. *)
Lemma for_range_invariant {E A St : Type} (P : nat -> St -> Prop)
    (body : St -> A -> outcome E St) :
  forall (l : list A) (g : nat) (s r : St),
    P g s ->
    (forall g s a s', P g s -> body s a = Return s' -> P (S g) s') ->
    for_range l body s = Return r -> P (g + length l) r.
Proof.
  induction l as [|a l IH]; simpl; intros g s r Hs Hbody H.
  - injection H as <-. now rewrite Nat.add_0_r.
  - inv_then H. rewrite <- Nat.add_succ_comm. eapply IH; eauto.
Qed.

Lemma set_nth_length {A : Type} (l : list A) (i : nat) (v : A) :
  length (set_nth l i v) = length l.
Proof.
  revert i. induction l as [|x l IH]; intros [|i]; simpl; auto.
Qed.

Lemma set_nth_map {A B : Type} (f : A -> B) (l : list A) (i : nat) (v : A) :
  set_nth (map f l) i (f v) = map f (set_nth l i v).
Proof.
  revert i. induction l as [|x l IH]; intros [|i]; simpl; try reflexivity.
  now rewrite IH.
Qed.

Lemma set_nth_sum (l : list nat) (i x v : nat) :
  nth_error l i = Some x -> list_sum (set_nth l i v) + x = list_sum l + v.
Proof.
  revert i. induction l as [|z l IH]; intros [|i]; simpl; try discriminate.
  - intros H. injection H as ->. lia.
  - intros H. specialize (IH i H). lia.
Qed.

Lemma set_nth_Forall {A : Type} (P : A -> Prop) (l : list A) (i : nat) (v : A) :
  Forall P l -> P v -> Forall P (set_nth l i v).
Proof.
  intros Hl Hv. revert i. induction Hl as [|x l Hx Hl IH]; intros [|i]; simpl;
    constructor; auto.
Qed.

Module RPSFacts.

Import RPS.

Lemma getkey_beats_other (a : string) :
  a <> "R"%string -> a <> "P"%string -> a <> "S"%string ->
  getkey beats a = Throw KeyError.
Proof.
  intros HR HP HS. unfold getkey, beats. cbn -[String.eqb].
  rewrite (String.eqb_sym "R" a), (String.eqb_sym "P" a), (String.eqb_sym "S" a).
  apply String.eqb_neq in HR, HP, HS. now rewrite HR, HP, HS.
Qed.

Lemma member_other (a : string) :
  a <> "R"%string -> a <> "P"%string -> a <> "S"%string ->
  member a ["R"; "P"; "S"]%string = false.
Proof.
  intros HR HP HS. unfold member. cbn -[String.eqb].
  apply String.eqb_neq in HR, HP, HS. now rewrite HR, HP, HS.
Qed.

Lemma action_cases (a : string) :
  {a = "R"%string \/ a = "P"%string \/ a = "S"%string}
  + {a <> "R"%string /\ a <> "P"%string /\ a <> "S"%string}.
Proof.
  destruct (String.eqb_spec a "R"); [left; tauto|].
  destruct (String.eqb_spec a "P"); [left; tauto|].
  destruct (String.eqb_spec a "S"); [left; tauto|].
  right; tauto.
Qed.

Lemma member_action (a : string) :
  member a ["R"; "P"; "S"]%string = true
  <-> (a = "R" \/ a = "P" \/ a = "S")%string.
Proof.
  destruct (action_cases a) as [H|(HR & HP & HS)].
  - split; [tauto|]. intros _. now destruct H as [->|[->| ->]].
  - rewrite member_other by assumption. split; [discriminate | tauto].
Qed.

Lemma member_In (x : string) (l : list string) :
  member x l = true <-> In x l.
Proof.
  unfold member. rewrite existsb_exists. split.
  - intros (y & Hy & E). apply String.eqb_eq in E. now subst.
  - intros H. exists x. split; [assumption | apply String.eqb_refl].
Qed.

Lemma compare_other_A (action_A action_B : string) :
  member action_A ["R"; "P"; "S"]%string = false ->
  compare action_A action_B = Throw KeyError.
Proof.
  intros H. destruct (action_cases action_A) as [HA|(HR & HP & HS)].
  - apply member_action in HA. congruence.
  - unfold compare. now rewrite getkey_beats_other.
Qed.

Lemma compare_other_B (action_A action_B : string) :
  member action_A ["R"; "P"; "S"]%string = true ->
  member action_B ["R"; "P"; "S"]%string = false ->
  compare action_A action_B = Throw KeyError.
Proof.
  intros HA HB. apply member_action in HA.
  destruct (action_cases action_B) as [H|(HR & HP & HS)].
  - apply member_action in H. congruence.
  - pose proof (proj2 (String.eqb_neq _ _) HR) as ER.
    pose proof (proj2 (String.eqb_neq _ _) HP) as EP.
    pose proof (proj2 (String.eqb_neq _ _) HS) as ES.
    destruct HA as [->|[->| ->]]; unfold compare;
      rewrite (getkey_beats_other HR HP HS); unfold getkey, beats;
      simpl find; cbn -[String.eqb]; rewrite ?ER, ?EP, ?ES; reflexivity.
Qed.

(** [compare] on two of the actions R, P and S: the result is 'draw'
    exactly when the actions are equal, and one player wins exactly when
    the other wins with the actions exchanged; with any other action it
    raises a key error. *)
Theorem compare_outcome (action_A action_B : string) :
  if member action_A ["R"; "P"; "S"]%string && member action_B ["R"; "P"; "S"]%string
  then exists winner,
      compare action_A action_B = Return winner
      /\ In winner ["A"; "B"; "draw"]%string
      /\ (winner = "draw"%string <-> action_A = action_B)
      /\ (winner = "A"%string <-> compare action_B action_A = Return "B"%string)
      /\ (winner = "B"%string <-> compare action_B action_A = Return "A"%string)
  else compare action_A action_B = Throw KeyError.
Proof.
  destruct (member action_A ["R"; "P"; "S"]%string) eqn:HA;
    [|now apply compare_other_A].
  destruct (member action_B ["R"; "P"; "S"]%string) eqn:HB;
    [|now apply compare_other_B].
  apply member_action in HA, HB. cbn [andb].
  destruct HA as [->|[->| ->]]; destruct HB as [->|[->| ->]];
    eexists; (split; [reflexivity|]); (split; [simpl; tauto|]);
    repeat split; intros H; vm_compute in H; try discriminate H; reflexivity.
Qed.

(** Against a predicted action of player B, [simulate] gives player A the
    action [beats[predicted][0]]: the action that the predicted one
    beats.  When the prediction is right, player B wins the game. *)
Theorem reply_loses (predicted_state_B : string) :
  if member predicted_state_B ["R"; "P"; "S"]%string
  then exists action_A,
      reply predicted_state_B = Return action_A
      /\ compare action_A predicted_state_B = Return "B"%string
      /\ compare predicted_state_B action_A = Return "A"%string
  else reply predicted_state_B = Throw KeyError.
Proof.
  destruct (action_cases predicted_state_B) as [H|(HR & HP & HS)].
  - destruct H as [->|[->| ->]]; eexists; repeat split; reflexivity.
  - rewrite member_other by assumption. unfold reply.
    now rewrite getkey_beats_other.
Qed.

End RPSFacts.

Module SimulateFacts.

Import RPS.

Lemma compare_winner (action_A action_B winner : string) :
  compare action_A action_B = Return winner ->
  In winner ["A"; "B"; "draw"]%string.
Proof.
  unfold compare. intros H. inv_then H.
  destruct (member action_B a).
  - injection H as <-. simpl; tauto.
  - inv_then H. destruct (member action_A a0); injection H as <-; simpl; tauto.
Qed.

Section Counts.

Context {T : Type} {num : Number T}.

Lemma counts_of_zeros :
  counts_of (repeat (repeat 0 3) 3) (repeat (repeat (zero (T:=T)) 3) 3)
  /\ total (repeat (repeat 0 3) 3) = 0.
Proof.
  split; [|reflexivity]. split; [reflexivity|]. split; [reflexivity|].
  repeat constructor.
Qed.

Lemma total_set_nth (C : list (list nat)) (i j k : nat) (r : list nat) :
  nth_error C i = Some r -> nth_error r j = Some k ->
  total (set_nth C i (set_nth r j (S k))) = total C + 1.
Proof.
  intros Hr Hk. unfold total.
  rewrite <- (set_nth_map (@list_sum)).
  pose proof (@set_nth_sum (map (@list_sum) C) i (list_sum r)
                (list_sum (set_nth r j (S k)))) as H1.
  rewrite nth_error_map, Hr in H1. specialize (H1 eq_refl).
  pose proof (@set_nth_sum r j k (S k) Hk) as H2. lia.
Qed.

Lemma incr_cell_counts (C : list (list nat)) (m m' : list (list T)) (i j : nat) :
  counts_of C m -> incr_cell m i j = Return m' ->
  exists C', counts_of C' m' /\ total C' = total C + 1.
Proof.
  intros (-> & HC & Hrows) H. unfold incr_cell, getrow in H.
  rewrite nth_error_map in H. destruct (nth_error C i) as [r|] eqn:Hr; [|discriminate].
  cbn [option_map and_then] in H. rewrite nth_error_map in H.
  destruct (nth_error r j) as [k|] eqn:Hk; [|discriminate].
  cbn [option_map] in H. injection H as <-.
  exists (set_nth C i (set_nth r j (S k))). split; [|now apply total_set_nth].
  split; [|split].
  - change (add (counted k) one) with (counted (T:=T) (S k)).
    now rewrite (set_nth_map counted), (set_nth_map (map counted)).
  - now rewrite set_nth_length.
  - apply set_nth_Forall; [assumption|]. rewrite set_nth_length.
    rewrite Forall_forall in Hrows. apply Hrows. eapply nth_error_In; eauto.
Qed.

Lemma incr_cell_returns (C : list (list nat)) (m : list (list T)) (i j : nat) :
  counts_of C m -> i < 3 -> j < 3 -> exists m', incr_cell m i j = Return m'.
Proof.
  intros (-> & HC & Hrows) Hi Hj. unfold incr_cell, getrow.
  rewrite nth_error_map.
  destruct (nth_error C i) as [r|] eqn:Hr;
    [|apply nth_error_None in Hr; lia].
  cbn [option_map and_then]. rewrite nth_error_map.
  assert (Hlen : length r = 3).
  { rewrite Forall_forall in Hrows. apply Hrows. eapply nth_error_In; eauto. }
  destruct (nth_error r j) as [k|] eqn:Hk;
    [|apply nth_error_None in Hk; lia].
  cbn [option_map]. eauto.
Qed.

Lemma getrow_returns (m : list (list T)) (i : nat) :
  i < length m -> exists row, getrow m i = Return row.
Proof.
  intros Hi. unfold getrow. destruct (nth_error m i) eqn:E; [eauto|].
  apply nth_error_None in E. lia.
Qed.

Variable choice : nat -> list string -> option (list T) -> outcome error string.

Lemma play_after_games (states : list string) (states_to_indices : list (string * nat))
    (transition_prob_A : option (list (list T))) (transition_prob_B : list (list T))
    (learn verbose : bool) (g game : nat) (st st' : Loop) :
  after_games learn verbose g st ->
  play choice states states_to_indices transition_prob_A transition_prob_B
    learn verbose st game = Return st' ->
  after_games learn verbose (S g) st'.
Proof.
  intros (Hlen & Hall & Hpr & C & HC & Htot) H. unfold play in H.
  inv_then_as H winner Ew. pose proof (compare_winner _ _ Ew) as Hw.
  inv_then_as H state_A_index EA. inv_then_as H state_B_index EB.
  inv_then_as H st1 E1.
  assert (Hout : length (outcomes st ++ [winner]) = S g)
    by (rewrite length_app; simpl; lia).
  assert (Hall' : Forall (fun w => In w ["A"; "B"; "draw"]%string)
                    (outcomes st ++ [winner]))
    by (apply Forall_app; split; [assumption | now constructor]).
  assert (Hpr' : length (if verbose
                         then printed st
                              ++ [game_line game (state_A st) (state_B st) winner]
                         else printed st) = if verbose then S g else 0)
    by (destruct verbose; [rewrite length_app; simpl; lia | assumption]).
  assert (Hst1 : counts_B st1 = counts_B st
                 /\ (learn = true -> exists p, prev_state_B_index st1 = Some p)).
  { revert E1.
    destruct learn; [destruct (prev_state_B_index st) as [p|] eqn:Hp|]; intros E1.
    - injection E1 as <-. simpl. eauto.
    - do 4 inv_then E1. injection E1 as <-. simpl. eauto.
    - injection E1 as <-. simpl. split; [reflexivity | discriminate]. }
  destruct Hst1 as (Hcounts & Hprev). destruct learn.
  - destruct (Hprev eq_refl) as (p & Hp). rewrite Hp in H.
    inv_then_as H counts Ec. rewrite Hcounts in Ec.
    destruct (incr_cell_counts _ _ HC Ec) as (C' & HC' & Htot').
    do 5 inv_then H. injection H as <-. cbn [outcomes printed counts_B].
    repeat split; try assumption. exists C'. split; [assumption | lia].
  - destruct transition_prob_A as [prob_A|]; [|discriminate].
    do 4 inv_then H. injection H as <-. cbn [outcomes printed counts_B].
    repeat split; try assumption. exists C. rewrite Hcounts. now split.
Qed.

(** [simulate], when it returns: one outcome per game, each of 'A', 'B'
    and 'draw'; one printed line per game when [verbose], none otherwise;
    with [learn] a 3 x 3 matrix of counts in which every game has
    incremented one cell, so that its cells add up to [n_iter], and no
    matrix otherwise. *)
Theorem simulate_result (states : list string) (states_to_indices : list (string * nat))
    (transition_prob_A : option (list (list T))) (transition_prob_B : list (list T))
    (init_state_A init_state_B : string) (learn : bool) (n_iter : nat) (verbose : bool)
    (outs : list string) (counts : option (list (list T))) (lines : list string) :
  simulate choice states states_to_indices transition_prob_A transition_prob_B
    init_state_A init_state_B learn n_iter verbose = Return (outs, counts, lines) ->
  length outs = n_iter
  /\ Forall (fun w => In w ["A"; "B"; "draw"]%string) outs
  /\ length lines = (if verbose then n_iter else 0)
  /\ if learn
     then exists C, counts = Some (map (map counted) C)
                    /\ length C = 3
                    /\ Forall (fun row => length row = 3) C
                    /\ total C = n_iter
     else counts = None.
Proof.
  unfold simulate. intros H. inv_then H. rename a into st. injection H as <- <- <-.
  assert (Hinv : after_games learn verbose (0 + length (seq 1 n_iter)) st).
  { refine (@for_range_invariant _ _ _ (after_games learn verbose) _ _ 0 _ _ _ _ E).
    - destruct (@counts_of_zeros) as (Hz & Ht).
      repeat split; simpl; try constructor; try (now destruct verbose).
      eexists. split; [exact Hz|]. rewrite Ht. now destruct learn.
    - intros g s a s' Hs Hbody. eapply play_after_games; eauto. }
  rewrite length_seq in Hinv. simpl in Hinv.
  destruct Hinv as (Hlen & Hall & Hpr & C & (Hm & HC & Hrows) & Htot).
  repeat split; try assumption. destruct learn; [|reflexivity].
  exists C. rewrite Hm. repeat split; assumption.
Qed.

Lemma for_range_returns {E A St : Type} (P : St -> Prop)
    (body : St -> A -> outcome E St) :
  (forall s a, P s -> exists s', body s a = Return s' /\ P s') ->
  forall (l : list A) (s : St), P s -> exists r, for_range l body s = Return r /\ P r.
Proof.
  intros Hbody. induction l as [|a l IH]; simpl; intros s Hs; [eauto|].
  destruct (Hbody s a Hs) as (s' & E' & Hs'). rewrite E'. simpl. now apply IH.
Qed.

Lemma compare_returns (action_A action_B : string) :
  member action_A ["R"; "P"; "S"]%string = true ->
  member action_B ["R"; "P"; "S"]%string = true ->
  exists winner, compare action_A action_B = Return winner.
Proof.
  intros HA HB. apply RPSFacts.member_action in HA, HB.
  destruct HA as [->|[->| ->]]; destruct HB as [->|[->| ->]]; eexists; reflexivity.
Qed.

Lemma reply_returns (predicted_state_B : string) :
  member predicted_state_B ["R"; "P"; "S"]%string = true ->
  exists a, reply predicted_state_B = Return a
            /\ member a ["R"; "P"; "S"]%string = true.
Proof.
  intros H. apply RPSFacts.member_action in H.
  destruct H as [->|[->| ->]]; eexists; split; reflexivity.
Qed.

Lemma first_char_action (a : string) :
  member a ["R"; "P"; "S"]%string = true -> first_char a = Return a.
Proof.
  intros H. apply RPSFacts.member_action in H. now destruct H as [->|[->| ->]].
Qed.

Lemma play_learn_ignores_prob_A (states : list string)
    (states_to_indices : list (string * nat))
    (prob_A prob_A' : option (list (list T))) (transition_prob_B : list (list T))
    (verbose : bool) (st : Loop) (game : nat) :
  play choice states states_to_indices prob_A transition_prob_B true verbose st game
  = play choice states states_to_indices prob_A' transition_prob_B true verbose st game.
Proof.
  unfold play. destruct (compare (state_A st) (state_B st)); [|reflexivity].
  cbn [and_then]. destruct (getkey states_to_indices (state_A st)); [|reflexivity].
  cbn [and_then]. destruct (getkey states_to_indices (state_B st)); [|reflexivity].
  cbn [and_then]. destruct (prev_state_B_index st); [reflexivity|].
  destruct (choice (draws st) states None); [|reflexivity].
  cbn [and_then]. destruct (first_char a2); [|reflexivity].
  cbn [and_then]. destruct (getrow transition_prob_B a1); [|reflexivity].
  cbn [and_then]. destruct (choice (draws st + 1) states (Some a4)); reflexivity.
Qed.

Lemma for_range_ext {E A St : Type} (body body' : St -> A -> outcome E St) :
  (forall s a, body s a = body' s a) ->
  forall (l : list A) (s : St), for_range l body s = for_range l body' s.
Proof.
  intros H. induction l as [|a l IH]; intros s; simpl; [reflexivity|].
  rewrite H. destruct (body' s a); simpl; auto.
Qed.

(** With [learn] on, [simulate] never reads the transition matrix of
    player A: its result is the same for every [transition_prob_A],
    [None] included. *)
Theorem simulate_learn_ignores_prob_A (states : list string)
    (states_to_indices : list (string * nat))
    (prob_A prob_A' : option (list (list T))) (transition_prob_B : list (list T))
    (init_state_A init_state_B : string) (n_iter : nat) (verbose : bool) :
  simulate choice states states_to_indices prob_A transition_prob_B
    init_state_A init_state_B true n_iter verbose
  = simulate choice states states_to_indices prob_A' transition_prob_B
      init_state_A init_state_B true n_iter verbose.
Proof.
  unfold simulate. f_equal. apply for_range_ext. intros s a.
  apply play_learn_ignores_prob_A.
Qed.

(** With [learn] on, the first game already increments a cell: the one
    of a transition of player B from its initial action to that same
    action. *)
Theorem simulate_first_game_counts (states : list string)
    (states_to_indices : list (string * nat))
    (transition_prob_A : option (list (list T))) (transition_prob_B : list (list T))
    (init_state_A init_state_B : string) (verbose : bool)
    (outs : list string) (counts : option (list (list T))) (lines : list string) :
  simulate choice states states_to_indices transition_prob_A transition_prob_B
    init_state_A init_state_B true 1 verbose = Return (outs, counts, lines) ->
  exists i winner,
    getkey states_to_indices init_state_B = Return i
    /\ i < 3
    /\ compare init_state_A init_state_B = Return winner
    /\ outs = [winner]
    /\ counts = Some (set_nth (repeat (repeat zero 3) 3) i
                        (set_nth (repeat zero 3) i (add zero one))).
Proof.
  unfold simulate. intros H. inv_then_as H st Est. injection H as <- <- <-.
  cbn [seq for_range] in Est. inv_then_as Est st' Eplay. injection Est as <-.
  unfold play in Eplay. cbn [state_A state_B prev_state_B_index draws] in Eplay.
  inv_then_as Eplay winner Ew. inv_then_as Eplay ia Eia. inv_then_as Eplay ib Eib.
  inv_then_as Eplay st1 E1. do 4 inv_then E1. injection E1 as <-.
  cbn [prev_state_B_index counts_B] in Eplay. inv_then_as Eplay m Em.
  do 5 inv_then Eplay. injection Eplay as <-. cbn [outcomes counts_B].
  exists ib, winner. unfold incr_cell, getrow in Em.
  assert (Hib : ib < 3).
  { destruct ib as [|[|[|ib]]]; try lia. cbn in Em.
    destruct ib; discriminate Em. }
  repeat split; try assumption.
  destruct ib as [|[|[|ib]]]; try lia; cbn in Em; injection Em as <-; reflexivity.
Qed.

Section Progress.

Variables (states : list string) (states_to_indices : list (string * nat)).
Variables (transition_prob_A : option (list (list T))).
Variables (transition_prob_B : list (list T)) (learn verbose : bool).

Hypothesis states_actions :
  Forall (fun a => member a ["R"; "P"; "S"]%string = true) states.
Hypothesis choice_returns :
  forall i p, exists a, choice i states p = Return a /\ In a states.
Hypothesis indices :
  forall a, In a ["R"; "P"; "S"]%string ->
            exists i, getkey states_to_indices a = Return i /\ i < 3.
Hypothesis rows_B : 3 <= length transition_prob_B.
Hypothesis rows_A :
  learn = false ->
  exists prob_A, transition_prob_A = Some prob_A /\ 3 <= length prob_A.

Lemma choice_action (i : nat) (p : option (list T)) :
  exists a, choice i states p = Return a
            /\ member a ["R"; "P"; "S"]%string = true.
Proof.
  destruct (choice_returns i p) as (a & E & Ha). exists a. split; [assumption|].
  rewrite Forall_forall in states_actions. now apply states_actions.
Qed.

Lemma learn_returns (outs lines : list string) (counts : list (list T))
    (prev state_B_index d : nat) :
  (exists C, counts_of C counts) -> prev < 3 -> state_B_index < 3 ->
  exists st',
    (counts' <~ incr_cell counts prev state_B_index ;;
     counts_row <~ getrow counts' prev ;;
     predicted_state_B <~
       choice d states
         (Some (map (fun c => div c (np_sum counts_row)) counts_row)) ;;
     a <~ reply predicted_state_B ;;
     row <~ getrow transition_prob_B state_B_index ;;
     b <~ choice (d + 1) states (Some row) ;;
     Return (mkLoop outs a b counts' (Some state_B_index) (d + 2) lines))%py
    = Return st'
    /\ playable st'.
Proof.
  intros (C & HC) Hp Hb.
  destruct (incr_cell_returns HC Hp Hb) as (counts' & Ec). rewrite Ec. cbn [and_then].
  destruct (incr_cell_counts _ _ HC Ec) as (C' & HC' & _).
  assert (Hlen : prev < length counts').
  { destruct HC' as (-> & HC3 & _). rewrite length_map. lia. }
  destruct (getrow_returns _ Hlen) as (counts_row & Er). rewrite Er. cbn [and_then].
  destruct (choice_action d (Some (map (fun c => div c (np_sum counts_row)) counts_row)))
    as (predicted & Epr & Hpr).
  rewrite Epr. cbn [and_then].
  destruct (reply_returns _ Hpr) as (a & Ea & Ha). rewrite Ea. cbn [and_then].
  assert (Hlen' : state_B_index < length transition_prob_B) by lia.
  destruct (getrow_returns _ Hlen') as (row & Erow). rewrite Erow. cbn [and_then].
  destruct (choice_action (d + 1) (Some row)) as (b & Eb & Hb'). rewrite Eb.
  cbn [and_then]. eexists. split; [reflexivity|].
  repeat split; cbn; try assumption; [eauto|].
  intros p Hsome. injection Hsome as <-. assumption.
Qed.

Lemma play_returns (st : Loop) (game : nat) :
  playable st ->
  exists st',
    play choice states states_to_indices transition_prob_A transition_prob_B
      learn verbose st game = Return st'
    /\ playable st'.
Proof.
  intros (HA & HB & HC & Hprev). unfold play.
  destruct (compare_returns _ _ HA HB) as (winner & Ew). rewrite Ew. cbn [and_then].
  destruct (indices (proj1 (RPSFacts.member_In _ _) HA)) as (ia & Eia & Hia).
  destruct (indices (proj1 (RPSFacts.member_In _ _) HB)) as (ib & Eib & Hib).
  rewrite Eia, Eib. cbn [and_then].
  assert (Hlen : ib < length transition_prob_B) by lia.
  destruct (getrow_returns _ Hlen) as (row & Erow).
  destruct learn eqn:Hlearn.
  - destruct (prev_state_B_index st) as [p|] eqn:Hp.
    + cbn [and_then prev_state_B_index counts_B draws].
      apply learn_returns; auto.
    + match goal with
      | |- exists st', and_then _ ?K = _ /\ _ => set (rest := K)
      end.
      destruct (choice_action (draws st) None) as (a & Ea & Ha). rewrite Ea.
      cbn [and_then]. rewrite (first_char_action _ Ha), Erow. cbn [and_then].
      destruct (choice_action (draws st + 1) (Some row)) as (b & Eb & Hb). rewrite Eb.
      subst rest. cbn [and_then prev_state_B_index counts_B draws].
      apply learn_returns; auto.
  - destruct (rows_A eq_refl) as (prob_A & -> & HrowsA).
    cbn [and_then prev_state_B_index counts_B draws].
    assert (HlenA : ia < length prob_A) by lia.
    destruct (getrow_returns _ HlenA) as (row_A & ErowA). rewrite ErowA, Erow.
    cbn [and_then].
    destruct (choice_action (draws st) (Some row_A)) as (a & Ea & Ha). rewrite Ea.
    cbn [and_then].
    destruct (choice_action (draws st + 1) (Some row)) as (b & Eb & Hb). rewrite Eb.
    cbn [and_then]. eexists. split; [reflexivity|].
    repeat split; cbn; assumption.
Qed.

(** [simulate] returns whenever the two initial actions are among R, P
    and S, [states] holds only such actions, [states_to_indices] maps
    each of them to a row index below 3, the transition matrix of B (and
    that of A when [learn] is off) has three rows, and each draw of
    [np.random.choice] gives one of [states]. *)
Theorem simulate_returns (init_state_A init_state_B : string) (n_iter : nat) :
  In init_state_A ["R"; "P"; "S"]%string ->
  In init_state_B ["R"; "P"; "S"]%string ->
  exists outs counts lines,
    simulate choice states states_to_indices transition_prob_A transition_prob_B
      init_state_A init_state_B learn n_iter verbose = Return (outs, counts, lines).
Proof.
  intros HA HB. unfold simulate.
  destruct (@for_range_returns error nat Loop playable
              (play choice states states_to_indices transition_prob_A
                 transition_prob_B learn verbose)
              (fun s a Hs => play_returns a Hs) (seq 1 n_iter)
              (mkLoop [] init_state_A init_state_B (repeat (repeat zero 3) 3)
                 None 0 []))
    as (st & Est & _).
  - repeat split; cbn [state_A state_B counts_B prev_state_B_index].
    + now apply RPSFacts.member_In.
    + now apply RPSFacts.member_In.
    + eexists. exact (proj1 counts_of_zeros).
    + discriminate.
  - rewrite Est. cbn [and_then]. eauto.
Qed.

End Progress.

End Counts.

End SimulateFacts.

Lemma simulate_result_witness :
  RPS.simulate RPS.in_turn RPS.states RPS.states_to_indices None RPS.transition_prob_B
    "R" "P" true 4 false
  = Return (["B"; "A"; "A"; "A"]%string,
            Some [[0.0; 0.0; 1.0]; [1.0; 1.0; 0.0]; [0.0; 1.0; 0.0]]%float,
            [])
  /\ (length ["B"; "A"; "A"; "A"]%string = 4
      /\ Forall (fun w => In w ["A"; "B"; "draw"]%string) ["B"; "A"; "A"; "A"]%string
      /\ length (@nil string) = 0
      /\ exists C,
          Some [[0.0; 0.0; 1.0]; [1.0; 1.0; 0.0]; [0.0; 1.0; 0.0]]%float
          = Some (map (map RPS.counted) C)
          /\ length C = 3
          /\ Forall (fun row => length row = 3) C
          /\ RPS.total C = 4).
Proof.
  split; [vm_compute; reflexivity|].
  apply (@SimulateFacts.simulate_result float binary64 RPS.in_turn RPS.states
           RPS.states_to_indices None RPS.transition_prob_B "R" "P" true 4 false).
  vm_compute. reflexivity.
Defined.

Lemma simulate_first_game_counts_witness :
  exists i winner,
    RPS.getkey RPS.states_to_indices "P" = Return i
    /\ i < 3
    /\ RPS.compare "R" "P" = Return winner
    /\ ["B"%string] = [winner]
    /\ Some [[0.0; 0.0; 0.0]; [0.0; 1.0; 0.0]; [0.0; 0.0; 0.0]]%float
       = Some (set_nth (repeat (repeat zero 3) 3) i
                 (set_nth (repeat zero 3) i (add zero one))).
Proof.
  apply (@SimulateFacts.simulate_first_game_counts float binary64 RPS.in_turn
           RPS.states RPS.states_to_indices None RPS.transition_prob_B "R" "P" true
           ["B"%string]
           (Some [[0.0; 0.0; 0.0]; [0.0; 1.0; 0.0]; [0.0; 0.0; 0.0]]%float)
           [RPS.game_line 1 "R" "P" "B"]).
  vm_compute. reflexivity.
Defined.

Lemma simulate_returns_witness :
  exists outs counts lines,
    RPS.simulate RPS.in_turn RPS.states RPS.states_to_indices
      (Some RPS.transition_prob_B) RPS.transition_prob_B "S" "R" false 6 true
    = Return (outs, counts, lines).
Proof.
  apply (@SimulateFacts.simulate_returns float binary64 RPS.in_turn RPS.states
           RPS.states_to_indices (Some RPS.transition_prob_B) RPS.transition_prob_B
           false true).
  - repeat constructor.
  - intros i p. unfold RPS.in_turn, RPS.states. cbn [length].
    assert (Hi : i mod 3 < 3) by (apply Nat.mod_upper_bound; lia). revert Hi.
    destruct (i mod 3) as [|[|[|k]]]; intros Hi; [| | |lia];
      eexists; (split; [reflexivity | simpl; tauto]).
  - intros a [<-|[<-|[<-|[]]]]; eexists; (split; [reflexivity | simpl; lia]).
  - simpl. lia.
  - intros _. eexists. split; [reflexivity | simpl; lia].
  - simpl. tauto.
  - simpl. tauto.
Defined.

(* ------------------------------------------------------------------ *)
(** ** Preprocessing of the MNIST data *)

Lemma take_permutation {A : Type} (a : list A) (idx : list nat) :
  Permutation idx (seq 0 (length a)) ->
  exists a', take a idx = Ok a' /\ Permutation a' a.
Proof.
  intros Hp. destruct a as [|d a].
  - apply Permutation_sym, Permutation_nil in Hp. subst idx. exists []. now split.
  - assert (Hlt : Forall (fun i => i < length (d :: a)) idx).
    { apply Forall_forall. intros i Hi.
      apply (Permutation_in _ Hp), in_seq in Hi. lia. }
    exists (map (fun i => nth i (d :: a) d) idx). split; [now apply take_nth|].
    etransitivity; [apply Permutation_map; exact Hp|].
    now rewrite map_nth_seq.
Qed.

Lemma take_combine {A B : Type} (a : list A) (b : list B) (idx : list nat) :
  forall la lb, take a idx = Ok la -> take b idx = Ok lb ->
                take (combine a b) idx = Ok (combine la lb).
Proof.
  unfold take. induction idx as [|i idx IH]; simpl; intros la lb Ha Hb.
  - injection Ha as <-. reflexivity.
  - inv_bind Ha. inv_bind Ha. injection Ha as <-.
    inv_bind Hb. inv_bind Hb. injection Hb as <-.
    rewrite (IH _ _ E0 E2). unfold getitem in E, E1 |- *.
    destruct (nth_error a i) as [x|] eqn:Ex; [|discriminate].
    destruct (nth_error b i) as [z|] eqn:Ez; [|discriminate].
    rewrite (nth_error_combine _ _ _ Ex Ez). injection E as <-. injection E1 as <-.
    reflexivity.
Qed.

Lemma select_combine {A B : Type} (mask : list bool) (a : list A) (b : list B) :
  combine (select mask a) (select mask b) = select mask (combine a b).
Proof.
  revert a b. induction mask as [|m mask IH]; intros [|x a] [|z b]; simpl;
    try reflexivity.
  - now destruct m; destruct (select mask a).
  - destruct m; simpl; now rewrite IH.
Qed.

Lemma select_filter {A B : Type} (f : B -> bool) (a : list A) (b : list B) :
  length a = length b ->
  select (map f b) (combine a b) = filter (fun xz => f (snd xz)) (combine a b).
Proof.
  revert b. induction a as [|x a IH]; intros [|z b]; simpl; try discriminate;
    try reflexivity.
  intros H. injection H as H. destruct (f z); now rewrite IH.
Qed.

Lemma combine_map_r {A B C : Type} (f : B -> C) (a : list A) (b : list B) :
  combine a (map f b) = map (fun xz => (fst xz, f (snd xz))) (combine a b).
Proof.
  revert b. induction a as [|x a IH]; intros [|z b]; simpl; try reflexivity.
  now rewrite IH.
Qed.

Module MnistFacts.

Import Mnist.

Section Preprocess.

Context {T : Type} {num : Number T}.

Lemma assign_where_isin (values : list Z) (v : T) (labels : list T) :
  assign_where labels (isin labels values) v
  = map (fun l => if isin1 values l then v else l) labels.
Proof.
  unfold assign_where, isin. induction labels as [|l labels IH]; simpl;
    [reflexivity|]. now rewrite IH.
Qed.

Variable permutation : nat -> list nat.

Lemma preprocess_data_pairs (images : list (list T)) (labels : list T) :
  length images = length labels ->
  (forall n, Permutation (permutation n) (seq 0 n)) ->
  exists images' labels',
    preprocess_data permutation images labels = Ok (images', labels')
    /\ length images' = length labels'
    /\ Permutation (combine images' labels')
         (map (fun xl => (fst xl, relabel (snd xl)))
            (filter (fun xl => negb (isin1 [0; 1]%Z (snd xl)))
               (combine images labels))).
Proof.
  intros Hlen Hperm. unfold preprocess_data.
  set (mask := map negb (isin labels [0; 1]%Z)).
  assert (Hmask : length mask = length images).
  { unfold mask, isin. now rewrite !length_map. }
  rewrite (getmask_Ok _ _ Hmask). cbn [bind].
  rewrite !assign_where_isin, map_map.
  set (labels3 := map _ (select mask labels)).
  assert (Hk : length (select mask images) = length labels3).
  { unfold labels3. rewrite length_map. now apply select_aligned. }
  destruct (@take_permutation _ (select mask images) (permutation (length labels3)))
    as (images' & Ei & Hi); [rewrite Hk; apply Hperm|].
  destruct (@take_permutation _ labels3 (permutation (length labels3)))
    as (labels' & El & Hl); [apply Hperm|].
  rewrite Ei, El. cbn [bind]. exists images', labels'. split; [reflexivity|].
  split.
  { rewrite (Permutation_length Hi), (Permutation_length Hl). exact Hk. }
  pose proof (take_combine _ _ _ Ei El) as Ec.
  destruct (@take_permutation _ (combine (select mask images) labels3)
              (permutation (length labels3))) as (pairs & Ep & Hp).
  { rewrite length_combine, Hk, Nat.min_id. apply Hperm. }
  rewrite Ep in Ec. injection Ec as ->. etransitivity; [exact Hp|].
  unfold labels3. rewrite combine_map_r, select_combine.
  unfold mask, isin. rewrite map_map.
  rewrite (select_filter (fun l => negb (isin1 [0; 1]%Z l)) _ _ Hlen).
  reflexivity.
Qed.

(** [preprocess_data] on images and labels of different numbers: with at
    least one label it raises an index error, at the selection of the
    images by the mask of the labels; with no label the mask is empty,
    numpy does not check it, and the result is no image and no label. *)
Theorem preprocess_data_mismatch (images : list (list T)) (labels : list T) :
  length images <> length labels ->
  permutation 0 = [] ->
  preprocess_data permutation images labels
  = match labels with
    | [] => Ok ([], [])
    | _ :: _ => Raise IndexError
    end.
Proof.
  intros H Hp. unfold preprocess_data, getmask, isin. rewrite !length_map.
  destruct labels as [|l labels].
  - cbn. rewrite Hp, orb_true_r. reflexivity.
  - destruct (Nat.eqb_spec (length (l :: labels)) (length images)) as [E|E];
      [congruence | reflexivity].
Qed.

Section Digits.

(** The labels that [read_idx_data] gives are the digits 0 to 9 as
    floats, on which [==] is equality of the digits. *)
Hypothesis eqb_digits :
  forall a b, is_digit a -> is_digit b -> eqb (of_Z a) (of_Z b) = Z.eqb a b.

Lemma isin1_digit (values : list Z) (d : Z) :
  Forall is_digit values -> is_digit d ->
  isin1 values (of_Z d) = existsb (Z.eqb d) values.
Proof.
  intros Hv Hd. unfold isin1. induction Hv as [|v values Hv _ IH]; simpl;
    [reflexivity|]. now rewrite IH, eqb_digits.
Qed.

Ltac digits := repeat constructor; unfold is_digit; lia.

Lemma keep_digit (d : Z) :
  is_digit d -> negb (isin1 [0; 1]%Z (of_Z d)) = (1 <? d)%Z.
Proof.
  intros Hd. rewrite isin1_digit by (assumption || digits). unfold is_digit in Hd.
  simpl. destruct (Z.eqb_spec d 0), (Z.eqb_spec d 1), (Z.ltb_spec 1 d);
    simpl; try reflexivity; lia.
Qed.

Lemma relabel_digit (d : Z) :
  is_digit d -> (1 < d)%Z -> relabel (of_Z d) = of_Z (binary d).
Proof.
  intros Hd H1. unfold relabel, binary, positive.
  rewrite (isin1_digit (values := [2; 3; 5; 7]%Z)) by (assumption || digits).
  destruct (existsb (Z.eqb d) [2; 3; 5; 7]%Z) eqn:E.
  - rewrite (isin1_digit (values := [4; 6; 8; 9]%Z)) by digits. reflexivity.
  - rewrite (isin1_digit (values := [4; 6; 8; 9]%Z)) by (assumption || digits).
    replace (existsb (Z.eqb d) [4; 6; 8; 9]%Z) with true; [reflexivity|].
    unfold is_digit in Hd.
    assert (Hcases : (d = 2 \/ d = 3 \/ d = 4 \/ d = 5 \/ d = 6 \/ d = 7
                      \/ d = 8 \/ d = 9)%Z) by lia.
    destruct Hcases as [->|[->|[->|[->|[->|[->|[->| ->]]]]]]];
      try reflexivity; discriminate E.
Qed.

(** [preprocess_data] on images and as many labels, all digits 0 to 9,
    when [np.random.permutation] gives a permutation: it returns, in some
    order and each image with its own label, the images of the digits
    above 1, labelled 1 for 2, 3, 5 and 7 and 0 for 4, 6, 8 and 9. *)
Theorem preprocess_data_digits (images : list (list T)) (digits : list Z) :
  length images = length digits ->
  Forall is_digit digits ->
  (forall n, Permutation (permutation n) (seq 0 n)) ->
  exists images' labels',
    preprocess_data permutation images (map of_Z digits) = Ok (images', labels')
    /\ length images' = length labels'
    /\ Permutation (combine images' labels')
         (map (fun xd => (fst xd, of_Z (binary (snd xd))))
            (filter (fun xd => (1 <? snd xd)%Z) (combine images digits))).
Proof.
  intros Hlen Hdig Hperm.
  destruct (@preprocess_data_pairs images (map of_Z digits)) as
    (images' & labels' & E & Hl & Hp); [now rewrite length_map | assumption |].
  exists images', labels'. repeat split; try assumption.
  etransitivity; [exact Hp|]. clear Hp E Hl.
  rewrite combine_map_r.
  assert (Hin : forall xd, In xd (combine images digits) -> is_digit (snd xd)).
  { intros [x d] H. apply in_combine_r in H. rewrite Forall_forall in Hdig.
    now apply Hdig. }
  induction (combine images digits) as [|[x d] l IH]; cbn [map filter fst snd];
    [reflexivity|].
  assert (Hd : is_digit d) by (apply (Hin (x, d)); now left).
  rewrite (keep_digit Hd). destruct (Z.ltb_spec 1 d) as [H1|H1]; cbn [map fst snd].
  - rewrite (relabel_digit Hd H1). apply perm_skip. apply IH.
    intros xd H. apply Hin. now right.
  - apply IH. intros xd H. apply Hin. now right.
Qed.

End Digits.

(** Labels that equal none of the digits 0 to 9 go through
    [preprocess_data] as they are: the labels it returns are binary only
    when its input holds digits. *)
Theorem preprocess_data_keeps_other_labels (images : list (list T)) (labels : list T) :
  length images = length labels ->
  Forall (fun l => forall d, is_digit d -> eqb l (of_Z d) = false) labels ->
  (forall n, Permutation (permutation n) (seq 0 n)) ->
  exists images' labels',
    preprocess_data permutation images labels = Ok (images', labels')
    /\ Permutation (combine images' labels') (combine images labels).
Proof.
  intros Hlen Hother Hperm.
  destruct (@preprocess_data_pairs images labels Hlen Hperm) as
    (images' & labels' & E & Hl & Hp).
  exists images', labels'. split; [assumption|].
  etransitivity; [exact Hp|]. clear Hp E Hl.
  assert (Hin : forall xl, In xl (combine images labels) ->
                           forall d, is_digit d -> eqb (snd xl) (of_Z d) = false).
  { intros [x l] H. apply in_combine_r in H. rewrite Forall_forall in Hother.
    now apply Hother. }
  assert (Hisin : forall values l,
             Forall is_digit values ->
             (forall d, is_digit d -> eqb l (of_Z d) = false) ->
             isin1 values l = false).
  { intros values l Hv Hl. unfold isin1.
    induction Hv as [|v values Hv _ IH]; simpl; [reflexivity|].
    now rewrite IH, Hl. }
  induction (combine images labels) as [|[x l] ps IH]; cbn [map filter fst snd];
    [reflexivity|].
  assert (Hl : forall d, is_digit d -> eqb l (of_Z d) = false)
    by (apply (Hin (x, l)); now left).
  rewrite (Hisin [0; 1]%Z l) by (assumption || (repeat constructor; unfold is_digit; lia)).
  cbn [negb map fst snd]. unfold relabel.
  rewrite (Hisin [2; 3; 5; 7]%Z l)
    by (assumption || (repeat constructor; unfold is_digit; lia)).
  rewrite (Hisin [4; 6; 8; 9]%Z l)
    by (assumption || (repeat constructor; unfold is_digit; lia)).
  apply perm_skip. apply IH. intros xl H. apply Hin. now right.
Qed.

End Preprocess.

Lemma binary64_digits (a b : Z) :
  is_digit a -> is_digit b -> eqb (float_of_Z a) (float_of_Z b) = Z.eqb a b.
Proof.
  unfold is_digit. intros Ha Hb.
  assert (Ca : (a = 0 \/ a = 1 \/ a = 2 \/ a = 3 \/ a = 4 \/ a = 5 \/ a = 6
                \/ a = 7 \/ a = 8 \/ a = 9)%Z) by lia.
  assert (Cb : (b = 0 \/ b = 1 \/ b = 2 \/ b = 3 \/ b = 4 \/ b = 5 \/ b = 6
                \/ b = 7 \/ b = 8 \/ b = 9)%Z) by lia.
  clear Ha Hb.
  destruct Ca as [->|[->|[->|[->|[->|[->|[->|[->|[->| ->]]]]]]]]];
    destruct Cb as [->|[->|[->|[->|[->|[->|[->|[->|[->| ->]]]]]]]]];
    vm_compute; reflexivity.
Qed.

End MnistFacts.

Lemma preprocess_data_mismatch_witness :
  Mnist.preprocess_data (fun n => rev (seq 0 n)) [[0.0; 255.0]; [3.0; 4.0]]%float
    [7.0]%float
  = Raise IndexError
  /\ Mnist.preprocess_data (fun n => rev (seq 0 n)) [[0.0; 255.0]; [3.0; 4.0]]%float
       (@nil float)
     = Ok ([], []).
Proof.
  split.
  - apply (@MnistFacts.preprocess_data_mismatch float binary64
             (fun n => rev (seq 0 n)) [[0.0; 255.0]; [3.0; 4.0]]%float [7.0]%float).
    + simpl. lia.
    + reflexivity.
  - apply (@MnistFacts.preprocess_data_mismatch float binary64
             (fun n => rev (seq 0 n)) [[0.0; 255.0]; [3.0; 4.0]]%float (@nil float)).
    + simpl. lia.
    + reflexivity.
Defined.

Lemma preprocess_data_digits_witness :
  exists images' labels',
    Mnist.preprocess_data (fun n => rev (seq 0 n))
      [[0.0; 255.0]; [3.0; 4.0]; [9.0; 1.0]; [12.0; 0.0]]%float
      (map float_of_Z [7; 0; 4; 1]%Z)
    = Ok (images', labels')
    /\ length images' = length labels'
    /\ Permutation (combine images' labels')
         (map (fun xd => (fst xd, float_of_Z (Mnist.binary (snd xd))))
            (filter (fun xd => (1 <? snd xd)%Z)
               (combine [[0.0; 255.0]; [3.0; 4.0]; [9.0; 1.0]; [12.0; 0.0]]%float
                  [7; 0; 4; 1]%Z))).
Proof.
  apply (@MnistFacts.preprocess_data_digits float binary64 (fun n => rev (seq 0 n))
           MnistFacts.binary64_digits
           [[0.0; 255.0]; [3.0; 4.0]; [9.0; 1.0]; [12.0; 0.0]]%float [7; 0; 4; 1]%Z).
  - reflexivity.
  - repeat constructor; unfold Mnist.is_digit; lia.
  - intros n. apply Permutation_sym, Permutation_rev.
Defined.

Lemma preprocess_data_keeps_other_labels_witness :
  exists images' labels',
    Mnist.preprocess_data (fun n => rev (seq 0 n)) [[0.0; 255.0]; [3.0; 4.0]]%float
      [10.0; 2.5]%float
    = Ok (images', labels')
    /\ Permutation (combine images' labels')
         (combine [[0.0; 255.0]; [3.0; 4.0]]%float [10.0; 2.5]%float).
Proof.
  apply (@MnistFacts.preprocess_data_keeps_other_labels float binary64
           (fun n => rev (seq 0 n)) [[0.0; 255.0]; [3.0; 4.0]]%float
           [10.0; 2.5]%float).
  - reflexivity.
  - repeat constructor; unfold Mnist.is_digit; intros d Hd;
      assert (C : (d = 0 \/ d = 1 \/ d = 2 \/ d = 3 \/ d = 4 \/ d = 5 \/ d = 6
                   \/ d = 7 \/ d = 8 \/ d = 9)%Z) by lia;
      destruct C as [->|[->|[->|[->|[->|[->|[->|[->|[->| ->]]]]]]]]];
      vm_compute; reflexivity.
  - intros n. apply Permutation_sym, Permutation_rev.
Defined.
